(** * File Organizer: the organizer core of both variants (v1, v2)

    The development embeds [file_organizer/v1/organizer.py] and
    [file_organizer/v2/organizer.py].  Both modules work on
    [pathlib.Path] values, on the file system below the folders they are
    given, and on three files of their own data directory (the
    configuration, the last-run record and the text log).

    Environment model.
    - Paths follow pathlib's POSIX flavour: an anchor (none, [/] or [//])
      and a list of components; parsing drops empty components and [.],
      and keeps [..] as an ordinary component (pathlib never collapses it).
    - The file system is a finite map from absolute component lists to
      nodes (regular file with its content, or directory).  Symbolic links,
      permissions and the interpretation of [..] by the kernel are outside
      the model.
    - The configuration file, the last-run file and the log live in the
      application data directory; they are separate fields of the world.
      The last-run file, when there is one, holds a record as
      [perform_moves] writes it; a file of that name with other content is
      outside the model.
    - [Path.exists], [is_file] and [is_dir] answer for every path: the
      limits of the operating system on the length of a name or of a path,
      and the [OSError] they make [Path.exists] raise, are outside the
      model.
    - [str.lower] is modelled on ASCII letters; [Path.suffix] and
      [Path.stem] are those of Python 3.9 to 3.13, where a name that ends in
      a dot has no suffix.

    Of the windows, [file_organizer/v1/main.py] and
    [file_organizer/v2/main.py], the development embeds the code that works
    on plans, sources and rules: the loops that fill the preview table and
    read the plan back from it, [add_sources], the planning step of
    [on_file_created], and the rules editor.  Widgets, dialogs, the tray icon
    and the watcher threads are outside the model.  [str.strip] is modelled
    on ASCII white space, and the rules editor is described on configurations
    whose values have the types they have in [DEFAULT_CONFIG]. *)

From Stdlib Require Import Ascii String DecimalString DecimalNat.
From stdpp Require Import gmap strings list sorting.

(** ** Strings *)

Definition lower_char (c : ascii) : ascii :=
  let n := nat_of_ascii c in
  if (65 <=? n) && (n <=? 90) then ascii_of_nat (n + 32) else c.

(** [str.lower()] *)
Fixpoint lower (s : string) : string :=
  match s with
  | EmptyString => EmptyString
  | String c r => String (lower_char c) (lower r)
  end.

(** [f"{n}"] for a non-negative integer *)
Definition decimal (n : nat) : string :=
  NilEmpty.string_of_uint (Nat.to_uint n).

(** [c in s] for a character *)
Fixpoint has_char (c : ascii) (s : string) : bool :=
  match s with
  | EmptyString => false
  | String a r => if Ascii.eqb a c then true else has_char c r
  end.

(** [s.split("/")] *)
Fixpoint split_slash (s : string) : list string :=
  match s with
  | EmptyString => [EmptyString]
  | String c r =>
      if Ascii.eqb c "/" then EmptyString :: split_slash r
      else match split_slash r with
           | h :: t => String c h :: t
           | [] => [String c EmptyString]
           end
  end.

(** ["/".join(l)] *)
Fixpoint join_slash (l : list string) : string :=
  match l with
  | [] => ""
  | [x] => x
  | x :: r => x +:+ "/" +:+ join_slash r
  end.

(** ["\n".join(l)] *)
Fixpoint join_lines (l : list string) : string :=
  match l with
  | [] => ""
  | [x] => x
  | x :: r => x +:+ String "010" (join_lines r)
  end.

(** [name.rfind(".")], returned as the text before the last dot and,
    when there is a dot, the text from that dot on. *)
Fixpoint rsplit_dot (s : string) : string * option string :=
  match s with
  | EmptyString => (EmptyString, None)
  | String c r =>
      match rsplit_dot r with
      | (pre, Some suf) => (String c pre, Some suf)
      | (pre, None) =>
          if Ascii.eqb c "." then (EmptyString, Some (String c r))
          else (String c pre, None)
      end
  end.

(** ** pathlib.PurePosixPath *)

Inductive anchor := Relative | Root | DoubleRoot.

Record Path := MkPath { path_anchor : anchor; path_parts : list string }.

Global Instance anchor_eq_dec : EqDecision anchor.
Proof. solve_decision. Defined.
Global Instance Path_eq_dec : EqDecision Path.
Proof. solve_decision. Defined.

(** [posixpath.splitroot]: exactly two leading slashes are kept apart. *)
Definition parse_anchor (s : string) : anchor :=
  match s with
  | String "/" (String "/" (String "/" _)) => Root
  | String "/" (String "/" _) => DoubleRoot
  | String "/" _ => Root
  | _ => Relative
  end.

(** [Path(s)] *)
Definition path_of_str (s : string) : Path :=
  MkPath (parse_anchor s) (filter (λ x, x ≠ "" ∧ x ≠ ".") (split_slash s)).

Definition anchor_str (a : anchor) : string :=
  match a with Relative => "" | Root => "/" | DoubleRoot => "//" end.

(** [str(p)] *)
Definition path_str (p : Path) : string :=
  match path_anchor p, path_parts p with
  | Relative, [] => "."
  | a, l => anchor_str a +:+ join_slash l
  end.

(** [p.is_absolute()] *)
Definition is_absolute (p : Path) : bool :=
  match path_anchor p with Relative => false | _ => true end.

(** [p / q]: an absolute right operand replaces the left one. *)
Definition joinpath (p q : Path) : Path :=
  if is_absolute q then q
  else MkPath (path_anchor p) (path_parts p ++ path_parts q).

(** [p / s] for a string [s] *)
Definition join_str (p : Path) (s : string) : Path := joinpath p (path_of_str s).

(** [p.name] *)
Definition path_name (p : Path) : string := List.last (path_parts p) "".

(** [p.parent] *)
Definition path_parent (p : Path) : Path :=
  MkPath (path_anchor p) (removelast (path_parts p)).

(** [p.suffix]: the last dot must be neither the first nor the last
    character of the name. *)
Definition path_suffix (p : Path) : string :=
  match rsplit_dot (path_name p) with
  | (pre, Some suf) =>
      if bool_decide (pre ≠ "" ∧ 1 < String.length suf) then suf else ""
  | (_, None) => ""
  end.

(** [p.stem] *)
Definition path_stem (p : Path) : string :=
  match rsplit_dot (path_name p) with
  | (pre, Some suf) =>
      if bool_decide (pre ≠ "" ∧ 1 < String.length suf) then pre
      else path_name p
  | (_, None) => path_name p
  end.

(** ** The file system and the application's own files *)

Inductive node := File (data : string) | Dir.

Global Instance node_eq_dec : EqDecision node.
Proof. solve_decision. Defined.

Inductive exn :=
  | FileNotFoundError (path : string)
  | FileExistsError (path : string)
  | NotADirectoryError (path : string)
  | ShutilError (msg : string)
  | JSONDecodeError
  | TypeError (msg : string).

(** [str(e)], the text the [{e}] of an f-string shows *)
Definition exn_str (e : exn) : string :=
  match e with
  | FileNotFoundError p => "[Errno 2] No such file or directory: '" +:+ p +:+ "'"
  | FileExistsError p => "[Errno 17] File exists: '" +:+ p +:+ "'"
  | NotADirectoryError p => "[Errno 20] Not a directory: '" +:+ p +:+ "'"
  | ShutilError m => m
  | JSONDecodeError => "Expecting value: line 1 column 1 (char 0)"
  | TypeError m => m
  end.

(** JSON values as [json.load] builds them; a dict keeps insertion order. *)
Local Unset Elimination Schemes.
Inductive json :=
  | JNull
  | JBool (b : bool)
  | JNum (n : Z)
  | JStr (s : string)
  | JArr (l : list json)
  | JObj (l : list (string * json)).
Local Set Elimination Schemes.

(** What the configuration file holds: text that [json.load] rejects, or a
    document. *)
Inductive stored := Garbage (text : string) | Doc (j : json).

(** A plan entry: the dict [{src, category, planned_dest}]. *)
Record entry := Entry {
  e_src : string;
  e_category : string;
  e_planned_dest : string
}.

(** A performed move: the dict [{src, dest}]. *)
Record move := Move { mv_src : string; mv_dest : string }.

(** The last-run record: the dict [{timestamp, moves}]. *)
Record run := Run { timestamp : string; moves : list move }.

Global Instance entry_eq_dec : EqDecision entry.
Proof. solve_decision. Defined.
Global Instance move_eq_dec : EqDecision move.
Proof. solve_decision. Defined.
Global Instance run_eq_dec : EqDecision run.
Proof. solve_decision. Defined.

Inductive level := INFO | WARNING | ERROR.

Record world := World {
  cwd : list string;                      (* the process's working directory *)
  home : Path;                            (* [Path.home()] *)
  data_dir : Path;                        (* DATA_DIR *)
  clock : string;                         (* [datetime.now(timezone.utc).isoformat()] *)
  files : gmap (list string) node;
  config_file : option stored;            (* CONFIG_PATH *)
  last_run_file : option run;             (* LAST_RUN_PATH *)
  log_file : list (level * string)        (* LOG_PATH *)
}.

Definition set_files (f : gmap (list string) node) (w : world) : world :=
  World (cwd w) (home w) (data_dir w) (clock w) f (config_file w) (last_run_file w) (log_file w).
Definition set_config_file (c : option stored) (w : world) : world :=
  World (cwd w) (home w) (data_dir w) (clock w) (files w) c (last_run_file w) (log_file w).
Definition set_last_run_file (r : option run) (w : world) : world :=
  World (cwd w) (home w) (data_dir w) (clock w) (files w) (config_file w) r (log_file w).
Definition add_log (l : level) (m : string) (w : world) : world :=
  World (cwd w) (home w) (data_dir w) (clock w) (files w) (config_file w) (last_run_file w)
        (log_file w ++ [(l, m)]).

(** The absolute component list a path denotes. *)
Definition resolve (w : world) (p : Path) : list string :=
  match path_anchor p with
  | Relative => cwd w ++ path_parts p
  | _ => path_parts p
  end.

Definition stat (w : world) (p : Path) : option node := files w !! resolve w p.

(** [p.exists()], [p.is_file()], [p.is_dir()] *)
Definition path_exists (w : world) (p : Path) : bool :=
  bool_decide (is_Some (stat w p)).
Definition is_file (w : world) (p : Path) : bool :=
  match stat w p with Some (File _) => true | _ => false end.
Definition is_dir (w : world) (p : Path) : bool :=
  match stat w p with Some Dir => true | _ => false end.

(** [k] with the prefix [pre] removed *)
Fixpoint drop_prefix (pre k : list string) : option (list string) :=
  match pre, k with
  | [], _ => Some k
  | a :: pre', b :: k' => if decide (a = b) then drop_prefix pre' k' else None
  | _ :: _, [] => None
  end.

(** [os.listdir]: the names directly below [k], in the map's order. *)
Definition listdir (fs : gmap (list string) node) (k : list string) : list string :=
  omap (λ kv, match drop_prefix k kv.1 with Some [n] => Some n | _ => None end)
       (map_to_list fs).

(** ** Computations: state and exceptions *)

Inductive outcome (A : Type) := Ret (a : A) | Raise (e : exn).
Arguments Ret {A} a.
Arguments Raise {A} e.

Definition M (A : Type) : Type := world → outcome A * world.

Definition ret {A} (a : A) : M A := λ w, (Ret a, w).
Definition raise {A} (e : exn) : M A := λ w, (Raise e, w).
Definition bind {A B} (c : M A) (k : A → M B) : M B :=
  λ w, match c w with
       | (Ret a, w') => k a w'
       | (Raise e, w') => (Raise e, w')
       end.
(** [try: c except Exception as e: h e] *)
Definition try_except {A} (c : M A) (h : exn → M A) : M A :=
  λ w, match c w with
       | (Ret a, w') => (Ret a, w')
       | (Raise e, w') => h e w'
       end.
Definition modify (f : world → world) : M unit := λ w, (Ret tt, f w).

Notation "'do' x <- c ; k" := (bind c (λ x, k))
  (at level 10, x name, c at level 100, k at level 200).
Notation "c ;; k" := (bind c (λ _, k))
  (at level 100, k at level 200, right associativity).

(** [for x in l: body x acc], threading the accumulator *)
Fixpoint for_each {A B} (l : list A) (body : A → B → M B) (acc : B) : M B :=
  match l with
  | [] => ret acc
  | x :: r => do acc' <- body x acc; for_each r body acc'
  end.

Definition log (l : level) (m : string) : M unit := modify (add_log l m).

(** [p.mkdir(parents=True, exist_ok=True)] on the resolved path: walk down
    from the root, creating what is missing; a regular file on the way is an
    error ([FileExistsError] for the path itself, [NotADirectoryError] for an
    ancestor). *)
Fixpoint mkdir_from (name : string) (fs : gmap (list string) node)
    (base rest : list string) : exn + gmap (list string) node :=
  match fs !! base with
  | Some (File _) =>
      inl (match rest with [] => FileExistsError name | _ => NotADirectoryError name end)
  | here =>
      let fs' := match here with None => <[base := Dir]> fs | _ => fs end in
      match rest with
      | [] => inr fs'
      | c :: rest' => mkdir_from name fs' (base ++ [c]) rest'
      end
  end.

Definition mkdir (p : Path) : M unit :=
  λ w, match mkdir_from (path_str p) (files w) [] (resolve w p) with
       | inl e => (Raise e, w)
       | inr fs' => (Ret tt, set_files fs' w)
       end.

(** [os.rename] of a whole directory: every key below [s] moves below [d]. *)
Definition move_tree (s d : list string) (fs : gmap (list string) node)
    : gmap (list string) node :=
  list_to_map
    (fmap (M := list)
          (λ kv, match drop_prefix s kv.1 with
                 | Some r => (d ++ r, kv.2)
                 | None => kv
                 end) (map_to_list fs)).

(** [os.rename src dst] for a destination that does not exist, with the
    copy-and-delete fallback of [shutil.move] when the rename is refused. *)
Definition rename (src dst : string) (s d : list string)
    (fs : gmap (list string) node) : exn + gmap (list string) node :=
  match fs !! s with
  | None => inl (FileNotFoundError src)
  | Some (File c) =>
      match fs !! removelast d with
      | None => inl (FileNotFoundError dst)
      | Some (File _) => inl (NotADirectoryError dst)
      | Some Dir => inr (<[d := File c]> (delete s fs))
      end
  | Some Dir =>
      if bool_decide (is_Some (drop_prefix s d))
      then inl (ShutilError ("Cannot move a directory '" +:+ src
                             +:+ "' into itself '" +:+ dst +:+ "'."))
      else match fs !! removelast d with
           | Some (File _) => inl (NotADirectoryError dst)
           | Some Dir => inr (move_tree s d fs)
           | None =>
               match mkdir_from dst fs [] (removelast d) with
               | inl _ => inl (NotADirectoryError dst)
               | inr fs' => inr (move_tree s d fs')
               end
           end
  end.

(** [shutil.move(src, dst)]: into [dst] when it is a directory, over it when
    it is a regular file, to it otherwise. *)
Definition shutil_move (src dst : string) : M unit :=
  λ w,
    let s := resolve w (path_of_str src) in
    let d := resolve w (path_of_str dst) in
    let fs := files w in
    let result :=
      match fs !! d with
      | Some Dir =>
          if decide (s = d) then inr fs
          else
            let inside := path_str (join_str (path_of_str dst) (path_name (path_of_str src))) in
            let d' := d ++ [path_name (path_of_str src)] in
            if bool_decide (is_Some (fs !! d'))
            then inl (ShutilError ("Destination path '" +:+ inside +:+ "' already exists"))
            else rename src inside s d' fs
      | Some (File _) =>
          match fs !! s with
          | Some (File c) =>
              if decide (s = d) then inr fs else inr (<[d := File c]> (delete s fs))
          | Some Dir => inl (FileExistsError dst)
          | None => inl (FileNotFoundError src)
          end
      | None => rename src dst s d fs
      end in
    match result with
    | inl e => (Raise e, w)
    | inr fs' => (Ret tt, set_files fs' w)
    end.

(** [p.iterdir()]: the children of a directory, as [p / name]. *)
Definition iterdir (p : Path) : M (list Path) :=
  λ w, match stat w p with
       | Some Dir =>
           (Ret (map (λ n, MkPath (path_anchor p) (path_parts p ++ [n]))
                     (listdir (files w) (resolve w p))), w)
       | Some (File _) => (Raise (NotADirectoryError (path_str p)), w)
       | None => (Raise (FileNotFoundError (path_str p)), w)
       end.

Definition CONFIG_PATH (w : world) : Path := join_str (data_dir w) "organizer_config.json".
Definition LAST_RUN_PATH (w : world) : Path := join_str (data_dir w) "last_run.json".

(** ** The rule set *)

(** One category: [{"extensions": [...], "destination": "..."}]. *)
Record catinfo := CatInfo { extensions : list string; destination : string }.

(** The configuration dict as the planner reads it; a key that is absent
    reads as the empty string. *)
Record config := Config {
  categories : list (string * catinfo);
  others_destination : string;
  default_destination : string
}.

(** ** Functions that read the same in both variants *)

(** [parent / f"{stem}_{counter}{suffix}"] *)
Definition candidate (dest : Path) (counter : nat) : Path :=
  join_str (path_parent dest)
           (path_stem dest +:+ "_" +:+ decimal counter +:+ path_suffix dest).

(** The [while True] loop of [_unique_dest].  It runs at most as many rounds
    as the file system has entries plus one; [unique_dest_fresh] shows that a
    free candidate is met before the rounds are used up. *)
Fixpoint unique_loop (w : world) (dest : Path) (rounds counter : nat) : Path :=
  match rounds with
  | 0 => candidate dest counter
  | S rounds' =>
      if negb (path_exists w (candidate dest counter)) then candidate dest counter
      else unique_loop w dest rounds' (S counter)
  end.

Definition _unique_dest (w : world) (dest : Path) : Path :=
  if negb (path_exists w dest) then dest
  else unique_loop w dest (S (size (files w))) 1.

(** The [for cat, catinfo in cfg["categories"].items()] loop. *)
Fixpoint categorize_loop (ext : string) (cats : list (string * catinfo))
    : option (string * Path) :=
  match cats with
  | [] => None
  | (cat, catinfo) :: rest =>
      let exts := map lower (extensions catinfo) in
      if bool_decide (ext ∈ exts) then Some (cat, path_of_str (destination catinfo))
      else categorize_loop ext rest
  end.

Definition categorize_file (file : Path) (cfg : config) : string * Path :=
  let ext := lower (path_suffix file) in
  match categorize_loop ext (categories cfg) with
  | Some r => r
  | None => ("Others", path_of_str (others_destination cfg))
  end.

(** ["categories" in cfg] on whatever [json.load] returned *)
Definition has_categories (cfg : json) : exn + bool :=
  match cfg with
  | JObj l => inr (bool_decide ("categories" ∈ map fst l))
  | JArr l =>
      inr (existsb (λ j, match j with
                         | JStr s => bool_decide (s = "categories")
                         | _ => false
                         end) l)
  | JStr s => inr (bool_decide (is_Some (String.index 0 "categories" s)))
  | JNull => inl (TypeError "argument of type 'NoneType' is not iterable")
  | JBool _ => inl (TypeError "argument of type 'bool' is not iterable")
  | JNum _ => inl (TypeError "argument of type 'int' is not iterable")
  end.

(** [cfg["categories"] = v] when the key is not in [cfg] *)
Definition set_categories (cfg v : json) : exn + json :=
  match cfg with
  | JObj l => inr (JObj (l ++ [("categories", v)]))
  | JArr _ => inl (TypeError "list indices must be integers or slices, not str")
  | JStr _ => inl (TypeError "'str' object does not support item assignment")
  | _ => inl (TypeError "object does not support item assignment")
  end.

Definition lift {A} (r : exn + A) : M A :=
  match r with inl e => raise e | inr a => ret a end.
Definition get : M world := λ w, (Ret w, w).

Definition json_category (exts : list string) : json :=
  JObj [("extensions", JArr (map JStr exts)); ("destination", JStr "")].

(** ** Variant v1: [file_organizer/v1/organizer.py] *)

Module V1.

Definition DEFAULT_CATEGORIES : json :=
  JObj [("Images", json_category [".jpg"; ".jpeg"; ".png"; ".gif"; ".bmp"; ".svg"; ".webp"]);
        ("Videos", json_category [".mp4"; ".mkv"; ".mov"; ".avi"; ".webm"]);
        ("Documents", json_category [".pdf"; ".docx"; ".doc"; ".txt"; ".pptx"; ".xlsx"; ".odt"]);
        ("Archives", json_category [".zip"; ".rar"; ".tar"; ".gz"; ".7z"]);
        ("Code", json_category [".py"; ".js"; ".java"; ".cpp"; ".c"; ".cs"; ".html"; ".css"])].

Definition DEFAULT_CONFIG : json :=
  JObj [("categories", DEFAULT_CATEGORIES);
        ("others_destination", JStr "");
        ("safe_mode", JBool true);
        ("move_on_preview_confirm", JBool true);
        ("monitoring_enabled", JBool true);
        ("monitor_patterns", JArr [JStr "*"])].

Definition save_config (cfg : json) : M unit :=
  modify (set_config_file (Some (Doc cfg))) ;;
  do w <- get;
  log INFO ("Config saved to " +:+ path_str (CONFIG_PATH w)).

(** No handler: what [json.load] or the shape check raises reaches the
    caller. *)
Definition load_config : M json :=
  do w <- get;
  match config_file w with
  | None =>
      save_config DEFAULT_CONFIG ;;
      log INFO ("Saved default config to " +:+ path_str (CONFIG_PATH w)) ;;
      ret DEFAULT_CONFIG
  | Some (Garbage _) => raise JSONDecodeError
  | Some (Doc cfg) =>
      do present <- lift (has_categories cfg);
      if negb present then lift (set_categories cfg DEFAULT_CATEGORIES)
      else ret cfg
  end.

(** The body of the inner loop of [build_preview], for one directory
    entry [item] of [source]. *)
Definition preview_item (source : Path) (cfg : config) (item : Path)
    (plan : list entry) : M (list entry) :=
  do w <- get;
  if is_file w item then
    let '(category, dest_root) := categorize_file item cfg in
    let target_folder :=
      if is_absolute dest_root then join_str dest_root category
      else join_str source category in
    let planned_dest := join_str target_folder (path_name item) in
    ret (plan ++ [Entry (path_str item) category (path_str planned_dest)])
  else ret plan.

Definition preview_source (cfg : config) (source : Path) (plan : list entry)
    : M (list entry) :=
  do w <- get;
  if negb (path_exists w source) then
    log WARNING ("Source not found: " +:+ path_str source) ;;
    ret plan
  else
    do items <- iterdir source;
    for_each items (preview_item source cfg) plan.

Definition build_preview (sources : list Path) (cfg : config) : M (list entry) :=
  for_each sources (preview_source cfg) [].

(** The body of the loop of [perform_moves]; [mkdir] is outside the
    [try]. *)
Definition move_entry (e : entry) (performed : list move) : M (list move) :=
  let src := path_of_str (e_src e) in
  let dest_dir := path_parent (path_of_str (e_planned_dest e)) in
  mkdir dest_dir ;;
  let dest := join_str dest_dir (path_name src) in
  do w <- get;
  let safe_dest := _unique_dest w dest in
  try_except
    (shutil_move (path_str src) (path_str safe_dest) ;;
     log INFO ("Moved: " +:+ path_str src +:+ " -> " +:+ path_str safe_dest) ;;
     ret (performed ++ [Move (path_str src) (path_str safe_dest)]))
    (λ ex,
       log ERROR ("Failed to move " +:+ path_str src +:+ " -> "
                  +:+ path_str safe_dest +:+ ": " +:+ exn_str ex) ;;
       ret performed).

Definition perform_moves (plan : list entry) : M (list move) :=
  do performed <- for_each plan move_entry [];
  (match performed with
   | [] => ret tt
   | _ :: _ =>
       do w <- get;
       modify (set_last_run_file (Some (Run (clock w) performed))) ;;
       log INFO ("Wrote last run with " +:+ decimal (length performed)
                 +:+ " moves to " +:+ path_str (LAST_RUN_PATH w))
   end) ;;
  ret performed.

(** The body of the loop of [undo_last_run]; [mkdir] is outside the
    [try]. *)
Definition undo_move (mv : move) (failures : list string) : M (list string) :=
  let src := path_of_str (mv_dest mv) in
  let dest := path_of_str (mv_src mv) in
  mkdir (path_parent dest) ;;
  try_except
    (do w <- get;
     let final_dest := if path_exists w dest then _unique_dest w dest else dest in
     shutil_move (path_str src) (path_str final_dest) ;;
     log INFO ("Undid move: " +:+ path_str src +:+ " -> " +:+ path_str final_dest) ;;
     ret failures)
    (λ ex,
       log ERROR ("Failed to undo " +:+ path_str src +:+ " -> " +:+ path_str dest
                  +:+ ": " +:+ exn_str ex) ;;
       ret (failures ++ [path_str src +:+ " -> " +:+ path_str dest +:+ ": "
                         +:+ exn_str ex])).

Definition undo_last_run : M (bool * string) :=
  do w <- get;
  match last_run_file w with
  | None => ret (false, "No last run recorded.")
  | Some record =>
      do failures <- for_each (rev (moves record)) undo_move [];
      match failures with
      | _ :: _ =>
          ret (false, "Some files failed to undo:" +:+ String "010" (join_lines failures))
      | [] =>
          modify (set_last_run_file None) ;;
          ret (true, "Undid " +:+ decimal (length (moves record)) +:+ " moves.")
      end
  end.

End V1.

(** ** Variant v2: [file_organizer/v2/organizer.py] *)

Module V2.

Definition DEFAULT_CATEGORIES : json :=
  JObj [("Images", json_category [".jpg"; ".jpeg"; ".png"]);
        ("Videos", json_category [".mp4"; ".mkv"]);
        ("Documents", json_category [".pdf"; ".docx"; ".txt"])].

Definition DEFAULT_CONFIG : json :=
  JObj [("categories", DEFAULT_CATEGORIES);
        ("others_destination", JStr "");
        ("monitoring_enabled", JBool true);
        ("monitor_patterns", JArr [JStr "*"])].

Definition save_config (cfg : json) : M unit :=
  modify (set_config_file (Some (Doc cfg))).

(** Reading and checking run inside [try ... except Exception]. *)
Definition load_config : M json :=
  do w <- get;
  match config_file w with
  | None => save_config DEFAULT_CONFIG ;; ret DEFAULT_CONFIG
  | Some content =>
      try_except
        (do cfg <- match content with
                   | Garbage _ => raise JSONDecodeError
                   | Doc cfg => ret cfg
                   end;
         do present <- lift (has_categories cfg);
         if negb present then lift (set_categories cfg DEFAULT_CATEGORIES)
         else ret cfg)
        (λ ex,
           log ERROR ("Config corrupted, using defaults: " +:+ exn_str ex) ;;
           ret DEFAULT_CONFIG)
  end.

Definition fallback_root (w : world) (cfg : config) : Path :=
  path_of_str
    (if bool_decide (others_destination cfg ≠ "") then others_destination cfg
     else if bool_decide (default_destination cfg ≠ "") then default_destination cfg
     else path_str (join_str (home w) "Organized")).

(** [root if str(root) else fallback_root] *)
Definition resolve_dest (w : world) (cfg : config) (file : Path) : string * Path :=
  let '(cat, root) := categorize_file file cfg in
  (cat, if bool_decide (path_str root ≠ "") then root else fallback_root w cfg).

Definition preview_item (cfg : config) (file : Path) (plan : list entry)
    : M (list entry) :=
  do w <- get;
  if negb (is_file w file) then ret plan
  else
    let '(cat, dest_root) := resolve_dest w cfg file in
    ret (plan ++ [Entry (path_str file) cat
                        (path_str (join_str dest_root (path_name file)))]).

Definition preview_source (cfg : config) (folder : Path) (plan : list entry)
    : M (list entry) :=
  do w <- get;
  if negb (is_dir w folder) then ret plan
  else
    do items <- iterdir folder;
    for_each items (preview_item cfg) plan.

Definition build_preview (sources : list Path) (cfg : config) : M (list entry) :=
  for_each sources (preview_source cfg) [].

Definition move_entry (e : entry) (performed : list move) : M (list move) :=
  let src := path_of_str (e_src e) in
  let dest := path_of_str (e_planned_dest e) in
  mkdir (path_parent dest) ;;
  do w <- get;
  let safe_dest := _unique_dest w dest in
  try_except
    (shutil_move (path_str src) (path_str safe_dest) ;;
     ret (performed ++ [Move (path_str src) (path_str safe_dest)]))
    (λ ex,
       log ERROR ("Failed to move " +:+ path_str src +:+ ": " +:+ exn_str ex) ;;
       ret performed).

Definition perform_moves (plan : list entry) : M (list move) :=
  do performed <- for_each plan move_entry [];
  (match performed with
   | [] => ret tt
   | _ :: _ =>
       do w <- get;
       modify (set_last_run_file (Some (Run (clock w) performed)))
   end) ;;
  ret performed.

(** The whole body of the loop of [undo_last_run] is inside the [try]. *)
Definition undo_move (mv : move) (failures : list string) : M (list string) :=
  let src := path_of_str (mv_dest mv) in
  let dest := path_of_str (mv_src mv) in
  try_except
    (mkdir (path_parent dest) ;;
     do w <- get;
     shutil_move (path_str src) (path_str (_unique_dest w dest)) ;;
     ret failures)
    (λ ex,
       ret (failures ++ [path_str src +:+ " -> " +:+ path_str dest +:+ ": "
                         +:+ exn_str ex])).

Definition undo_last_run : M (bool * string) :=
  do w <- get;
  match last_run_file w with
  | None => ret (false, "No last run recorded.")
  | Some record =>
      do failures <- for_each (rev (moves record)) undo_move [];
      match failures with
      | _ :: _ =>
          ret (false, "Some undo's failed:" +:+ String "010" (join_lines failures))
      | [] =>
          modify (set_last_run_file None) ;;
          ret (true, "Undid " +:+ decimal (length (moves record)) +:+ " moves.")
      end
  end.

End V2.

(** ** Strings and dicts of the windows *)

(** [c.isspace()] on an ASCII character: tab to carriage return, the
    separators 28 to 31, and the space. *)
Definition is_space (c : ascii) : bool :=
  let n := nat_of_ascii c in
  ((9 <=? n) && (n <=? 13)) || ((28 <=? n) && (n <=? 32)).

(** [s.lstrip()], [s.rstrip()] and [s.strip()] *)
Fixpoint lstrip (s : string) : string :=
  match s with
  | EmptyString => EmptyString
  | String c r => if is_space c then lstrip r else s
  end.

Fixpoint rstrip (s : string) : string :=
  match s with
  | EmptyString => EmptyString
  | String c r =>
      match rstrip r with
      | EmptyString => if is_space c then EmptyString else String c EmptyString
      | r' => String c r'
      end
  end.

Definition strip (s : string) : string := rstrip (lstrip s).

(** [s.split(",")] *)
Fixpoint split_comma (s : string) : list string :=
  match s with
  | EmptyString => [EmptyString]
  | String c r =>
      if Ascii.eqb c "," then EmptyString :: split_comma r
      else match split_comma r with
           | h :: t => String c h :: t
           | [] => [String c EmptyString]
           end
  end.

(** [sep.join(l)] *)
Fixpoint join_with (sep : string) (l : list string) : string :=
  match l with
  | [] => ""
  | [x] => x
  | x :: r => x +:+ sep +:+ join_with sep r
  end.

(** [d.get(k)] and [d[k] = v] on a dict; a key that is assigned again keeps
    its place. *)
Fixpoint dict_get {V} (k : string) (d : list (string * V)) : option V :=
  match d with
  | [] => None
  | (k', v) :: r => if bool_decide (k' = k) then Some v else dict_get k r
  end.

Fixpoint dict_set {V} (k : string) (v : V) (d : list (string * V)) : list (string * V) :=
  match d with
  | [] => [(k, v)]
  | (k', v') :: r =>
      if bool_decide (k' = k) then (k, v) :: r else (k', v') :: dict_set k v r
  end.

(** ** The window of v1: [file_organizer/v1/main.py] *)

Module V1Main.

(** A row of the preview table: the texts of its three items. *)
Record row := Row { src_text : string; category_text : string; dest_text : string }.

(** The rows [MainWindow.preview_moves] fills in for a plan. *)
Definition preview_rows (plan : list entry) : list row :=
  map (λ item, Row (e_src item) (e_category item) (e_planned_dest item)) plan.

(** The plan [MainWindow.organize_now] reads from the table. *)
Definition organize_plan (table : list row) : list entry :=
  map (λ r, Entry (src_text r) (category_text r) (dest_text r)) table.

End V1Main.

(** ** The windows of v2: [file_organizer/v2/main.py] *)

Module V2Main.

(** *** [MainWindow] *)

(** A row of the preview table: the check box, the text and the tool tip
    of the source item, the category and the destination. *)
Record row := Row {
  checked : bool;
  folder_text : string;
  tool_tip : string;
  category_text : string;
  dest_text : string
}.

(** The rows [MainWindow.preview] fills in for a plan. *)
Definition preview_rows (plan : list entry) : list row :=
  map (λ it, Row true (path_str (path_parent (path_of_str (e_src it)))) (e_src it)
                 (e_category it) (e_planned_dest it)) plan.

(** The plan [MainWindow.organize] reads from the table: the rows that are
    checked, the source being [toolTip() or text()]. *)
Definition organize_plan (table : list row) : list entry :=
  map (λ r, Entry (if bool_decide (tool_tip r ≠ "") then tool_tip r else folder_text r)
                  (category_text r) (dest_text r))
      (filter (λ r, checked r = true) table).

(** The body of the loop of [MainWindow.add_sources] *)
Definition add_source (w : world) (sources : list Path) (p : string) : list Path :=
  let pp := path_of_str p in
  if path_exists w pp && bool_decide (pp ∉ sources) then sources ++ [pp] else sources.

(** [MainWindow.add_sources]: the new list of sources and the message that
    is logged. *)
Definition add_sources (w : world) (paths : list string) (sources : list Path)
    : list Path * string :=
  let sources' := fold_left (add_source w) paths sources in
  (sources', "Sources: " +:+ join_with ", " (map path_str sources')).

(** The plan [MainWindow.on_file_created] hands to [perform_moves] for the
    path the watcher reports, under the configuration [cfg]. *)
Definition created_plan (path : string) (cfg : config) : M (list entry) :=
  let p := path_of_str path in
  let containing := path_parent p in
  do plan <- V2.build_preview [containing] cfg;
  ret (filter (λ entry, e_src entry = path_str p) plan).

(** *** The rules editor, [ConfigEditor] *)

(** A row of the rules table: the texts of its three items. *)
Record rule_row := RuleRow {
  rr_category : string;
  rr_extensions : string;
  rr_destination : string
}.

(** A list of strings, as [",".join] takes it. *)
Definition read_strings (j : json) : option (list string) :=
  match j with
  | JArr l => mapM (λ x, match x with JStr s => Some s | _ => None end) l
  | _ => None
  end.

(** The row [ConfigEditor.load] makes of one category.  [None]: a value has
    another type than in [DEFAULT_CONFIG]; what the editor does then is not
    described. *)
Definition load_row (cat : string) (info : json) : option rule_row :=
  match info with
  | JObj i =>
      exts ← read_strings (default (JArr []) (dict_get "extensions" i));
      match default (JStr "") (dict_get "destination" i) with
      | JStr dest => Some (RuleRow cat (join_with "," exts) dest)
      | _ => None
      end
  | _ => None
  end.

(** [ConfigEditor.load] on the dict [self.cfg] *)
Definition load (cfg : list (string * json)) : option (list rule_row) :=
  match default (JObj []) (dict_get "categories" cfg) with
  | JObj cats => mapM (λ ci : string * json, load_row ci.1 ci.2) cats
  | _ => None
  end.

(** [ConfigEditor.add] *)
Definition add (table : list rule_row) : list rule_row :=
  table ++ [RuleRow "NewCategory" ".ext" ""].

(** [ConfigEditor.remove]: the selected rows, highest first. *)
Definition remove (selected : gset nat) (table : list rule_row) : list rule_row :=
  fold_left (λ t r, delete r t) (reverse (merge_sort le (elements selected))) table.

(** [ConfigEditor.set_dest] with the folder the dialog returned *)
Definition set_dest (folder : string) (selected : gset nat) (table : list rule_row)
    : list rule_row :=
  if bool_decide (folder ≠ "") then
    imap (λ r row, if bool_decide (r ∈ selected)
                   then RuleRow (rr_category row) (rr_extensions row) folder
                   else row) table
  else table.

(** The dict [{"extensions": exts, "destination": dest}] *)
Definition rule_json (exts : list string) (dest : string) : json :=
  JObj [("extensions", JArr (map JStr exts)); ("destination", JStr dest)].

(** [[e.strip() for e in text.split(",") if e.strip()]] *)
Definition row_extensions (text : string) : list string :=
  map strip (filter (λ e, strip e ≠ "") (split_comma text)).

(** The body of the loop of [ConfigEditor.save] *)
Definition save_row (cats : list (string * json)) (r : rule_row) : list (string * json) :=
  let name := strip (rr_category r) in
  let exts := row_extensions (rr_extensions r) in
  let dest := strip (rr_destination r) in
  if bool_decide (name ≠ "") then dict_set name (rule_json exts dest) cats else cats.

Definition saved_categories (table : list rule_row) : list (string * json) :=
  fold_left save_row table [].

(** [ConfigEditor.save]: the dict [self.cfg] gets the new categories and is
    written. *)
Definition save (cfg : list (string * json)) (table : list rule_row)
    : M (list (string * json)) :=
  let cfg' := dict_set "categories" (JObj (saved_categories table)) cfg in
  V2.save_config (JObj cfg') ;; ret cfg'.

End V2Main.

(** ** What the planner is expected to produce *)

(** The directory entries of [source], as [iterdir] yields them. *)
Definition children (w : world) (source : Path) : list Path :=
  map (λ n, MkPath (path_anchor source) (path_parts source ++ [n]))
      (listdir (files w) (resolve w source)).

(** The destination text of the rule that matches [file]: that of the first
    rule with the file's extension, else that of the "Others" fallback. *)
Definition matched_destination (file : Path) (cfg : config) : string :=
  match List.find (λ ci : string * catinfo,
                     bool_decide (lower (path_suffix file)
                                  ∈ map lower (extensions ci.2)))
                  (categories cfg) with
  | Some (_, info) => destination info
  | None => others_destination cfg
  end.

(** The planned destination the specification describes:
    target-root / category / base name, where the target root is the matched
    destination when that is a non-empty absolute path, and the source folder
    otherwise. *)
Definition claimed_dest (source item : Path) (cfg : config) : string :=
  let d := matched_destination item cfg in
  let target_root :=
    if bool_decide (d ≠ "") && is_absolute (path_of_str d) then path_of_str d
    else source in
  path_str (join_str (join_str target_root (categorize_file item cfg).1)
                     (path_name item)).

(** The entry v1 plans for [item] of [source]. *)
Definition V1_planned (source : Path) (cfg : config) (item : Path) : entry :=
  Entry (path_str item) (categorize_file item cfg).1 (claimed_dest source item cfg).

(** The entry v2 plans for [file]: the destination of the matched rule
    joined with the base name. *)
Definition V2_planned (cfg : config) (file : Path) : entry :=
  Entry (path_str file) (categorize_file file cfg).1
        (path_str (join_str (categorize_file file cfg).2 (path_name file))).

Definition regular_files (w : world) (source : Path) : list Path :=
  filter (λ item, is_file w item = true) (children w source).

(** v1's plan, source by source: a missing source is skipped, a source that
    is a regular file makes [iterdir] raise. *)
Fixpoint V1_plan (w : world) (cfg : config) (sources : list Path) (plan : list entry)
    : outcome (list entry) :=
  match sources with
  | [] => Ret plan
  | source :: rest =>
      match stat w source with
      | None => V1_plan w cfg rest plan
      | Some (File _) => Raise (NotADirectoryError (path_str source))
      | Some Dir =>
          V1_plan w cfg rest (plan ++ map (V1_planned source cfg) (regular_files w source))
      end
  end.

(** v2's plan: the regular files of the sources that are directories. *)
Definition V2_plan (w : world) (cfg : config) (sources : list Path) : list entry :=
  flat_map (λ folder, map (V2_planned cfg) (regular_files w folder))
           (filter (λ folder, is_dir w folder = true) sources).

(** Two worlds that differ at most in the text log. *)
Definition same_but_log (w w' : world) : Prop :=
  cwd w' = cwd w ∧ home w' = home w ∧ data_dir w' = data_dir w
  ∧ clock w' = clock w ∧ files w' = files w
  ∧ config_file w' = config_file w ∧ last_run_file w' = last_run_file w.

(** ** Example data *)

(** A world over the given entries, with the working directory [/home/u]. *)
Definition example_world (entries : list (list string * node)) (last : option run)
    : world :=
  World ["home"; "u"] (MkPath Root ["home"; "u"])
        (MkPath Root ["home"; "u"; ".local"; "share"; "FileOrganizer"])
        "2024-05-01T10:00:00+00:00"
        (list_to_map ([([], Dir); (["home"], Dir); (["home"; "u"], Dir); (["d"], Dir)]
                      ++ entries))
        None last [].

(** Scenario A: the folder [/d] holds [report.pdf]; [.pdf] goes to
    "Documents", which has no destination of its own. *)
Definition folder_A : Path := path_of_str "/d".
Definition world_A : world := example_world [(["d"; "report.pdf"], File "%PDF")] None.
Definition cfg_A : config := Config [("Documents", CatInfo [".pdf"] "")] "" "".

(** A file matches a rule when one of the rule's extensions equals the
    file's suffix, letter case aside. *)
Definition ext_matches (file : Path) (info : catinfo) : Prop :=
  ∃ e, e ∈ extensions info ∧ lower e = lower (path_suffix file).

(** [n] calls of [build] in a row: the outcomes and the world left. *)
Fixpoint repeat_calls {A} (build : M A) (n : nat) (w : world)
    : list (outcome A) * world :=
  match n with
  | 0 => ([], w)
  | S n' =>
      let '(r, w1) := build w in
      let '(rs, w2) := repeat_calls build n' w1 in
      (r :: rs, w2)
  end.

(** The same rule with a destination of its own. *)
Definition cfg_archive : config :=
  Config [("Documents", CatInfo [".pdf"] "/archive")] "" "".


(** Scenario C: [/d/Images/photo.png] is there before the batch and
    [/d/photo.png] is planned to the same place. *)
Definition world_C : world :=
  example_world [(["d"; "Images"], Dir); (["d"; "Images"; "photo.png"], File "old");
                 (["d"; "photo.png"], File "new")] None.
Definition entry_C : entry := Entry "/d/photo.png" "Images" "/d/Images/photo.png".

(** A folder with a file named like a category: [/d/notes] has no
    extension and goes to "Others"; [/d/x.txt] goes to the category "notes",
    that is to the folder [/d/notes]. *)
Definition world_N : world :=
  example_world [(["d"; "notes"], File "n"); (["d"; "x.txt"], File "x")] None.
Definition cfg_N : config := Config [("notes", CatInfo [".txt"] "")] "" "".
Definition plan_N : list entry :=
  [Entry "/d/notes" "Others" "/d/Others/notes";
   Entry "/d/x.txt" "notes" "/d/notes/x.txt"].

(** A last-run record of two moves out of [/d] and [/d/sub], met again when
    [/d/sub] has been replaced by a regular file. *)
Definition world_U : world :=
  example_world
    [(["d"; "Docs"], Dir); (["d"; "Docs"; "a.txt"], File "a");
     (["d"; "Docs"; "b.txt"], File "b"); (["d"; "sub"], File "not a folder any more")]
    (Some (Run "2024-04-30T09:00:00+00:00"
               [Move "/d/a.txt" "/d/Docs/a.txt"; Move "/d/sub/b.txt" "/d/Docs/b.txt"])).

(** A world whose configuration file is not JSON. *)
Definition world_G : world :=
  set_config_file (Some (Garbage "{ categories: ")) world_A.

(** ** Notions used in the statements *)

Definition no_slash (s : string) : Prop := has_char "/" s = false.

(** A path component as the parser leaves it. *)
Definition valid_part (x : string) : Prop := x ≠ "" ∧ x ≠ "." ∧ no_slash x.

(** A path as [Path(...)] and [/] build it. *)
Definition wf_path (p : Path) : Prop := Forall valid_part (path_parts p).

(** The name [f"{stem}_{counter}{suffix}"] of a candidate. *)
Definition candidate_name (dest : Path) (k : nat) : string :=
  path_stem dest +:+ "_" +:+ decimal k +:+ path_suffix dest.

(** [G] is [F] with some more directories. *)
Definition extends (F G : gmap (list string) node) : Prop :=
  ∀ k, G !! k = F !! k ∨ (F !! k = None ∧ G !! k = Some Dir).

(** The root is a directory and whatever exists lies in a directory. *)
Definition wf_fs (F : gmap (list string) node) : Prop :=
  F !! [] = Some Dir ∧ ∀ k x, is_Some (F !! (k ++ [x])) → F !! k = Some Dir.

Definition wf_world (w : world) : Prop :=
  wf_fs (files w) ∧ files w !! cwd w = Some Dir.

(** Directories stay directories. *)
Definition dirs_persist (F G : gmap (list string) node) : Prop :=
  ∀ k, F !! k = Some Dir → G !! k = Some Dir.

(** The fields a batch never writes. *)
Definition same_env (w w' : world) : Prop :=
  cwd w' = cwd w ∧ home w' = home w ∧ data_dir w' = data_dir w
  ∧ clock w' = clock w ∧ config_file w' = config_file w.

(** What the body of the loop of [perform_moves] does to an entry with
    source [src], in either variant: [mkdir] raises and nothing changed; or
    [mkdir] left [G] and then the move failed, or it renamed a regular file,
    or it renamed a directory. *)
Definition step_spec (w : world) (src : Path) (acc : list move)
    (r : outcome (list move)) (w' : world) : Prop :=
  (∃ ex, r = Raise ex ∧ w' = w)
  ∨ ∃ G, extends (files w) G
         ∧ (wf_fs (files w) → wf_fs G)
         ∧ same_env w w' ∧ last_run_file w' = last_run_file w
         ∧ ((r = Ret acc ∧ files w' = G)
            ∨ (∃ safe c,
                  r = Ret (acc ++ [Move (path_str src) (path_str safe)])
                  ∧ wf_path safe
                  ∧ G !! resolve w src = Some (File c)
                  ∧ G !! resolve w safe = None
                  ∧ G !! removelast (resolve w safe) = Some Dir
                  ∧ files w' = <[resolve w safe := File c]> (delete (resolve w src) G))
            ∨ (∃ safe,
                  r = Ret (acc ++ [Move (path_str src) (path_str safe)])
                  ∧ wf_path safe
                  ∧ G !! resolve w src = Some Dir
                  ∧ files w' !! resolve w safe = Some Dir
                  ∧ (wf_fs (files w) → ∀ k n, G !! k = Some n →
                       drop_prefix (resolve w src) k = None → files w' !! k = Some n))).

(** What undoing one move does when the file is where the batch put it and
    its original place is free. *)
Definition undo_step_spec (undo_move : move → list string → M (list string)) : Prop :=
  ∀ src dst fl u c,
    wf_path src → wf_path dst → path_parts src ≠ [] →
    wf_fs (files u) →
    files u !! resolve u src = None →
    files u !! resolve u dst = Some (File c) →
    files u !! removelast (resolve u src) = Some Dir →
    ∃ u', undo_move (Move (path_str src) (path_str dst)) fl u = (Ret fl, u')
          ∧ files u' = <[resolve u src := File c]> (delete (resolve u dst) (files u))
          ∧ same_env u u' ∧ last_run_file u' = last_run_file u.



(** A move keeps whatever is not the source or below it. *)
Definition move_keeps_others (move_entry : entry → list move → M (list move)) : Prop :=
  ∀ e acc w r w' k n,
    wf_fs (files w) →
    move_entry e acc w = (r, w') →
    files w !! k = Some n →
    drop_prefix (resolve w (path_of_str (e_src e))) k = None →
    files w' !! k = Some n.

(** The round trip, for a plan whose entries name pairwise distinct regular
    files of a well-formed file system and of which at least one move is
    recorded, when after the batch no record's original path is a
    directory. *)
Definition round_trip_law (perform_moves : list entry → M (list move))
    (undo_last_run : M (bool * string)) : Prop :=
  ∀ plan w performed w1,
    wf_world w →
    NoDup (map (λ e, resolve w (path_of_str (e_src e))) plan) →
    Forall (λ e, is_file w (path_of_str (e_src e)) = true) plan →
    perform_moves plan w = (Ret performed, w1) →
    performed ≠ [] →
    Forall (λ r, is_dir w1 (path_of_str (mv_src r)) = false) performed →
    ∃ w2 w3,
      undo_last_run w1
      = (Ret (true, "Undid " +:+ decimal (length performed) +:+ " moves."), w2)
      ∧ extends (files w) (files w2)
      ∧ (∀ k c, files w2 !! k = Some (File c) ↔ files w !! k = Some (File c))
      ∧ undo_last_run w2 = (Ret (false, "No last run recorded."), w3).

(** The text v2 records for a reversal that failed. *)
Definition failure_line (mv : move) (ex : exn) : string :=
  path_str (path_of_str (mv_dest mv)) +:+ " -> " +:+ path_str (path_of_str (mv_src mv))
  +:+ ": " +:+ exn_str ex.


(** [s.endswith(".")] *)
Fixpoint ends_with_dot (s : string) : bool :=
  match s with
  | EmptyString => false
  | String c EmptyString => Ascii.eqb c "."
  | String _ r => ends_with_dot r
  end.

(** [source / n] for a name [n] that [iterdir] yields *)
Definition child (source : Path) (n : string) : Path :=
  MkPath (path_anchor source) (path_parts source ++ [n]).

Global Instance valid_part_dec x : Decision (valid_part x).
Proof. unfold valid_part, no_slash. apply _. Defined.

(** Every name in the file system is a path component. *)
Definition wf_names (F : gmap (list string) node) : Prop :=
  ∀ k, is_Some (F !! k) → Forall valid_part k.

(** A plan as a concatenation: for each source that is a directory, in
    order, one entry for each of its regular files. *)
Definition plan_by (w : world) (planned : Path → Path → entry) (sources : list Path)
    : list entry :=
  flat_map (λ source, map (planned source) (regular_files w source))
           (filter (λ source, is_dir w source = true) sources).

(** The regular files of [F] are the regular files of [F'], at places that
    may differ: [f] sends each file of [F] to the place of [F'] that holds
    its content, no two files to the same place, and [F'] has no other
    regular file. *)
Definition relocated (F F' : gmap (list string) node) : Prop :=
  ∃ f : list string → list string,
    (∀ k c, F !! k = Some (File c) → F' !! f k = Some (File c))
    ∧ (∀ k1 k2 c1 c2, F !! k1 = Some (File c1) → F !! k2 = Some (File c2) →
                       f k1 = f k2 → k1 = k2)
    ∧ (∀ k' c, F' !! k' = Some (File c) → ∃ k, F !! k = Some (File c) ∧ f k = k').

(** Where [move_tree s d] puts the key [k]. *)
Definition reroot (s d k : list string) : list string :=
  match drop_prefix s k with Some r => d ++ r | None => k end.

(** A loop body that keeps the file system well-formed and only relocates
    its regular files. *)
Definition step_relocates {A B} (body : A → B → M B) : Prop :=
  ∀ x acc w r w', body x acc w = (r, w') → wf_fs (files w) →
                  wf_fs (files w') ∧ relocated (files w) (files w').

(** The folder [perform_moves] makes for an entry, [dest.parent]. *)
Definition dest_dir (e : entry) : Path :=
  path_parent (path_of_str (e_planned_dest e)).

(** Rules as the editor stores them: name, extensions, destination. *)
Definition rule : Type := string * (list string * string).

Definition rules_json (rules : list rule) : list (string * json) :=
  map (λ r : rule, (r.1, V2Main.rule_json r.2.1 r.2.2)) rules.

Definition no_comma (s : string) : Prop := has_char "," s = false.

(** Rules in the form [ConfigEditor.save] leaves: distinct names that are
    not empty, no text with white space around it, no empty extension and
    no comma in an extension. *)
Definition clean_rules (rules : list rule) : Prop :=
  NoDup (map fst rules)
  ∧ Forall (λ r : rule,
              r.1 ≠ "" ∧ strip r.1 = r.1
              ∧ Forall (λ e, e ≠ "" ∧ strip e = e ∧ no_comma e) r.2.1
              ∧ strip r.2.2 = r.2.2) rules.

Global Instance clean_rules_dec rules : Decision (clean_rules rules).
Proof. unfold clean_rules, no_comma. apply _. Defined.

(** The rows of [table] whose index, counted from [i], is not selected. *)
Fixpoint unselected_from {A} (i : nat) (selected : gset nat) (table : list A) : list A :=
  match table with
  | [] => []
  | x :: rest =>
      if bool_decide (i ∈ selected) then unselected_from (S i) selected rest
      else x :: unselected_from (S i) selected rest
  end.

(** The rules of v2's built-in configuration. *)
Definition default_rules : list rule :=
  [("Images", ([".jpg"; ".jpeg"; ".png"], ""));
   ("Videos", ([".mp4"; ".mkv"], ""));
   ("Documents", ([".pdf"; ".docx"; ".txt"], ""))].

(** A batch whose second entry is planned below the place the first one
    takes. *)
Definition world_R : world :=
  example_world [(["d"; "report.pdf"], File "%PDF"); (["d"; "other.txt"], File "o")] None.
Definition plan_R : list entry :=
  [Entry "/d/report.pdf" "Documents" "/d/Documents/report.pdf";
   Entry "/d/other.txt" "T" "/d/Documents/report.pdf/T/other.txt"].

(** Scenario C after the batch of v1. *)
Definition world_C1 : world := (V1.perform_moves [entry_C] world_C).2.

(** The dict of v2's built-in configuration. *)
Definition default_dict : list (string * json) :=
  match V2.DEFAULT_CONFIG with JObj d => d | _ => [] end.

(** The path that [dest_dir / src.name] is in v1's [perform_moves]. *)
Definition V1_dest (e : entry) : Path :=
  join_str (path_parent (path_of_str (e_planned_dest e)))
           (path_name (path_of_str (e_src e))).

(** The path [Path(entry["planned_dest"])] of v2's [perform_moves]. *)
Definition V2_dest (e : entry) : Path := path_of_str (e_planned_dest e).

(** The record [r] names [dest], or [dest] with a counter before the
    suffix, in the folder of [dest]. *)
Definition lands_at (dest : Path) (r : move) : Prop :=
  ∃ safe, mv_dest r = path_str safe
          ∧ path_parent safe = path_parent dest
          ∧ (safe = dest ∨ ∃ k, 1 ≤ k ∧ path_name safe = candidate_name dest k).

(** The destination texts of a configuration: that of the fallback and
    those of the rules. *)
Definition destinations (cfg : config) : list string :=
  others_destination cfg
  :: map (λ ci : string * catinfo, destination ci.2) (categories cfg).

(** A folder that is the working directory, holding [a.pdf]. *)
Definition world_H : world := example_world [(["home"; "u"; "a.pdf"], File "a")] None.

(** * Properties *)

(** ** Strings and paths *)

Lemma string_app_cons x (a b : string) : String x a +:+ b = String x (a +:+ b).
Proof. reflexivity. Qed.

Lemma string_app_nil_l (b : string) : "" +:+ b = b.
Proof. reflexivity. Qed.

Lemma has_char_app c a b : has_char c (a +:+ b) = has_char c a || has_char c b.
Proof.
  induction a as [|x a IH]; [done|]. rewrite string_app_cons. simpl.
  destruct (Ascii.eqb x c); [done|apply IH].
Qed.

Lemma no_slash_app a b : no_slash (a +:+ b) ↔ no_slash a ∧ no_slash b.
Proof. unfold no_slash. rewrite has_char_app, orb_false_iff. done. Qed.

Lemma string_app_nil_r (a : string) : a +:+ "" = a.
Proof. induction a as [|x a IH]; [done|]. by rewrite string_app_cons, IH. Qed.

Lemma string_app_assoc (a b c : string) : (a +:+ b) +:+ c = a +:+ b +:+ c.
Proof. induction a as [|x a IH]; [done|]. by rewrite !string_app_cons, IH. Qed.

Lemma string_app_length (a b : string) :
  String.length (a +:+ b) = String.length a + String.length b.
Proof. induction a as [|x a IH]; [done|]. rewrite string_app_cons. simpl. by rewrite IH. Qed.

Lemma string_app_inv_tail (a b c : string) : a +:+ c = b +:+ c → a = b.
Proof.
  revert b. induction a as [|x a IH]; intros [|y b] H;
    rewrite ?string_app_cons, ?string_app_nil_l in H.
  - done.
  - apply (f_equal String.length) in H. simpl in H.
    rewrite string_app_length in H. lia.
  - apply (f_equal String.length) in H. simpl in H.
    rewrite string_app_length in H. lia.
  - injection H as -> H. f_equal. by apply IH.
Qed.

Lemma split_slash_cons s : ∃ h t, split_slash s = h :: t.
Proof.
  induction s as [|c s [h [t IH]]]; simpl; [by eauto|].
  destruct (Ascii.eqb c "/"); [by eauto|]. rewrite IH. by eauto.
Qed.

Lemma split_slash_no_slash s : no_slash s → split_slash s = [s].
Proof.
  unfold no_slash. induction s as [|c s IH]; simpl; [done|].
  destruct (Ascii.eqb c "/"); [done|]. intros H. by rewrite IH.
Qed.

Lemma split_slash_app a b :
  no_slash a → split_slash (a +:+ String "/" b) = a :: split_slash b.
Proof.
  unfold no_slash. induction a as [|c a IH]; [done|].
  rewrite string_app_cons. simpl.
  destruct (Ascii.eqb c "/"); [done|]. intros H. by rewrite IH.
Qed.

Lemma split_slash_parts s : Forall no_slash (split_slash s).
Proof.
  induction s as [|c s IH]; simpl; [by repeat constructor|].
  destruct (Ascii.eqb c "/") eqn:E.
  - by constructor.
  - destruct (split_slash s) as [|h t]; [by repeat constructor; unfold no_slash; simpl; rewrite E|].
    inversion IH; subst. constructor; [|done].
    unfold no_slash in *. simpl. by rewrite E.
Qed.

Lemma split_join l :
  Forall valid_part l → l ≠ [] → split_slash (join_slash l) = l.
Proof.
  induction l as [|x l IH]; [done|]. intros Hl _.
  inversion Hl as [|? ? [_ [_ Hx]] Hl']; subst.
  destruct l as [|y l].
  - simpl. by apply split_slash_no_slash.
  - change (join_slash (x :: y :: l)) with (x +:+ String "/" (join_slash (y :: l))).
    rewrite split_slash_app by done. f_equal. by apply IH.
Qed.

Lemma filter_valid_parts (l : list string) :
  Forall valid_part l → filter (λ x, x ≠ "" ∧ x ≠ ".") l = l.
Proof.
  induction 1 as [|x l [H1 [H2 _]] _ IH]; [done|].
  rewrite filter_cons_True by done. by rewrite IH.
Qed.

Lemma path_of_str_wf s : wf_path (path_of_str s).
Proof.
  unfold wf_path, path_of_str. simpl.
  apply Forall_forall. intros x [[H1 H2] Hin]%list_elem_of_filter.
  split; [done|]. split; [done|].
  by eapply (proj1 (Forall_forall _ _) (split_slash_parts s)).
Qed.

Lemma valid_part_first x : valid_part x → ∃ c r, x = String c r ∧ c ≠ "/"%char.
Proof.
  intros [H1 [_ H3]]. destruct x as [|c r]; [done|]. exists c, r. split; [done|].
  unfold no_slash in H3. simpl in H3. intros ->. by rewrite Ascii.eqb_refl in H3.
Qed.

Lemma join_slash_first x l :
  valid_part x → ∃ c r, join_slash (x :: l) = String c r ∧ c ≠ "/"%char.
Proof.
  intros (c & r & -> & Hc)%valid_part_first.
  destruct l; simpl; eauto.
Qed.

Lemma parse_anchor_first c r :
  c ≠ "/"%char →
  parse_anchor (String c r) = Relative
  ∧ parse_anchor (String "/" (String c r)) = Root
  ∧ parse_anchor (String "/" (String "/" (String c r))) = DoubleRoot.
Proof.
  intros Hc.
  destruct c as [[] [] [] [] [] [] [] []];
    first [by repeat split | by destruct Hc].
Qed.

(** Parsing the text of a path gives the path back. *)
Lemma path_of_str_str p : wf_path p → path_of_str (path_str p) = p.
Proof.
  destruct p as [a l]. unfold wf_path. simpl. intros Hl.
  destruct l as [|x l]; [by destruct a|].
  assert (Hsplit : split_slash (join_slash (x :: l)) = x :: l) by by apply split_join.
  inversion Hl as [|? ? Hx Hl']; subst.
  destruct (join_slash_first x l Hx) as (c & r & Hj & Hc).
  destruct (parse_anchor_first c r Hc) as (A1 & A2 & A3).
  assert (f_ok : filter (λ x, x ≠ "" ∧ x ≠ ".") (x :: l) = x :: l)
    by by apply filter_valid_parts.
  assert (Hstr : path_str (MkPath a (x :: l)) = anchor_str a +:+ join_slash (x :: l))
    by by destruct a.
  rewrite Hstr. unfold path_of_str.
  remember (join_slash (x :: l)) as j eqn:Ej.
  destruct a; unfold anchor_str; rewrite ?string_app_cons, ?string_app_nil_l.
  - rewrite Hsplit, f_ok. f_equal. by rewrite Hj.
  - change (split_slash (String "/" j)) with ("" :: split_slash j).
    rewrite Hsplit, filter_cons_False by (intros [E _]; by apply E). rewrite f_ok. f_equal.
    by rewrite Hj.
  - change (split_slash (String "/" (String "/" j))) with ("" :: "" :: split_slash j).
    rewrite Hsplit, !filter_cons_False by (intros [E _]; by apply E). rewrite f_ok. f_equal.
    by rewrite Hj.
Qed.

Lemma path_of_str_part n : valid_part n → path_of_str n = MkPath Relative [n].
Proof.
  intros Hn. destruct (valid_part_first n Hn) as (c & r & -> & Hc).
  destruct (parse_anchor_first c r Hc) as (A1 & _ & _).
  unfold path_of_str. rewrite A1, split_slash_no_slash by apply Hn.
  by rewrite filter_valid_parts by by constructor.
Qed.

Lemma join_str_part p n :
  valid_part n → join_str p n = MkPath (path_anchor p) (path_parts p ++ [n]).
Proof. intros Hn. unfold join_str. by rewrite path_of_str_part. Qed.

Lemma joinpath_wf p q : wf_path p → wf_path q → wf_path (joinpath p q).
Proof.
  unfold joinpath, wf_path. intros Hp Hq.
  destruct (is_absolute q); [done|]. simpl. by apply Forall_app.
Qed.

Lemma join_str_wf p s : wf_path p → wf_path (join_str p s).
Proof. intros Hp. apply joinpath_wf; [done|apply path_of_str_wf]. Qed.

Lemma Forall_removelast {A} (P : A → Prop) (l : list A) :
  Forall P l → Forall P (removelast l).
Proof.
  induction 1 as [|x l Hx Hl IH]; [done|]. simpl.
  destruct l; [done|]. by constructor.
Qed.

Lemma path_parent_wf p : wf_path p → wf_path (path_parent p).
Proof. apply Forall_removelast. Qed.

Lemma last_app_one {A} (l : list A) (x d : A) : List.last (l ++ [x]) d = x.
Proof. apply List.last_last. Qed.

Lemma removelast_app_one {A} (l : list A) (x : A) : removelast (l ++ [x]) = l.
Proof. apply List.removelast_last. Qed.

Lemma snoc_removelast_last {A} (l : list A) (d : A) :
  l ≠ [] → removelast l ++ [List.last l d] = l.
Proof. intros H. symmetry. by apply List.app_removelast_last. Qed.

Lemma Forall_last {A} (P : A → Prop) (l : list A) (d : A) :
  Forall P l → l ≠ [] → P (List.last l d).
Proof.
  intros Hl Hne. rewrite <- (snoc_removelast_last l d Hne) in Hl.
  apply Forall_app in Hl as [_ Hl]. by inversion Hl.
Qed.

Lemma path_name_valid p :
  wf_path p → path_parts p ≠ [] → valid_part (path_name p).
Proof. intros Hp Hne. unfold path_name. by apply Forall_last. Qed.

Lemma path_name_no_slash p : wf_path p → no_slash (path_name p).
Proof.
  intros Hp. destruct (decide (path_parts p = [])) as [E|E].
  - unfold path_name. by rewrite E.
  - by apply path_name_valid.
Qed.

Lemma rsplit_dot_app s :
  match rsplit_dot s with
  | (pre, Some suf) => s = pre +:+ suf
  | (pre, None) => s = pre
  end.
Proof.
  induction s as [|c s IH]; [done|]. simpl.
  destruct (rsplit_dot s) as [pre [suf|]].
  - by rewrite string_app_cons, <- IH.
  - destruct (Ascii.eqb c "."); [done|]. by rewrite <- IH.
Qed.

(** The name is the stem followed by the suffix. *)
Lemma stem_suffix p : path_stem p +:+ path_suffix p = path_name p.
Proof.
  unfold path_stem, path_suffix.
  pose proof (rsplit_dot_app (path_name p)) as H.
  destruct (rsplit_dot (path_name p)) as [pre [suf|]].
  - case_bool_decide; [done|apply string_app_nil_r].
  - apply string_app_nil_r.
Qed.

Lemma stem_suffix_no_slash p :
  wf_path p → no_slash (path_stem p) ∧ no_slash (path_suffix p).
Proof.
  intros Hp. apply no_slash_app. rewrite stem_suffix. by apply path_name_no_slash.
Qed.

Lemma string_of_uint_no_slash d : no_slash (NilEmpty.string_of_uint d).
Proof. unfold no_slash. induction d; simpl; done. Qed.

Lemma decimal_no_slash n : no_slash (decimal n).
Proof. apply string_of_uint_no_slash. Qed.

Lemma decimal_inj j k : decimal j = decimal k → j = k.
Proof.
  unfold decimal. intros H. apply Unsigned.to_uint_inj.
  pose proof (NilEmpty.usu (Nat.to_uint j)) as Hj.
  pose proof (NilEmpty.usu (Nat.to_uint k)) as Hk.
  rewrite H in Hj. congruence.
Qed.

Lemma candidate_name_valid dest k : wf_path dest → valid_part (candidate_name dest k).
Proof.
  intros Hd. destruct (stem_suffix_no_slash dest Hd) as [H1 H2].
  assert (Hu : has_char "_" (candidate_name dest k) = true).
  { unfold candidate_name. rewrite has_char_app.
    change ("_" +:+ decimal k +:+ path_suffix dest)
      with (String "_" (decimal k +:+ path_suffix dest)).
    simpl. apply orb_true_r. }
  split; [by intros E; rewrite E in Hu|].
  split; [by intros E; rewrite E in Hu|].
  unfold candidate_name. apply no_slash_app. split; [done|].
  apply no_slash_app. split; [done|].
  apply no_slash_app. split; [apply decimal_no_slash|done].
Qed.

Lemma candidate_name_inj dest j k :
  candidate_name dest j = candidate_name dest k → j = k.
Proof.
  unfold candidate_name. intros H.
  apply (inj (String.app _)) in H. apply (inj (String.app _)) in H.
  apply string_app_inv_tail in H. by apply decimal_inj.
Qed.

Lemma candidate_parts dest k :
  wf_path dest →
  candidate dest k
  = MkPath (path_anchor dest) (removelast (path_parts dest) ++ [candidate_name dest k]).
Proof.
  intros Hd. unfold candidate. fold (candidate_name dest k).
  by rewrite join_str_part by by apply candidate_name_valid.
Qed.

Lemma candidate_wf dest k : wf_path dest → wf_path (candidate dest k).
Proof. intros Hd. apply join_str_wf. by apply path_parent_wf. Qed.

Lemma resolve_snoc w a l n :
  resolve w (MkPath a (l ++ [n])) = resolve w (MkPath a l) ++ [n].
Proof. unfold resolve. simpl. destruct a; [by rewrite app_assoc|done..]. Qed.

Lemma resolve_candidate w dest k :
  wf_path dest →
  resolve w (candidate dest k) = resolve w (path_parent dest) ++ [candidate_name dest k].
Proof. intros Hd. rewrite candidate_parts by done. apply resolve_snoc. Qed.

Lemma resolve_candidate_inj w dest j k :
  wf_path dest → resolve w (candidate dest j) = resolve w (candidate dest k) → j = k.
Proof.
  intros Hd. rewrite !resolve_candidate by done.
  intros H%app_inj_tail. destruct H as [_ H]. by apply candidate_name_inj in H.
Qed.

Lemma path_str_nonempty p : wf_path p → path_str p ≠ "".
Proof.
  destruct p as [a [|x l]]; unfold wf_path; simpl; intros Hp.
  - by destruct a.
  - inversion Hp as [|? ? Hx _]; subst.
    destruct (join_slash_first x l Hx) as (c & r & Hj & _).
    assert (Hstr : path_str (MkPath a (x :: l)) = anchor_str a +:+ join_slash (x :: l))
      by by destruct a.
    rewrite Hstr, Hj. by destruct a.
Qed.

Example path_parse_ex :
  path_of_str "/home//u/./docs/report.pdf"
  = MkPath Root ["home"; "u"; "docs"; "report.pdf"].
Proof. vm_compute. reflexivity. Qed.

Example path_suffix_ex :
  map (λ s, (path_stem (path_of_str s), path_suffix (path_of_str s)))
      ["a/report.PDF"; "x.tar.gz"; ".bashrc"; "trail."; "noext"; "/"]
  = [("report", ".PDF"); ("x.tar", ".gz"); (".bashrc", ""); ("trail.", "");
     ("noext", ""); ("", "")].
Proof. vm_compute. reflexivity. Qed.

Example path_str_ex :
  map (λ s, path_str (path_of_str s)) [""; "."; "/"; "//a/"; "///a"; "a/./b"; "../x"]
  = ["."; "."; "/"; "//a"; "/a"; "a/b"; "../x"].
Proof. vm_compute. reflexivity. Qed.

Example lower_ex : lower ".PdF" = ".pdf" ∧ lower "a_B-9.TXT" = "a_b-9.txt".
Proof. by vm_compute. Qed.

(** ** [_unique_dest] *)

Lemma unique_loop_spec w dest rounds counter :
  (∃ k, counter ≤ k < counter + rounds ∧ path_exists w (candidate dest k) = false) →
  ∃ k, counter ≤ k
       ∧ unique_loop w dest rounds counter = candidate dest k
       ∧ path_exists w (candidate dest k) = false
       ∧ ∀ j, counter ≤ j < k → path_exists w (candidate dest j) = true.
Proof.
  revert counter. induction rounds as [|rounds IH]; intros counter (k & Hk & Hfree).
  - lia.
  - simpl. destruct (path_exists w (candidate dest counter)) eqn:E; simpl.
    + destruct (IH (S counter)) as (k' & Hk' & Heq & Hfree' & Hmin).
      { exists k. split; [|done]. destruct (decide (k = counter)) as [->|]; [congruence|lia]. }
      exists k'. split; [lia|]. split; [done|]. split; [done|].
      intros j Hj. destruct (decide (j = counter)) as [->|]; [done|]. apply Hmin. lia.
    + exists counter. split; [lia|]. split; [done|]. split; [done|]. intros j Hj. lia.
Qed.

(** Among any [size + 1] candidates one is free: the candidates are pairwise
    distinct and the file system has only [size] entries. *)
Lemma candidate_free_exists w dest :
  wf_path dest →
  ∃ k, 1 ≤ k < 1 + S (size (files w)) ∧ path_exists w (candidate dest k) = false.
Proof.
  intros Hd. set (n := size (files w)).
  destruct (decide (Exists (λ k, path_exists w (candidate dest k) = false) (seq 1 (S n))))
    as [Hex|Hall].
  - apply Exists_exists in Hex as (k & Hin & Hk). apply elem_of_seq in Hin.
    exists k. split; [lia|done].
  - exfalso. apply not_Exists_Forall in Hall; [|intros; apply _].
    set (keys := (λ k, resolve w (candidate dest k)) <$> seq 1 (S n)).
    assert (Hnd : NoDup keys).
    { apply NoDup_fmap_2_strong; [|apply NoDup_seq].
      intros j k _ _ E. by apply (resolve_candidate_inj w dest). }
    assert (Hsub : list_to_set (C := gset (list string)) keys ⊆ dom (files w)).
    { intros key Hkey. apply elem_of_list_to_set in Hkey.
      apply list_elem_of_fmap in Hkey as (k & -> & Hin).
      rewrite Forall_forall in Hall. specialize (Hall k Hin). simpl in Hall.
      apply elem_of_dom. unfold path_exists, stat in Hall.
      destruct (files w !! resolve w (candidate dest k)); [by eauto|].
      exfalso. apply Hall. apply bool_decide_eq_false. by intros [? ?]. }
    apply subseteq_size in Hsub.
    rewrite size_list_to_set, size_dom in Hsub by done.
    unfold keys in Hsub. rewrite length_fmap, length_seq in Hsub. lia.
Qed.

(** [_unique_dest] returns a path that does not exist: the destination
    itself, or the candidate with the least counter that is free. *)
Lemma unique_dest_spec w dest :
  wf_path dest →
  (path_exists w dest = false ∧ _unique_dest w dest = dest)
  ∨ (path_exists w dest = true
     ∧ ∃ k, 1 ≤ k
            ∧ _unique_dest w dest = candidate dest k
            ∧ path_exists w (candidate dest k) = false
            ∧ ∀ j, 1 ≤ j < k → path_exists w (candidate dest j) = true).
Proof.
  intros Hd. unfold _unique_dest.
  destruct (path_exists w dest) eqn:E; cbn [negb]; [right|by left].
  split; [done|]. apply unique_loop_spec. by apply candidate_free_exists.
Qed.

Lemma unique_dest_fresh w dest :
  wf_path dest → path_exists w (_unique_dest w dest) = false.
Proof.
  intros Hd. destruct (unique_dest_spec w dest Hd) as [[E ->]|[_ (k & _ & -> & E & _)]]; done.
Qed.

Lemma unique_dest_wf w dest : wf_path dest → wf_path (_unique_dest w dest).
Proof.
  intros Hd. destruct (unique_dest_spec w dest Hd) as [[E ->]|[_ (k & _ & -> & E & _)]];
    [done|by apply candidate_wf].
Qed.

(** ** The file system *)

Lemma extends_refl F : extends F F.
Proof. intros k. by left. Qed.

Lemma extends_trans F G H : extends F G → extends G H → extends F H.
Proof.
  intros H1 H2 k. destruct (H1 k) as [E1|[E1 E1']], (H2 k) as [E2|[E2 E2']].
  - left. congruence.
  - right. split; congruence.
  - right. split; congruence.
  - congruence.
Qed.

Lemma extends_Some F G k n : extends F G → F !! k = Some n → G !! k = Some n.
Proof. intros H E. destruct (H k) as [E'|[E' _]]; congruence. Qed.

Lemma extends_files (F G : gmap (list string) node) k c :
  extends F G → G !! k = Some (File c) ↔ F !! k = Some (File c).
Proof.
  intros H. split; [|by apply extends_Some].
  intros E. destruct (H k) as [E'|[_ E']]; congruence.
Qed.

Lemma extends_dirs_persist F G : extends F G → dirs_persist F G.
Proof. intros H k E. by eapply extends_Some. Qed.

Lemma dirs_persist_trans F G H : dirs_persist F G → dirs_persist G H → dirs_persist F H.
Proof. intros H1 H2 k E. by apply H2, H1. Qed.

Lemma wf_fs_prefix F k p :
  wf_fs F → is_Some (F !! (p ++ k)) → k ≠ [] → F !! p = Some Dir.
Proof.
  intros [_ Hwf]. revert p. induction k as [|x k IH] using rev_ind; [done|].
  intros p Hk _. rewrite app_assoc in Hk. apply Hwf in Hk.
  destruct (decide (k = [])) as [->|Hne].
  - by rewrite app_nil_r in Hk.
  - apply IH; [by rewrite Hk|done].
Qed.

Lemma drop_prefix_Some pre k r : drop_prefix pre k = Some r ↔ k = pre ++ r.
Proof.
  revert k. induction pre as [|a pre IH]; intros k; simpl.
  - split; congruence.
  - destruct k as [|b k]; [done|]. destruct (decide (a = b)) as [->|Hne].
    + rewrite IH. split; congruence.
    + split; [done|]. intros [=]. done.
Qed.

Lemma drop_prefix_self k : drop_prefix k k = Some [].
Proof. apply drop_prefix_Some. by rewrite app_nil_r. Qed.

(** What [mkdir_from] leaves: the old entries, and directories at the
    prefixes of the target that were missing. *)
Lemma mkdir_from_spec name rest : ∀ base F G,
  mkdir_from name F base rest = inr G →
  G !! (base ++ rest) = Some Dir
  ∧ ∀ k, G !! k = F !! k
         ∨ (F !! k = None ∧ G !! k = Some Dir
            ∧ ∃ i, i ≤ length rest ∧ k = base ++ take i rest).
Proof.
  induction rest as [|c rest IH]; intros base F G; simpl.
  - rewrite app_nil_r. destruct (F !! base) as [[|]|] eqn:E; intros [= <-].
    + split; [done|]. intros k. by left.
    + split; [apply lookup_insert_eq|]. intros k.
      destruct (decide (k = base)) as [->|Hne].
      * right. rewrite lookup_insert_eq. split; [done|]. split; [done|].
        exists 0. by rewrite app_nil_r.
      * left. by rewrite lookup_insert_ne.
  - intros H.
    assert (∃ F', mkdir_from name F' (base ++ [c]) rest = inr G
                  ∧ ∀ k, F' !! k = F !! k ∨ (F !! k = None ∧ F' !! k = Some Dir ∧ k = base))
      as (F' & HF' & Hstep).
    { destruct (F !! base) as [[|]|] eqn:E; [done| |].
      - exists F. split; [done|]. intros k. by left.
      - exists (<[base := Dir]> F). split; [done|]. intros k.
        destruct (decide (k = base)) as [->|Hne].
        + right. by rewrite lookup_insert_eq.
        + left. by rewrite lookup_insert_ne. }
    destruct (IH _ _ _ HF') as [Htarget Hrest]. rewrite <- app_assoc in Htarget.
    split; [done|]. intros k.
    destruct (Hrest k) as [E1|(E1 & E1' & i & Hi & Ek)], (Hstep k) as [E2|(E2 & E2' & E2'')].
    + left. congruence.
    + right. split; [done|]. split; [congruence|]. exists 0. simpl.
      split; [lia|]. by rewrite app_nil_r.
    + right. split; [congruence|]. split; [done|]. exists (S i). simpl.
      split; [lia|]. by rewrite Ek, <- app_assoc.
    + congruence.
Qed.

Lemma mkdir_from_extends name F G k :
  mkdir_from name F [] k = inr G → extends F G.
Proof.
  intros H k'. destruct (mkdir_from_spec _ _ _ _ _ H) as [_ Hk].
  destruct (Hk k') as [E|(E & E' & _)]; [by left|by right].
Qed.

Lemma mkdir_from_wf name rest : ∀ base F G,
  wf_fs F → (∀ b x, base = b ++ [x] → F !! b = Some Dir) →
  mkdir_from name F base rest = inr G → wf_fs G.
Proof.
  induction rest as [|c rest IH]; intros base F G HF Hbase H; simpl in H.
  - destruct (F !! base) as [[|]|] eqn:E; simplify_eq; [done|].
    destruct HF as [Hroot Hpar]. split.
    + destruct (decide (base = [])) as [->|Hne]; [apply lookup_insert_eq|].
      by rewrite lookup_insert_ne.
    + intros k x Hk. destruct (decide (base = k ++ [x])) as [->|Hne].
      * rewrite lookup_insert_ne by (intros E'; by apply (f_equal length) in E';
          rewrite length_app in E'; simpl in E'; lia).
        by eapply Hbase.
      * rewrite lookup_insert_ne in Hk by done. apply Hpar in Hk.
        rewrite lookup_insert_ne by congruence. done.
  - assert (∃ F', mkdir_from name F' (base ++ [c]) rest = inr G
                  ∧ wf_fs F' ∧ F' !! base = Some Dir) as (F' & HF' & Hwf & HB).
    { destruct (F !! base) as [[|]|] eqn:E; [done| |].
      - by exists F.
      - exists (<[base := Dir]> F). split; [done|]. split; [|apply lookup_insert_eq].
        destruct HF as [Hroot Hpar]. split.
        + destruct (decide (base = [])) as [->|Hne]; [apply lookup_insert_eq|].
          by rewrite lookup_insert_ne.
        + intros k x Hk. destruct (decide (base = k ++ [x])) as [->|Hne].
          * rewrite lookup_insert_ne by (intros E'; by apply (f_equal length) in E';
              rewrite length_app in E'; simpl in E'; lia).
            by eapply Hbase.
          * rewrite lookup_insert_ne in Hk by done. apply Hpar in Hk.
            rewrite lookup_insert_ne by congruence. done. }
    eapply IH; [exact Hwf| |exact HF'].
    intros b x Hb. apply app_inj_tail in Hb as [<- _]. done.
Qed.

Lemma mkdir_from_noop name rest : ∀ base F,
  (∀ i, i ≤ length rest → F !! (base ++ take i rest) = Some Dir) →
  mkdir_from name F base rest = inr F.
Proof.
  induction rest as [|c rest IH]; intros base F H; simpl.
  - specialize (H 0). simpl in H. rewrite app_nil_r in H. by rewrite H.
  - pose proof (H 0) as H0. simpl in H0. rewrite app_nil_r in H0. rewrite H0 by lia.
    apply IH. intros i Hi. specialize (H (S i)). simpl in H.
    rewrite <- app_assoc. apply H. lia.
Qed.

(** On a well-formed file system, [mkdir] of an existing directory changes
    nothing. *)
Lemma mkdir_existing name F k :
  wf_fs F → F !! k = Some Dir → mkdir_from name F [] k = inr F.
Proof.
  intros HF Hk. apply mkdir_from_noop. intros i _. simpl.
  destruct (decide (drop i k = [])) as [E|E].
  - rewrite <- (take_drop i k) in Hk. by rewrite E, app_nil_r in Hk.
  - eapply wf_fs_prefix; [done| |exact E]. rewrite take_drop. by rewrite Hk.
Qed.

Lemma move_tree_dest s d F :
  F !! s = Some Dir → (F !! d = None ∨ F !! d = Some Dir) →
  move_tree s d F !! d = Some Dir.
Proof.
  intros Hs Hd. unfold move_tree. apply elem_of_list_to_map_1'.
  - intros y Hy. apply list_elem_of_fmap in Hy as ([k v] & Heq & Hin).
    apply elem_of_map_to_list in Hin. simpl in Heq.
    destruct (drop_prefix s k) as [r|] eqn:E.
    + injection Heq as Hr ->. apply drop_prefix_Some in E.
      assert (r = []) as ->.
      { apply (f_equal length) in Hr. rewrite length_app in Hr.
        destruct r; [done|simpl in Hr; lia]. }
      rewrite app_nil_r in E. congruence.
    + injection Heq as -> ->. destruct Hd; congruence.
  - apply list_elem_of_fmap. exists (s, Dir). split.
    + simpl. by rewrite drop_prefix_self, app_nil_r.
    + by apply elem_of_map_to_list.
Qed.

Lemma move_tree_other s d F k n :
  wf_fs F → F !! d = None → F !! k = Some n → drop_prefix s k = None →
  move_tree s d F !! k = Some n.
Proof.
  intros HF Hd Hk Hs. unfold move_tree. apply elem_of_list_to_map_1'.
  - intros y Hy. apply list_elem_of_fmap in Hy as ([k' v] & Heq & Hin).
    apply elem_of_map_to_list in Hin. simpl in Heq.
    destruct (drop_prefix s k') as [r|] eqn:E.
    + injection Heq as -> ->. exfalso.
      destruct (decide (r = [])) as [->|Hne].
      * rewrite app_nil_r in Hk. congruence.
      * assert (F !! d = Some Dir) by (eapply wf_fs_prefix; [done| |exact Hne]; by rewrite Hk).
        congruence.
    + injection Heq as -> ->. congruence.
  - apply list_elem_of_fmap. exists (k, n). split.
    + simpl. by rewrite Hs.
    + by apply elem_of_map_to_list.
Qed.

Lemma set_files_files F w : files (set_files F w) = F.
Proof. done. Qed.

(** [shutil.move] to a destination that does not exist: it fails and
    changes nothing, or it renames a regular file, or it renames a
    directory with what is below it. *)
Lemma shutil_move_fresh src dst w r w' :
  let s := resolve w (path_of_str src) in
  let d := resolve w (path_of_str dst) in
  shutil_move src dst w = (r, w') →
  files w !! d = None →
  (∃ e, r = Raise e ∧ w' = w)
  ∨ (r = Ret tt
     ∧ ∃ c, files w !! s = Some (File c)
            ∧ files w !! removelast d = Some Dir
            ∧ w' = set_files (<[d := File c]> (delete s (files w))) w)
  ∨ (r = Ret tt
     ∧ files w !! s = Some Dir
     ∧ drop_prefix s d = None
     ∧ ∃ F', extends (files w) F'
             ∧ (wf_fs (files w) → wf_fs F' ∧ F' !! d = None)
             ∧ w' = set_files (move_tree s d F') w).
Proof.
  intros s d H Hd. unfold shutil_move in H. fold s d in H. rewrite Hd in H.
  unfold rename in H.
  destruct (files w !! s) as [[c|]|] eqn:Es.
  - destruct (files w !! removelast d) as [[|]|] eqn:Ep; simplify_eq; eauto 10.
  - case_bool_decide as Hpre; [simplify_eq; eauto|].
    assert (Hnone : drop_prefix s d = None).
    { destruct (drop_prefix s d); [|done]. exfalso. apply Hpre. by eexists. }
    destruct (files w !! removelast d) as [[|]|] eqn:Ep.
    + simplify_eq. eauto.
    + simplify_eq. right. right. split; [done|]. split; [done|]. split; [done|].
      exists (files w). split; [apply extends_refl|]. by split.
    + destruct (mkdir_from dst (files w) [] (removelast d)) as [e|F'] eqn:Em.
      * simplify_eq. eauto.
      * simplify_eq. right. right. split; [done|]. split; [done|]. split; [done|].
        exists F'. split; [by eapply mkdir_from_extends|]. split; [|done].
        intros HF. split.
        { eapply mkdir_from_wf; [exact HF| |exact Em]. by intros [|??] ?. }
        destruct (mkdir_from_spec _ _ _ _ _ Em) as [_ Hk].
        destruct (Hk d) as [E|(_ & _ & i & _ & E)]; [congruence|].
        exfalso. simpl in E. destruct (decide (d = [])) as [Hnil|Hne].
        -- destruct HF as [Hroot _]. rewrite Hnil in Hd. congruence.
        -- apply (f_equal length) in E. rewrite length_take in E.
           rewrite <- (snoc_removelast_last d "" Hne) in E at 1.
           rewrite length_app in E. simpl in E. lia.
  - simplify_eq. eauto.
Qed.

(** Moving to a fresh destination keeps every entry that is not the source
    or below it. *)
Lemma shutil_move_frame src dst w r w' k n :
  wf_fs (files w) →
  files w !! resolve w (path_of_str dst) = None →
  shutil_move src dst w = (r, w') →
  files w !! k = Some n →
  drop_prefix (resolve w (path_of_str src)) k = None →
  files w' !! k = Some n.
Proof.
  intros HF Hd H Hk Hs.
  destruct (shutil_move_fresh _ _ _ _ _ H Hd)
    as [(e & -> & ->)|[(-> & c & Es & Ep & ->)|(-> & Es & Hsd & F' & Hext & HF' & ->)]].
  - done.
  - rewrite set_files_files. rewrite lookup_insert_ne by congruence.
    rewrite lookup_delete_ne; [done|]. intros <-. by rewrite drop_prefix_self in Hs.
  - rewrite set_files_files. destruct (HF' HF) as [Hwf Hd'].
    apply move_tree_other; [done..| |done]. by eapply extends_Some.
Qed.

(** A regular file renamed on a well-formed file system leaves it
    well-formed. *)
Lemma file_move_wf F s d c :
  wf_fs F → F !! s = Some (File c) → F !! d = None → F !! removelast d = Some Dir →
  wf_fs (<[d := File c]> (delete s F)).
Proof.
  intros [Hroot Hpar] Hs Hd Hp. split.
  - rewrite lookup_insert_ne by congruence. rewrite lookup_delete_ne by congruence. done.
  - intros k x Hk. destruct (decide (d = k ++ [x])) as [->|Hne].
    + rewrite removelast_app_one in Hp.
      rewrite lookup_insert_ne by (intros E; by apply (f_equal length) in E;
        rewrite length_app in E; simpl in E; lia).
      rewrite lookup_delete_ne by congruence. done.
    + rewrite lookup_insert_ne in Hk by done.
      destruct (decide (s = k ++ [x])) as [->|Hne'].
      * rewrite lookup_delete_eq in Hk. by destruct Hk.
      * rewrite lookup_delete_ne in Hk by done. apply Hpar in Hk.
        rewrite lookup_insert_ne by congruence. rewrite lookup_delete_ne by congruence. done.
Qed.

(** ** One step of a batch *)

Lemma same_env_refl w : same_env w w.
Proof. by repeat split. Qed.

Lemma same_env_trans w1 w2 w3 : same_env w1 w2 → same_env w2 w3 → same_env w1 w3.
Proof. unfold same_env. intros (?&?&?&?&?) (?&?&?&?&?). repeat split; congruence. Qed.

Lemma resolve_same_cwd w w' p : cwd w' = cwd w → resolve w' p = resolve w p.
Proof. unfold resolve. by intros ->. Qed.

Lemma path_exists_false w p : path_exists w p = false ↔ files w !! resolve w p = None.
Proof.
  unfold path_exists, stat. rewrite bool_decide_eq_false.
  destruct (files w !! resolve w p); split; try done.
  intros H. destruct H. by eexists.
Qed.

Lemma mkdir_cases p w r w' :
  mkdir p w = (r, w') →
  (∃ ex, r = Raise ex ∧ w' = w)
  ∨ (r = Ret tt
     ∧ ∃ G, mkdir_from (path_str p) (files w) [] (resolve w p) = inr G
            ∧ w' = set_files G w ∧ extends (files w) G ∧ (wf_fs (files w) → wf_fs G)).
Proof.
  unfold mkdir. destruct (mkdir_from _ _ _ _) as [ex|G] eqn:E; intros [= <- <-].
  - left. eauto.
  - right. split; [done|]. exists G. split; [done|]. split; [done|].
    split; [by eapply mkdir_from_extends|].
    intros HF. eapply mkdir_from_wf; [exact HF| |exact E]. by intros [|??] ?.
Qed.

(** The move of a step, once [mkdir] has left the world [w1]. *)
Lemma move_to_unique_spec w w1 G src dest acc r w'
    (on_ok : world → world) (on_fail : exn → world → world) :
  wf_path src → wf_path dest →
  w1 = set_files G w → extends (files w) G → (wf_fs (files w) → wf_fs G) →
  (∀ u, same_env u (on_ok u) ∧ last_run_file (on_ok u) = last_run_file u
        ∧ files (on_ok u) = files u) →
  (∀ ex u, same_env u (on_fail ex u) ∧ last_run_file (on_fail ex u) = last_run_file u
           ∧ files (on_fail ex u) = files u) →
  let safe := _unique_dest w1 dest in
  (match shutil_move (path_str src) (path_str safe) w1 with
   | (Ret _, w2) => (Ret (acc ++ [Move (path_str src) (path_str safe)]), on_ok w2)
   | (Raise ex, w2) => (Ret acc, on_fail ex w2)
   end = (r, w')) →
  step_spec w src acc r w'.
Proof.
  intros Hsrc Hdest -> Hext Hwf Hok Hfail safe H.
  assert (Hsafe : wf_path safe) by by apply unique_dest_wf.
  assert (Hfresh : files (set_files G w) !! resolve (set_files G w) (path_of_str (path_str safe)) = None).
  { rewrite path_of_str_str by done. apply path_exists_false. by apply unique_dest_fresh. }
  right. exists G. split; [done|]. split; [done|].
  assert (Henv : ∀ F, same_env w (set_files F (set_files G w))) by by repeat split.
  destruct (shutil_move (path_str src) (path_str safe) (set_files G w)) as [[[]|ex] w2] eqn:Hm;
    injection H as <- <-;
    destruct (shutil_move_fresh _ _ _ _ _ Hm Hfresh)
      as [(e & Hr & Hw2)|[(Hr & c & Es & Ep & Hw2)|(Hr & Es & Hsd & F' & Hext' & HF' & Hw2)]];
    try discriminate; rewrite ?path_of_str_str in * by done.
  - destruct (Hok w2) as (He & Hl & Hf).
    assert (He0 : same_env w w2) by (rewrite Hw2; apply Henv).
    split; [by eapply same_env_trans|]. split; [by rewrite Hl, Hw2|].
    right. left. exists safe, c. by rewrite Hf, Hw2.
  - destruct (Hok w2) as (He & Hl & Hf).
    assert (He0 : same_env w w2) by (rewrite Hw2; apply Henv).
    split; [by eapply same_env_trans|]. split; [by rewrite Hl, Hw2|].
    right. right. exists safe. rewrite Hf, Hw2.
    split; [done|]. split; [done|]. split; [done|]. simpl. split.
    + apply move_tree_dest; [by eapply extends_Some|].
      destruct (Hext' (resolve (set_files G w) safe)) as [E|[_ E]]; [left|right]; congruence.
    + intros HF k n Hk Hs. destruct (HF' (Hwf HF)) as [HwfF' HdF'].
      apply move_tree_other; [done..| |done]. by eapply extends_Some.
  - destruct (Hfail ex w2) as (He & Hl & Hf).
    assert (He0 : same_env w w2) by (rewrite Hw2; by repeat split).
    split; [by eapply same_env_trans|]. split; [by rewrite Hl, Hw2|].
    left. by rewrite Hf, Hw2.
Qed.

Lemma add_log_frame l m u :
  same_env u (add_log l m u) ∧ last_run_file (add_log l m u) = last_run_file u
  ∧ files (add_log l m u) = files u.
Proof. by repeat split. Qed.

Lemma V1_move_entry_spec e acc w r w' :
  V1.move_entry e acc w = (r, w') →
  step_spec w (path_of_str (e_src e)) acc r w'.
Proof.
  unfold V1.move_entry, bind. intros H.
  destruct (mkdir _ w) as [r0 w1] eqn:Hmk.
  apply mkdir_cases in Hmk as [(ex & -> & ->)|(-> & G & HG & -> & Hext & Hwf)].
  { injection H as <- <-. left. eauto. }
  unfold get, try_except, bind, log, modify, ret in H.
  set (src := path_of_str (e_src e)) in *.
  set (dest := join_str (path_parent (path_of_str (e_planned_dest e))) (path_name src)) in *.
  set (safe := _unique_dest (set_files G w) dest) in *.
  apply (move_to_unique_spec w (set_files G w) G src dest acc r w'
           (add_log INFO ("Moved: " +:+ path_str src +:+ " -> " +:+ path_str safe))
           (λ ex, add_log ERROR ("Failed to move " +:+ path_str src +:+ " -> "
                                 +:+ path_str safe +:+ ": " +:+ exn_str ex)));
    [apply path_of_str_wf| |reflexivity|done|done| | |].
  - apply join_str_wf, path_parent_wf, path_of_str_wf.
  - intros u. apply add_log_frame.
  - intros ex u. apply add_log_frame.
  - fold safe. destruct (shutil_move _ _ _) as [[[]|ex] w2]; exact H.
Qed.

Lemma V2_move_entry_spec e acc w r w' :
  V2.move_entry e acc w = (r, w') →
  step_spec w (path_of_str (e_src e)) acc r w'.
Proof.
  unfold V2.move_entry, bind. intros H.
  destruct (mkdir _ w) as [r0 w1] eqn:Hmk.
  apply mkdir_cases in Hmk as [(ex & -> & ->)|(-> & G & HG & -> & Hext & Hwf)].
  { injection H as <- <-. left. eauto. }
  unfold get, try_except, bind, log, modify, ret in H.
  set (src := path_of_str (e_src e)) in *.
  set (dest := path_of_str (e_planned_dest e)) in *.
  set (safe := _unique_dest (set_files G w) dest) in *.
  apply (move_to_unique_spec w (set_files G w) G src dest acc r w'
           (λ u, u)
           (λ ex, add_log ERROR ("Failed to move " +:+ path_str src +:+ ": "
                                 +:+ exn_str ex)));
    [apply path_of_str_wf| |reflexivity|done|done| | |].
  - apply path_of_str_wf.
  - intros u. by repeat split.
  - intros ex u. apply add_log_frame.
  - fold safe. destruct (shutil_move _ _ _) as [[[]|ex] w2]; exact H.
Qed.

Lemma for_each_app {A B} (l1 l2 : list A) (body : A → B → M B) (acc : B) (w : world) :
  for_each (l1 ++ l2) body acc w
  = match for_each l1 body acc w with
    | (Ret acc', w') => for_each l2 body acc' w'
    | (Raise e, w') => (Raise e, w')
    end.
Proof.
  revert acc w. induction l1 as [|x l1 IH]; intros acc w; simpl; [done|].
  unfold bind. destruct (body x acc w) as [[acc'|e] w']; [apply IH|done].
Qed.

Lemma set_files_id w : set_files (files w) w = w.
Proof. by destruct w. Qed.

Lemma is_file_lookup w p : is_file w p = true ↔ ∃ c, files w !! resolve w p = Some (File c).
Proof.
  unfold is_file, stat. destruct (files w !! resolve w p) as [[c|]|]; split; try done.
  - by eauto.
  - by intros [? ?].
  - by intros [? ?].
Qed.

Lemma is_dir_lookup w p : is_dir w p = true ↔ files w !! resolve w p = Some Dir.
Proof. unfold is_dir, stat. by destruct (files w !! resolve w p) as [[c|]|]. Qed.

Lemma shutil_move_file src dst w c :
  files w !! resolve w (path_of_str src) = Some (File c) →
  files w !! resolve w (path_of_str dst) = None →
  files w !! removelast (resolve w (path_of_str dst)) = Some Dir →
  shutil_move src dst w
  = (Ret tt, set_files (<[resolve w (path_of_str dst) := File c]>
                          (delete (resolve w (path_of_str src)) (files w))) w).
Proof. intros Hs Hd Hp. unfold shutil_move, rename. by rewrite Hd, Hs, Hp. Qed.

Lemma resolve_parent w p :
  path_parts p ≠ [] → resolve w (path_parent p) = removelast (resolve w p).
Proof.
  intros Hne. unfold resolve, path_parent. simpl.
  destruct (path_anchor p); [|done..]. by rewrite removelast_app.
Qed.

(** A path that denotes a regular file has a last component, when the root
    and the working directory are directories. *)
Lemma file_path_parts (w : world) (F : gmap (list string) node) (p : Path) (c : string) :
  F !! [] = Some Dir → F !! cwd w = Some Dir → F !! resolve w p = Some (File c) →
  path_parts p ≠ [].
Proof.
  intros Hroot Hcwd Hp E. unfold resolve in Hp. rewrite E in Hp.
  destruct (path_anchor p); [rewrite app_nil_r in Hp|..]; congruence.
Qed.

Lemma V1_undo_step : undo_step_spec V1.undo_move.
Proof.
  intros src dst fl u c Hsrc Hdst Hparts Hwf Hs Hd Hp.
  unfold V1.undo_move, bind. simpl. rewrite !path_of_str_str by done.
  unfold mkdir. rewrite resolve_parent by done.
  rewrite (mkdir_existing _ _ _ Hwf Hp), set_files_id.
  unfold try_except, bind, get.
  assert (He : path_exists u src = false) by by apply path_exists_false.
  rewrite He.
  rewrite (shutil_move_file _ _ _ c) by (rewrite ?path_of_str_str by done; done).
  rewrite !path_of_str_str by done.
  unfold log, modify, ret. eexists. split; [done|]. by repeat split.
Qed.

Lemma V2_undo_step : undo_step_spec V2.undo_move.
Proof.
  intros src dst fl u c Hsrc Hdst Hparts Hwf Hs Hd Hp.
  unfold V2.undo_move, try_except, bind. simpl. rewrite !path_of_str_str by done.
  unfold mkdir. rewrite resolve_parent by done.
  rewrite (mkdir_existing _ _ _ Hwf Hp), set_files_id.
  unfold get.
  assert (He : path_exists u src = false) by by apply path_exists_false.
  assert (Hu : _unique_dest u src = src) by (unfold _unique_dest; by rewrite He).
  rewrite Hu.
  rewrite (shutil_move_file _ _ _ c) by (rewrite ?path_of_str_str by done; done).
  rewrite !path_of_str_str by done.
  unfold ret. eexists. split; [done|]. by repeat split.
Qed.

(** ** A batch and its undo, for a loop body that meets [step_spec] *)

Section Batch.

Variable move_entry : entry → list move → M (list move).
Variable undo_move : move → list string → M (list string).

Hypothesis move_entry_ok : ∀ e acc w r w',
  move_entry e acc w = (r, w') → step_spec w (path_of_str (e_src e)) acc r w'.
Hypothesis undo_move_ok : undo_step_spec undo_move.


Lemma file_move_dirs_persist (G : gmap (list string) node) s d c :
  G !! s = Some (File c) → G !! d = None →
  dirs_persist G (<[d := File c]> (delete s G)).
Proof.
  intros Hs Hd k Hk. rewrite lookup_insert_ne by congruence.
  by rewrite lookup_delete_ne by congruence.
Qed.

(** The core of the round trip: when the plan names pairwise distinct
    regular files, every step that moves something renames a regular file,
    and undoing the records last-first, from a state that has at most more
    directories and none at an original path, leads back. *)
Lemma batch_roundtrip plan : ∀ acc w R' w',
  for_each plan move_entry acc w = (Ret R', w') →
  wf_world w →
  NoDup (map (λ e, resolve w (path_of_str (e_src e))) plan) →
  Forall (λ e, is_file w (path_of_str (e_src e)) = true) plan →
  ∃ R, R' = acc ++ R ∧ cwd w' = cwd w ∧ wf_world w'
    ∧ ∀ u fl,
        wf_fs (files u) → cwd u = cwd w → extends (files w') (files u) →
        Forall (λ r, is_dir u (path_of_str (mv_src r)) = false) R →
        ∃ u', for_each (rev R) undo_move fl u = (Ret fl, u')
              ∧ wf_fs (files u')
              ∧ extends (files w) (files u')
              ∧ dirs_persist (files u') (files u)
              ∧ same_env u u' ∧ last_run_file u' = last_run_file u.
Proof.
  induction plan as [|e rest IH]; intros acc w R' w' H Hw Hnd Hfiles; simpl in H.
  - injection H as <- <-. exists []. rewrite app_nil_r.
    split; [done|]. split; [done|]. split; [done|].
    intros u fl Hu Hcu Hex _. exists u. simpl.
    split; [done|]. split; [done|]. split; [done|]. split; [by intros k|].
    split; [apply same_env_refl|done].
  - unfold bind in H. destruct (move_entry e acc w) as [[acc1|ex] w1] eqn:He; [|done].
    apply move_entry_ok in He.
    destruct He as [(ex & Hr & _)|(G & Hext & HwfG & Henv & Hlr & Hcase)]; [done|].
    assert (Hcw1 : cwd w1 = cwd w) by apply Henv.
    set (src := path_of_str (e_src e)) in *.
    assert (Hsrc : wf_path src) by apply path_of_str_wf.
    destruct Hw as [Hwf Hcwd].
    simpl in Hnd. apply NoDup_cons in Hnd as [Hnotin Hnd].
    apply Forall_cons in Hfiles as [Hfile Hfiles].
    apply is_file_lookup in Hfile as [c0 Hc0].
    assert (Hnd1 : NoDup (map (λ e, resolve w1 (path_of_str (e_src e))) rest)).
    { erewrite map_ext; [exact Hnd|]. intros e'. by apply resolve_same_cwd. }
    destruct Hcase as [[Hr Hf]|[(safe & c & Hr & Hsafe & Hs & Hd & Hp & Hf)
                                |(safe & Hr & Hsafe & Hs & Hd & Hframe)]];
      injection Hr as ->.
    + (* the move failed *)
      assert (Hw1 : wf_world w1).
      { split; rewrite Hf; [by apply HwfG|]. rewrite Hcw1. by eapply extends_Some. }
      assert (Hfiles1 : Forall (λ e, is_file w1 (path_of_str (e_src e)) = true) rest).
      { eapply Forall_impl; [exact Hfiles|]. intros e' [c' Hc']%is_file_lookup.
        apply is_file_lookup. exists c'.
        rewrite (resolve_same_cwd w w1) by done. rewrite Hf. by eapply extends_Some. }
      destruct (IH _ _ _ _ H Hw1 Hnd1 Hfiles1) as (R1 & -> & Hcwd1 & Hw' & Hundo).
      exists R1. split; [done|]. split; [congruence|]. split; [done|].
      intros u fl Hu Hcu Hex H2.
      destruct (Hundo u fl Hu ltac:(congruence) Hex H2)
        as (u' & Hrun & Hwfu' & Hex' & Hdpu & Henvu & Hlru).
      exists u'. split; [done|]. split; [done|].
      split; [|done]. eapply extends_trans; [exact Hext|]. by rewrite <- Hf.
    + (* a regular file was renamed *)
      set (s := resolve w src) in *. set (d := resolve w safe) in *.
      assert (Hw1 : wf_world w1).
      { split; rewrite Hf; [by apply file_move_wf; auto|]. rewrite Hcw1.
        apply file_move_dirs_persist; [done..|]. by eapply extends_Some. }
      assert (Hfiles1 : Forall (λ e, is_file w1 (path_of_str (e_src e)) = true) rest).
      { apply Forall_forall. intros e' He'.
        rewrite Forall_forall in Hfiles.
        destruct (proj1 (is_file_lookup _ _) (Hfiles e' He')) as [c' Hc'].
        apply is_file_lookup. exists c'.
        rewrite (resolve_same_cwd w w1) by done. rewrite Hf.
        assert (Hne : resolve w (path_of_str (e_src e')) ≠ s).
        { intros E. apply Hnotin. apply list_elem_of_fmap.
          exists e'. split; [symmetry; exact E|done]. }
        assert (HG : G !! resolve w (path_of_str (e_src e')) = Some (File c'))
          by by eapply extends_Some.
        rewrite lookup_insert_ne by congruence. by rewrite lookup_delete_ne. }
      destruct (IH _ _ _ _ H Hw1 Hnd1 Hfiles1) as (R1 & -> & Hcwd1 & Hw' & Hundo).
      exists (Move (path_str src) (path_str safe) :: R1).
      split; [by rewrite <- app_assoc|]. split; [congruence|]. split; [done|].
      intros u fl Hu Hcu Hex H2. apply Forall_cons in H2 as [H2a H2b].
      destruct (Hundo u fl Hu ltac:(congruence) Hex H2b)
        as (u1 & Hrun & Hwfu1 & Hex1 & Hdpu & Henvu & Hlru).
      assert (Hcu1 : cwd u1 = cwd w) by (destruct Henvu as [-> _]; done).
      assert (Hparts : path_parts src ≠ []).
      { apply (file_path_parts w G src c); [|by eapply extends_Some|done].
        eapply extends_Some; [done|]. apply Hwf. }
      assert (Hsne : s ≠ d) by congruence.
      assert (HpG : G !! removelast s = Some Dir).
      { destruct (HwfG Hwf) as [_ Hpar].
        apply (Hpar _ (List.last s "")).
        rewrite snoc_removelast_last; [by rewrite Hs|].
        intros E. destruct (HwfG Hwf) as [Hroot _]. rewrite E in Hs. congruence. }
      assert (Hu1s : files u1 !! s = None).
      { destruct (Hex1 s) as [E|[_ E]].
        - rewrite E, Hf. rewrite lookup_insert_ne by done. apply lookup_delete_eq.
        - exfalso. apply Hdpu in E. simpl in H2a.
          rewrite path_of_str_str in H2a by done.
          assert (Hdir : is_dir u src = true)
            by (apply is_dir_lookup; by rewrite (resolve_same_cwd w u src Hcu)).
          congruence. }
      assert (Hu1d : files u1 !! d = Some (File c)).
      { eapply extends_Some; [exact Hex1|]. rewrite Hf. apply lookup_insert_eq. }
      assert (Hu1p : files u1 !! removelast s = Some Dir).
      { eapply extends_Some; [exact Hex1|]. rewrite Hf.
        by apply file_move_dirs_persist. }
      destruct (undo_move_ok src safe fl u1 c Hsrc Hsafe Hparts Hwfu1)
        as (u0 & Hstep & Hf0 & Henv0 & Hlr0);
        rewrite ?(resolve_same_cwd w u1) by done; try done.
      rewrite !(resolve_same_cwd w u1) in Hf0 by done. fold s d in Hf0.
      exists u0. split.
      { simpl. rewrite for_each_app, Hrun. simpl. unfold bind. by rewrite Hstep. }
      split; [rewrite Hf0; by apply file_move_wf|].
      split.
      { eapply extends_trans; [exact Hext|]. intros k. rewrite Hf0.
        destruct (decide (k = s)) as [->|Hks]; [left; by rewrite lookup_insert_eq|].
        rewrite lookup_insert_ne by done.
        destruct (decide (k = d)) as [->|Hkd]; [left; by rewrite lookup_delete_eq|].
        rewrite lookup_delete_ne by done.
        destruct (Hex1 k) as [E|[E E']]; rewrite Hf in E;
          rewrite lookup_insert_ne, lookup_delete_ne in E by done; [by left|by right]. }
      split.
      { eapply dirs_persist_trans; [|exact Hdpu]. rewrite Hf0.
        intros k Hk. destruct (decide (k = s)) as [->|Hks];
          [by rewrite lookup_insert_eq in Hk|].
        rewrite lookup_insert_ne in Hk by done.
        destruct (decide (k = d)) as [->|Hkd]; [by rewrite lookup_delete_eq in Hk|].
        by rewrite lookup_delete_ne in Hk by done. }
      split; [by eapply same_env_trans|congruence].
    + (* a directory was renamed: excluded, the source is a regular file *)
      exfalso. assert (G !! resolve w src = Some (File c0)) by by eapply extends_Some.
      congruence.
Qed.

End Batch.

(** ** The planner *)

Lemma same_but_log_refl w : same_but_log w w.
Proof. by repeat split. Qed.

Lemma same_but_log_trans w1 w2 w3 :
  same_but_log w1 w2 → same_but_log w2 w3 → same_but_log w1 w3.
Proof.
  unfold same_but_log. intros (?&?&?&?&?&?&?) (?&?&?&?&?&?&?). repeat split; congruence.
Qed.

Lemma same_but_log_sym w1 w2 : same_but_log w1 w2 → same_but_log w2 w1.
Proof. unfold same_but_log. intros (?&?&?&?&?&?&?). repeat split; congruence. Qed.

Lemma same_but_log_stat w w' p : same_but_log w w' → stat w' p = stat w p.
Proof. intros (Hc & _ & _ & _ & Hf & _). unfold stat, resolve. by rewrite Hc, Hf. Qed.

Lemma same_but_log_regular_files w w' p :
  same_but_log w w' → regular_files w' p = regular_files w p.
Proof.
  intros H. pose proof H as (Hc & _ & _ & _ & Hf & _).
  unfold regular_files, children, resolve. rewrite Hc, Hf.
  apply list_filter_iff. intros item. unfold is_file.
  by rewrite (same_but_log_stat w w' item H).
Qed.

Lemma V1_plan_same w w' cfg sources plan :
  same_but_log w w' → V1_plan w' cfg sources plan = V1_plan w cfg sources plan.
Proof.
  intros H. revert plan. induction sources as [|s rest IH]; intros plan; simpl; [done|].
  rewrite (same_but_log_stat w w' s H), (same_but_log_regular_files w w' s H).
  destruct (stat w s) as [[c|]|]; auto.
Qed.

Lemma V2_plan_same w w' cfg sources :
  same_but_log w w' → V2_plan w' cfg sources = V2_plan w cfg sources.
Proof.
  intros H. unfold V2_plan.
  assert (Hf : filter (λ folder, is_dir w' folder = true) sources
               = filter (λ folder, is_dir w folder = true) sources).
  { apply list_filter_iff. intros p. unfold is_dir. by rewrite (same_but_log_stat w w' p H). }
  rewrite Hf. apply flat_map_ext. intros p. by rewrite (same_but_log_regular_files w w' p H).
Qed.

Lemma categorize_loop_find ext cats :
  categorize_loop ext cats
  = match List.find (λ ci : string * catinfo,
                       bool_decide (ext ∈ map lower (extensions ci.2))) cats with
    | Some (cat, info) => Some (cat, path_of_str (destination info))
    | None => None
    end.
Proof.
  induction cats as [|[cat info] cats IH]; simpl; [done|].
  by destruct (bool_decide (ext ∈ map lower (extensions info))).
Qed.

(** The destination [categorize_file] returns is the parsed text of the
    matched destination. *)
Lemma categorize_file_dest file cfg :
  (categorize_file file cfg).2 = path_of_str (matched_destination file cfg).
Proof.
  unfold categorize_file, matched_destination. rewrite categorize_loop_find.
  by destruct (List.find _ _) as [[cat info]|].
Qed.

(** A parsed text is an absolute path exactly when it starts with a slash. *)
Lemma is_absolute_path_of_str d :
  is_absolute (path_of_str d) = true ↔ ∃ r, d = String "/" r.
Proof.
  unfold is_absolute, path_of_str. simpl. split.
  - destruct d as [|c d]; [done|].
    destruct (decide (c = "/"%char)) as [->|Hc]; [by eauto|].
    by destruct (parse_anchor_first c d Hc) as [-> _].
  - intros [r ->]. destruct r as [|c [|c' r]]; simpl; try done.
    + by destruct c as [[] [] [] [] [] [] [] []].
    + by destruct c as [[] [] [] [] [] [] [] []], c' as [[] [] [] [] [] [] [] []].
Qed.

Lemma V1_preview_items source cfg items : ∀ plan w,
  for_each items (V1.preview_item source cfg) plan w
  = (Ret (plan ++ map (V1_planned source cfg) (filter (λ item, is_file w item = true) items)), w).
Proof.
  induction items as [|item items IH]; intros plan w; simpl.
  - by rewrite app_nil_r.
  - unfold bind, V1.preview_item at 1, get, bind. simpl.
    destruct (is_file w item) eqn:E.
    + rewrite filter_cons_True by done. rewrite map_cons.
      unfold V1_planned at 1, claimed_dest.
      pose proof (categorize_file_dest item cfg) as Hd.
      destruct (categorize_file item cfg) as [category dest_root]. simpl in *.
      unfold ret. rewrite IH. rewrite <- app_assoc. simpl. subst dest_root.
      destruct (decide (matched_destination item cfg = "")) as [->|Hne].
      * by rewrite bool_decide_eq_false_2 by (intros E0; by apply E0).
      * rewrite bool_decide_eq_true_2 by done. simpl.
        by destruct (is_absolute (path_of_str (matched_destination item cfg))).
    + rewrite filter_cons_False by congruence. unfold ret. by rewrite IH.
Qed.

(** v1's [build_preview] computes [V1_plan] and writes nothing but
    warnings to the log. *)
Lemma V1_preview_sources cfg sources : ∀ plan w,
  ∃ w', for_each sources (V1.preview_source cfg) plan w = (V1_plan w cfg sources plan, w')
        ∧ same_but_log w w'.
Proof.
  induction sources as [|source rest IH]; intros plan w; simpl.
  - exists w. split; [done|apply same_but_log_refl].
  - unfold bind, V1.preview_source at 1, get, bind. simpl.
    unfold path_exists. destruct (stat w source) as [[c|]|] eqn:E; simpl.
    + unfold iterdir. rewrite E. exists w. split; [done|apply same_but_log_refl].
    + unfold iterdir. rewrite E. fold (children w source).
      rewrite V1_preview_items. fold (regular_files w source). apply IH.
    + destruct (IH plan (add_log WARNING ("Source not found: " +:+ path_str source) w))
        as (w' & Hrun & Hsame).
      exists w'. rewrite Hrun. split.
      * f_equal. apply V1_plan_same. by repeat split.
      * eapply same_but_log_trans; [|exact Hsame]. by repeat split.
Qed.

Lemma V2_preview_items cfg items : ∀ plan w,
  for_each items (V2.preview_item cfg) plan w
  = (Ret (plan ++ map (V2_planned cfg) (filter (λ item, is_file w item = true) items)), w).
Proof.
  induction items as [|item items IH]; intros plan w; simpl.
  - by rewrite app_nil_r.
  - unfold bind, V2.preview_item at 1, get, bind. simpl.
    destruct (is_file w item) eqn:E; simpl.
    + rewrite filter_cons_True by done. rewrite map_cons.
      unfold V2_planned at 1, V2.resolve_dest.
      pose proof (path_str_nonempty (categorize_file item cfg).2) as Hne.
      destruct (categorize_file item cfg) as [category dest_root] eqn:Ec. simpl in *.
      rewrite bool_decide_eq_true_2.
      * unfold ret. rewrite IH. simpl. by rewrite <- app_assoc.
      * apply Hne. unfold categorize_file in Ec.
        destruct (categorize_loop _ _) as [[c p]|] eqn:El.
        -- injection Ec as <- <-. clear -El.
           induction (categories cfg) as [|[cat info] l IHl]; simpl in El; [done|].
           case_bool_decide; [injection El as <- <-; apply path_of_str_wf|by apply IHl].
        -- injection Ec as <- <-. apply path_of_str_wf.
    + rewrite filter_cons_False by congruence. unfold ret. by rewrite IH.
Qed.

(** v2's [build_preview] computes [V2_plan], never raises and leaves the
    world as it is. *)
Lemma V2_preview_sources cfg sources : ∀ plan w,
  for_each sources (V2.preview_source cfg) plan w
  = (Ret (plan ++ V2_plan w cfg sources), w).
Proof.
  unfold V2_plan.
  induction sources as [|source rest IH]; intros plan w; simpl.
  - by rewrite app_nil_r.
  - unfold bind, V2.preview_source at 1, get, bind. simpl.
    destruct (is_dir w source) eqn:E; simpl.
    + rewrite filter_cons_True by done. simpl.
      unfold iterdir. unfold is_dir in E. destruct (stat w source) as [[c|]|]; try done.
      fold (children w source). rewrite V2_preview_items. fold (regular_files w source).
      rewrite IH. by rewrite <- app_assoc.
    + rewrite filter_cons_False by congruence. unfold ret. apply IH.
Qed.

Lemma V1_plan_entries w cfg sources : ∀ acc plan,
  V1_plan w cfg sources acc = Ret plan →
  ∀ e, e ∈ plan →
       e ∈ acc
       ∨ ∃ source item, source ∈ sources ∧ is_dir w source = true
                        ∧ item ∈ regular_files w source
                        ∧ e = V1_planned source cfg item.
Proof.
  induction sources as [|s rest IH]; intros acc plan H e He; simpl in H.
  - injection H as <-. by left.
  - destruct (stat w s) as [[c|]|] eqn:E; [done| |].
    + destruct (IH _ _ H e He) as [Hin|(source & item & Hs & Hd & Hi & ->)].
      * apply elem_of_app in Hin as [Hin|Hin]; [by left|].
        apply list_elem_of_fmap in Hin as (item & -> & Hi).
        right. exists s, item. split; [by left|]. split; [|done].
        unfold is_dir. by rewrite E.
      * right. exists source, item. split; [by right|done].
    + destruct (IH _ _ H e He) as [Hin|(source & item & Hs & Hd & Hi & ->)]; [by left|].
      right. exists source, item. split; [by right|done].
Qed.

Lemma V2_plan_entries w cfg sources e :
  e ∈ V2_plan w cfg sources →
  ∃ folder item, folder ∈ sources ∧ is_dir w folder = true
                 ∧ item ∈ regular_files w folder ∧ e = V2_planned cfg item.
Proof.
  unfold V2_plan. intros H. apply list_elem_of_In, in_flat_map in H as (folder & Hf & He).
  apply list_elem_of_In, list_elem_of_filter in Hf as [Hd Hf].
  apply list_elem_of_In, list_elem_of_fmap in He as (item & -> & Hi).
  by exists folder, item.
Qed.

Lemma categorize_loop_first ext before cat info after :
  ext ∈ map lower (extensions info) →
  Forall (λ ci : string * catinfo, ext ∉ map lower (extensions ci.2)) before →
  categorize_loop ext (before ++ (cat, info) :: after)
  = Some (cat, path_of_str (destination info)).
Proof.
  intros Hm. induction 1 as [|[c i] before Hc _ IH]; simpl.
  - by rewrite bool_decide_eq_true_2.
  - by rewrite bool_decide_eq_false_2.
Qed.

Lemma categorize_loop_none ext cats :
  Forall (λ ci : string * catinfo, ext ∉ map lower (extensions ci.2)) cats →
  categorize_loop ext cats = None.
Proof.
  induction 1 as [|[c i] cats Hc _ IH]; simpl; [done|].
  by rewrite bool_decide_eq_false_2.
Qed.

Lemma ext_matches_lower file info :
  ext_matches file info ↔ lower (path_suffix file) ∈ map lower (extensions info).
Proof.
  unfold ext_matches. split.
  - intros (e & He & <-). apply list_elem_of_fmap. by exists e.
  - intros (e & -> & He)%list_elem_of_fmap. by exists e.
Qed.

(** Every regular file of a source that is a directory has its entry. *)
Lemma V1_plan_complete w cfg sources : ∀ acc plan,
  V1_plan w cfg sources acc = Ret plan →
  (∀ e, e ∈ acc → e ∈ plan)
  ∧ ∀ source item, source ∈ sources → is_dir w source = true →
                   item ∈ regular_files w source →
                   V1_planned source cfg item ∈ plan.
Proof.
  induction sources as [|s rest IH]; intros acc plan H; simpl in H.
  - injection H as <-. split; [done|]. intros source item Hs. by apply elem_of_nil in Hs.
  - destruct (stat w s) as [[c|]|] eqn:E; [done| |].
    + destruct (IH _ _ H) as [Hacc Hrest]. split.
      * intros e He. apply Hacc, elem_of_app. by left.
      * intros source item [->|Hs]%elem_of_cons Hd Hi; [|by apply Hrest].
        apply Hacc, elem_of_app. right. apply list_elem_of_fmap. by exists item.
    + destruct (IH _ _ H) as [Hacc Hrest]. split; [done|].
      intros source item [->|Hs]%elem_of_cons Hd Hi; [|by apply Hrest].
      unfold is_dir in Hd. by rewrite E in Hd.
Qed.

Lemma V2_plan_complete w cfg sources source item :
  source ∈ sources → is_dir w source = true → item ∈ regular_files w source →
  V2_planned cfg item ∈ V2_plan w cfg sources.
Proof.
  intros Hs Hd Hi. unfold V2_plan. apply list_elem_of_In, in_flat_map. exists source. split.
  - apply list_elem_of_In, list_elem_of_filter. by split.
  - apply list_elem_of_In, list_elem_of_fmap. by exists item.
Qed.

(** C4 (first match wins).  [categorize_file] returns the name of the first
    rule, in the order of the rule set, one of whose extensions equals the
    file's suffix when both are lower-cased, and the literal "Others" when no
    rule has such an extension.  In both variants [build_preview] assigns
    that category to every file it is given: each regular file directly in a
    source that is a directory has an entry of the plan, which names the file
    and carries the category [categorize_file] gives to it; and the plan has
    no other entry. *)
Theorem C4_first_match_wins :
  (∀ file cfg before cat info after,
      categories cfg = before ++ (cat, info) :: after →
      ext_matches file info →
      Forall (λ ci, ¬ ext_matches file ci.2) before →
      (categorize_file file cfg).1 = cat)
  ∧ (∀ file cfg,
        Forall (λ ci, ¬ ext_matches file ci.2) (categories cfg) →
        (categorize_file file cfg).1 = "Others")
  ∧ (∀ sources cfg w plan w',
        V1.build_preview sources cfg w = (Ret plan, w') →
        (∀ source item,
            source ∈ sources → is_dir w source = true →
            item ∈ regular_files w source →
            ∃ e, e ∈ plan ∧ e_src e = path_str item
                 ∧ e_category e = (categorize_file item cfg).1)
        ∧ (∀ e, e ∈ plan →
                ∃ source item,
                  source ∈ sources ∧ is_dir w source = true
                  ∧ item ∈ regular_files w source
                  ∧ e_src e = path_str item
                  ∧ e_category e = (categorize_file item cfg).1))
  ∧ (∀ sources cfg w plan w',
        V2.build_preview sources cfg w = (Ret plan, w') →
        (∀ source item,
            source ∈ sources → is_dir w source = true →
            item ∈ regular_files w source →
            ∃ e, e ∈ plan ∧ e_src e = path_str item
                 ∧ e_category e = (categorize_file item cfg).1)
        ∧ (∀ e, e ∈ plan →
                ∃ source item,
                  source ∈ sources ∧ is_dir w source = true
                  ∧ item ∈ regular_files w source
                  ∧ e_src e = path_str item
                  ∧ e_category e = (categorize_file item cfg).1)).
Proof.
  split; [|split; [|split]].
  - intros file cfg before cat info after Hc Hm Hb. unfold categorize_file.
    rewrite Hc, (categorize_loop_first _ before cat info after); [done| |].
    + by apply ext_matches_lower.
    + eapply Forall_impl; [exact Hb|]. intros ci Hn Hin. by apply Hn, ext_matches_lower.
  - intros file cfg Hall. unfold categorize_file.
    rewrite categorize_loop_none; [done|].
    eapply Forall_impl; [exact Hall|]. intros ci Hn Hin. by apply Hn, ext_matches_lower.
  - intros sources cfg w plan w' H. unfold V1.build_preview in H.
    destruct (V1_preview_sources cfg sources [] w) as (w1 & Hrun & _).
    rewrite Hrun in H. injection H as H _. split.
    + intros source item Hs Hd Hi.
      exists (V1_planned source cfg item). split; [|done].
      by apply (proj2 (V1_plan_complete _ _ _ _ _ H) source item).
    + intros e He.
      destruct (V1_plan_entries _ _ _ _ _ H e He)
        as [Hin|(source & item & Hs & Hd & Hi & ->)]; [by apply elem_of_nil in Hin|].
      by exists source, item.
  - intros sources cfg w plan w' H. unfold V2.build_preview in H.
    rewrite V2_preview_sources in H. injection H as <- _. split.
    + intros source item Hs Hd Hi.
      exists (V2_planned cfg item). split; [|done].
      by apply (V2_plan_complete w cfg sources source item).
    + intros e He.
      destruct (V2_plan_entries _ _ _ _ He) as (folder & item & Hs & Hd & Hi & ->).
      by exists folder, item.
Qed.

Lemma C4_first_match_wins_witness :
  (categorize_file (path_of_str "/d/Scan.PDF")
     (Config [("Images", CatInfo [".png"] ""); ("Documents", CatInfo [".Pdf"] "");
              ("Papers", CatInfo [".pdf"] "")] "" "")).1 = "Documents"
  ∧ (categorize_file (path_of_str "/d/Makefile") cfg_A).1 = "Others"
  ∧ (∃ e, e ∈ [Entry "/d/report.pdf" "Documents" "/d/Documents/report.pdf"]
          ∧ e_src e = path_str (path_of_str "/d/report.pdf")
          ∧ e_category e = (categorize_file (path_of_str "/d/report.pdf") cfg_A).1)
  ∧ (∃ e, e ∈ [Entry "/d/report.pdf" "Documents" "report.pdf"]
          ∧ e_src e = path_str (path_of_str "/d/report.pdf")
          ∧ e_category e = (categorize_file (path_of_str "/d/report.pdf") cfg_A).1).
Proof.
  split; [|split; [|split]].
  - apply (proj1 C4_first_match_wins (path_of_str "/d/Scan.PDF") _
             [("Images", CatInfo [".png"] "")] "Documents" (CatInfo [".Pdf"] "")
             [("Papers", CatInfo [".pdf"] "")]).
    + reflexivity.
    + exists ".Pdf". split; [by left|reflexivity].
    + constructor; [|constructor]. intros (e & He & Hl). simpl in He.
      apply list_elem_of_singleton in He as ->. vm_compute in Hl. discriminate.
  - apply (proj1 (proj2 C4_first_match_wins)).
    constructor; [|constructor]. intros (e & He & Hl). simpl in He.
    apply list_elem_of_singleton in He as ->. vm_compute in Hl. discriminate.
  - apply (proj1 (proj1 (proj2 (proj2 C4_first_match_wins)) [folder_A] cfg_A world_A
                    [Entry "/d/report.pdf" "Documents" "/d/Documents/report.pdf"] world_A
                    ltac:(vm_compute; reflexivity))
             folder_A (path_of_str "/d/report.pdf")).
    + by left.
    + vm_compute. reflexivity.
    + vm_compute. by left.
  - apply (proj1 (proj2 (proj2 (proj2 C4_first_match_wins)) [folder_A] cfg_A world_A
                    [Entry "/d/report.pdf" "Documents" "report.pdf"] world_A
                    ltac:(vm_compute; reflexivity))
             folder_A (path_of_str "/d/report.pdf")).
    + by left.
    + vm_compute. reflexivity.
    + vm_compute. by left.
Defined.

Lemma is_absolute_empty : is_absolute (path_of_str "") = false.
Proof. reflexivity. Qed.

(** C1 (planned destination), as amended.  In v1 every entry of the plan is
    planned for a regular file [item] directly in one of the sources, with the
    destination target-root / category / base name of [item], where the target
    root is the destination of the matched rule (or of the "Others" fallback)
    when that is an absolute path and the file's own source folder otherwise;
    Scenario A gives the single entry with category "Documents" and
    destination [/d/Documents/report.pdf].  In v2 an entry whose matched
    destination is an absolute path is planned at destination / base name,
    without a category folder. *)
Theorem C1_planned_destination :
  (∀ sources cfg w plan w' e,
      V1.build_preview sources cfg w = (Ret plan, w') → e ∈ plan →
      ∃ source item,
        source ∈ sources ∧ item ∈ regular_files w source
        ∧ e_src e = path_str item
        ∧ e_category e = (categorize_file item cfg).1
        ∧ e_planned_dest e = claimed_dest source item cfg)
  ∧ V1.build_preview [folder_A] cfg_A world_A
    = (Ret [Entry "/d/report.pdf" "Documents" "/d/Documents/report.pdf"], world_A)
  ∧ (∀ sources cfg w plan w' e,
        V2.build_preview sources cfg w = (Ret plan, w') → e ∈ plan →
        ∃ folder item,
          folder ∈ sources ∧ item ∈ regular_files w folder
          ∧ e_src e = path_str item
          ∧ e_category e = (categorize_file item cfg).1
          ∧ (is_absolute (path_of_str (matched_destination item cfg)) = true →
             e_planned_dest e
             = path_str (join_str (path_of_str (matched_destination item cfg))
                                  (path_name item)))).
Proof.
  split; [|split].
  - intros sources cfg w plan w' e H He. unfold V1.build_preview in H.
    destruct (V1_preview_sources cfg sources [] w) as (w1 & Hrun & _).
    rewrite Hrun in H. injection H as H _.
    destruct (V1_plan_entries _ _ _ _ _ H e He)
      as [Hin|(source & item & Hs & _ & Hi & ->)]; [by apply elem_of_nil in Hin|].
    by exists source, item.
  - vm_compute. reflexivity.
  - intros sources cfg w plan w' e H He. unfold V2.build_preview in H.
    rewrite V2_preview_sources in H. injection H as <- _.
    destruct (V2_plan_entries _ _ _ _ He) as (folder & item & Hf & _ & Hi & ->).
    exists folder, item. simpl. by rewrite categorize_file_dest.
Qed.

Lemma C1_planned_destination_witness :
  (∃ source item,
      source ∈ [folder_A] ∧ item ∈ regular_files world_A source
      ∧ "/d/report.pdf" = path_str item
      ∧ "Documents" = (categorize_file item cfg_A).1
      ∧ "/d/Documents/report.pdf" = claimed_dest source item cfg_A)
  ∧ (∃ folder item,
        folder ∈ [folder_A] ∧ item ∈ regular_files world_A folder
        ∧ "/d/report.pdf" = path_str item
        ∧ "Documents" = (categorize_file item cfg_archive).1
        ∧ (is_absolute (path_of_str (matched_destination item cfg_archive)) = true →
           "/archive/report.pdf"
           = path_str (join_str (path_of_str (matched_destination item cfg_archive))
                                (path_name item)))).
Proof.
  split.
  - apply (proj1 C1_planned_destination [folder_A] cfg_A world_A
             [Entry "/d/report.pdf" "Documents" "/d/Documents/report.pdf"] world_A
             (Entry "/d/report.pdf" "Documents" "/d/Documents/report.pdf")).
    + vm_compute. reflexivity.
    + by left.
  - apply (proj2 (proj2 C1_planned_destination) [folder_A] cfg_archive world_A
             [Entry "/d/report.pdf" "Documents" "/archive/report.pdf"] world_A
             (Entry "/d/report.pdf" "Documents" "/archive/report.pdf")).
    + vm_compute. reflexivity.
    + by left.
Defined.

(** C1 as stated fails on v2: in Scenario A, v2 plans [report.pdf] at the
    relative path [report.pdf], not at [/d/Documents/report.pdf]. *)
Lemma C1_counterexample_v2 :
  V2.build_preview [folder_A] cfg_A world_A
  = (Ret [Entry "/d/report.pdf" "Documents" "report.pdf"], world_A)
  ∧ claimed_dest folder_A (path_of_str "/d/report.pdf") cfg_A = "/d/Documents/report.pdf"
  ∧ ¬ (∀ plan w' e,
         V2.build_preview [folder_A] cfg_A world_A = (Ret plan, w') → e ∈ plan →
         e_planned_dest e = claimed_dest folder_A (path_of_str (e_src e)) cfg_A).
Proof.
  assert (Hrun : V2.build_preview [folder_A] cfg_A world_A
                 = (Ret [Entry "/d/report.pdf" "Documents" "report.pdf"], world_A))
    by (vm_compute; reflexivity).
  split; [exact Hrun|]. split; [vm_compute; reflexivity|].
  intros H. specialize (H _ _ (Entry "/d/report.pdf" "Documents" "report.pdf") Hrun).
  discriminate H. by left.
Qed.

Lemma V1_preview_source_file w cfg source plan c :
  stat w source = Some (File c) →
  V1.preview_source cfg source plan w
  = (Raise (NotADirectoryError (path_str source)), w).
Proof.
  intros Hs. unfold V1.preview_source, bind, get, path_exists, iterdir.
  rewrite Hs. simpl. by rewrite Hs.
Qed.

(** C6, v1 at the failing input: a source that exists and is a regular file
    makes [build_preview] raise [NotADirectoryError]; the sources after it
    are not looked at. *)
Theorem C6_v1_raises_on_file_source :
  ∀ w cfg source rest c,
    stat w source = Some (File c) →
    V1.build_preview (source :: rest) cfg w
    = (Raise (NotADirectoryError (path_str source)), w).
Proof.
  intros w cfg source rest c Hs. unfold V1.build_preview. simpl.
  unfold bind. by rewrite (V1_preview_source_file w cfg source [] c Hs).
Qed.

Lemma C6_v1_raises_on_file_source_witness :
  V1.build_preview [path_of_str "/d/report.pdf"; folder_A] cfg_A world_A
  = (Raise (NotADirectoryError "/d/report.pdf"), world_A).
Proof.
  apply (C6_v1_raises_on_file_source world_A cfg_A (path_of_str "/d/report.pdf")
           [folder_A] "%PDF").
  vm_compute. reflexivity.
Defined.

(** What C6 asks for holds of v2: a source that is not a directory is
    skipped, the others give their entries, nothing is raised. *)
Lemma V2_build_preview_total sources cfg w :
  V2.build_preview sources cfg w = (Ret (V2_plan w cfg sources), w).
Proof. unfold V2.build_preview. by rewrite V2_preview_sources. Qed.

(** v1 skips a source that does not exist. *)
Lemma V1_build_preview_missing w cfg source rest :
  stat w source = None →
  (V1.build_preview (source :: rest) cfg w).1 = (V1.build_preview rest cfg w).1.
Proof.
  intros Hs. unfold V1.build_preview.
  destruct (V1_preview_sources cfg (source :: rest) [] w) as (w1 & -> & _).
  destruct (V1_preview_sources cfg rest [] w) as (w2 & -> & _).
  simpl. by rewrite Hs.
Qed.

Lemma repeat_calls_same {A} (build : M A) (f : world → outcome A) :
  (∀ w, ∃ w', build w = (f w, w') ∧ same_but_log w w') →
  (∀ w w', same_but_log w w' → f w' = f w) →
  ∀ n w, (repeat_calls build n w).1 = replicate n (f w)
         ∧ same_but_log w (repeat_calls build n w).2.
Proof.
  intros Hb Hf. induction n as [|n IH]; intros w; simpl.
  - split; [done|apply same_but_log_refl].
  - destruct (Hb w) as (w1 & -> & Hs). destruct (IH w1) as [Hr Hs'].
    destruct (repeat_calls build n w1) as [rs w2]. simpl in *.
    split; [by rewrite Hr, (Hf w w1 Hs)|by eapply same_but_log_trans].
Qed.

(** C9 (the planner is read-only).  In both variants [build_preview] leaves
    the working directory, the files and directories, the configuration and
    the last-run record as they were (v1 only appends warnings to the text
    log), and any number of calls in a row on the same sources and rule set
    give the same outcome each time. *)
Theorem C9_build_preview_read_only :
  ∀ sources cfg w n,
    (same_but_log w (V1.build_preview sources cfg w).2
     ∧ (repeat_calls (V1.build_preview sources cfg) n w).1
       = replicate n (V1.build_preview sources cfg w).1
     ∧ same_but_log w (repeat_calls (V1.build_preview sources cfg) n w).2)
    ∧ ((V2.build_preview sources cfg w).2 = w
       ∧ (repeat_calls (V2.build_preview sources cfg) n w).1
         = replicate n (V2.build_preview sources cfg w).1
       ∧ (repeat_calls (V2.build_preview sources cfg) n w).2 = w).
Proof.
  intros sources cfg w n. split.
  - assert (Hb : ∀ w, ∃ w', V1.build_preview sources cfg w = (V1_plan w cfg sources [], w')
                            ∧ same_but_log w w')
      by (intros w0; apply V1_preview_sources).
    destruct (Hb w) as (w1 & Hrun & Hs). rewrite Hrun. simpl. split; [done|].
    apply (repeat_calls_same _ (λ w, V1_plan w cfg sources [])); [done|].
    intros w0 w0' H. by apply V1_plan_same.
  - rewrite V2_build_preview_total. simpl. split; [done|].
    assert (Hn : ∀ n, repeat_calls (V2.build_preview sources cfg) n w
                      = (replicate n (Ret (V2_plan w cfg sources)), w)).
    { clear n. induction n as [|n IH]; simpl; [done|].
      by rewrite V2_build_preview_total, IH. }
    by rewrite Hn.
Qed.

(** ** Batches *)

Lemma V1_perform_moves_loop plan w :
  V1.perform_moves plan w
  = match for_each plan V1.move_entry [] w with
    | (Ret performed, w0) =>
        (Ret performed,
         match performed with
         | [] => w0
         | _ :: _ =>
             add_log INFO ("Wrote last run with " +:+ decimal (length performed)
                           +:+ " moves to " +:+ path_str (LAST_RUN_PATH w0))
                     (set_last_run_file (Some (Run (clock w0) performed)) w0)
         end)
    | (Raise ex, w0) => (Raise ex, w0)
    end.
Proof.
  unfold V1.perform_moves, bind.
  destruct (for_each plan V1.move_entry [] w) as [[[|r performed]|ex] w0]; done.
Qed.

Lemma V2_perform_moves_loop plan w :
  V2.perform_moves plan w
  = match for_each plan V2.move_entry [] w with
    | (Ret performed, w0) =>
        (Ret performed,
         match performed with
         | [] => w0
         | _ :: _ => set_last_run_file (Some (Run (clock w0) performed)) w0
         end)
    | (Raise ex, w0) => (Raise ex, w0)
    end.
Proof.
  unfold V2.perform_moves, bind.
  destruct (for_each plan V2.move_entry [] w) as [[[|r performed]|ex] w0]; done.
Qed.







(** ** Collision safety *)

(** A check of [wf_fs] that computes. *)
Lemma wf_fs_check (F : gmap (list string) node) :
  F !! [] = Some Dir →
  map_Forall (λ k _, k = [] ∨ F !! removelast k = Some Dir) F →
  wf_fs F.
Proof.
  intros Hroot Hall. split; [done|]. intros k x [n Hn].
  destruct (Hall _ _ Hn) as [E|E]; [by destruct k|].
  by rewrite removelast_app_one in E.
Qed.

Lemma step_frame w src acc r w' k n :
  step_spec w src acc r w' → wf_fs (files w) →
  files w !! k = Some n → drop_prefix (resolve w src) k = None →
  files w' !! k = Some n.
Proof.
  intros [(ex & _ & ->)|(G & Hext & HwfG & _ & _ & Hcase)] Hwf Hk Hs; [done|].
  assert (HG : G !! k = Some n) by by eapply extends_Some.
  destruct Hcase as [[_ ->]|[(safe & c & _ & _ & Hsrc & Hd & _ & ->)
                             |(safe & _ & _ & _ & _ & Hframe)]].
  - done.
  - rewrite lookup_insert_ne by congruence.
    rewrite lookup_delete_ne; [done|]. intros <-. by rewrite drop_prefix_self in Hs.
  - by apply Hframe.
Qed.

(** C5 (collision-safe final path).  For a destination that [Path] built:
    when nothing exists there, [_unique_dest] returns it; otherwise it returns
    the path with the same parent whose name is stem, "_k", suffix, for the
    least [k] from 1 on at which nothing exists, where stem followed by
    suffix is the destination's name.  And a step of [perform_moves], in
    either variant, leaves every file and directory that is not the moved
    source (or below it) where it was, with its content. *)
Theorem C5_collision_safe_path :
  (∀ w dest,
      wf_path dest →
      (path_exists w dest = false → _unique_dest w dest = dest)
      ∧ (path_exists w dest = true →
         ∃ k, 1 ≤ k
              ∧ _unique_dest w dest = candidate dest k
              ∧ path_parts (candidate dest k)
                = removelast (path_parts dest)
                  ++ [path_stem dest +:+ "_" +:+ decimal k +:+ path_suffix dest]
              ∧ path_anchor (candidate dest k) = path_anchor dest
              ∧ path_stem dest +:+ path_suffix dest = path_name dest
              ∧ path_exists w (candidate dest k) = false
              ∧ ∀ j, 1 ≤ j < k → path_exists w (candidate dest j) = true))
  ∧ move_keeps_others V1.move_entry
  ∧ move_keeps_others V2.move_entry.
Proof.
  split; [|split].
  - intros w dest Hd.
    destruct (unique_dest_spec w dest Hd) as [[E Hu]|[E (k & Hk & Hu & Hfree & Hmin)]].
    + split; [done|]. intros E'. congruence.
    + split; [intros E'; congruence|]. intros _. exists k.
      split; [done|]. split; [done|].
      split; [by rewrite candidate_parts|]. split; [by rewrite candidate_parts|].
      split; [apply stem_suffix|]. done.
  - intros e acc w r w' k n Hwf H. eapply step_frame; [|done]. by apply V1_move_entry_spec.
  - intros e acc w r w' k n Hwf H. eapply step_frame; [|done]. by apply V2_move_entry_spec.
Qed.

Lemma world_C_wf : wf_world world_C.
Proof.
  split; [|vm_compute; reflexivity].
  apply wf_fs_check; [vm_compute; reflexivity|].
  refine (bool_decide_unpack _ _). vm_compute. exact I.
Defined.

Lemma C5_collision_safe_path_witness :
  (∃ k, 1 ≤ k
        ∧ _unique_dest world_C (path_of_str "/d/Images/photo.png")
          = candidate (path_of_str "/d/Images/photo.png") k
        ∧ path_parts (candidate (path_of_str "/d/Images/photo.png") k)
          = ["d"; "Images"] ++ ["photo" +:+ "_" +:+ decimal k +:+ ".png"]
        ∧ path_anchor (candidate (path_of_str "/d/Images/photo.png") k) = Root
        ∧ "photo" +:+ ".png" = "photo.png"
        ∧ path_exists world_C (candidate (path_of_str "/d/Images/photo.png") k) = false
        ∧ ∀ j, 1 ≤ j < k →
               path_exists world_C (candidate (path_of_str "/d/Images/photo.png") j) = true)
  ∧ files (V1.move_entry entry_C [] world_C).2 !! ["d"; "Images"; "photo.png"]
    = Some (File "old")
  ∧ files (V1.move_entry entry_C [] world_C).2 !! ["d"; "Images"; "photo_1.png"]
    = Some (File "new")
  ∧ files (V2.move_entry entry_C [] world_C).2 !! ["d"; "Images"; "photo.png"]
    = Some (File "old").
Proof.
  split; [|split; [|split]].
  - apply (proj2 (proj1 C5_collision_safe_path world_C (path_of_str "/d/Images/photo.png")
                   (path_of_str_wf _))).
    vm_compute. reflexivity.
  - apply (proj1 (proj2 C5_collision_safe_path) entry_C [] world_C
             (V1.move_entry entry_C [] world_C).1).
    + apply world_C_wf.
    + by destruct (V1.move_entry entry_C [] world_C).
    + vm_compute. reflexivity.
    + vm_compute. reflexivity.
  - vm_compute. reflexivity.
  - apply (proj2 (proj2 C5_collision_safe_path) entry_C [] world_C
             (V2.move_entry entry_C [] world_C).1).
    + apply world_C_wf.
    + by destruct (V2.move_entry entry_C [] world_C).
    + vm_compute. reflexivity.
    + vm_compute. reflexivity.
Defined.

(** ** Round trip *)

Lemma round_trip_loops move_entry undo_move plan w R w0 w1 :
  (∀ e acc w r w', move_entry e acc w = (r, w') →
                   step_spec w (path_of_str (e_src e)) acc r w') →
  undo_step_spec undo_move →
  wf_world w →
  NoDup (map (λ e, resolve w (path_of_str (e_src e))) plan) →
  Forall (λ e, is_file w (path_of_str (e_src e)) = true) plan →
  for_each plan move_entry [] w = (Ret R, w0) →
  cwd w1 = cwd w0 → files w1 = files w0 →
  Forall (λ r, is_dir w1 (path_of_str (mv_src r)) = false) R →
  ∃ u', for_each (rev R) undo_move [] w1 = (Ret [], u')
        ∧ extends (files w) (files u')
        ∧ last_run_file u' = last_run_file w1.
Proof.
  intros Hstep Hundo Hw Hnd Hfiles Hloop Hc Hf H2.
  destruct (batch_roundtrip _ _ Hstep Hundo _ _ _ _ _ Hloop Hw Hnd Hfiles)
    as (R' & HR & Hcwd & [Hwf0 _] & Hback).
  simpl in HR. subst R'.
  destruct (Hback w1 []) as (u' & Hrun & _ & Hext & _ & _ & Hlr).
  - by rewrite Hf.
  - congruence.
  - rewrite Hf. apply extends_refl.
  - done.
  - by exists u'.
Qed.

(** C3 (round trip), as amended.  In both variants: for a plan whose entries
    name pairwise distinct regular files of a well-formed file system, after
    a batch in which [perform_moves] recorded at least one move and made no
    directory at a record's original path, [undo_last_run] called right away
    returns success with the message "Undid N moves." for N the number of
    records, every regular file is again at the path and with the content it
    had before the batch (the directories the batch made stay), and a second
    [undo_last_run] fails with "No last run recorded.". *)
Theorem C3_round_trip :
  round_trip_law V1.perform_moves V1.undo_last_run
  ∧ round_trip_law V2.perform_moves V2.undo_last_run.
Proof.
  split; intros plan w performed w1 Hw Hnd Hfiles H Hne H2.
  - rewrite V1_perform_moves_loop in H.
    destruct (for_each plan V1.move_entry [] w) as [[R|ex] w0] eqn:Hloop; [|done].
    injection H as -> Hw1. destruct performed as [|r0 R]; [done|].
    assert (Hc1 : cwd w1 = cwd w0) by by rewrite <- Hw1.
    assert (Hf1 : files w1 = files w0) by by rewrite <- Hw1.
    assert (Hl1 : last_run_file w1 = Some (Run (clock w0) (r0 :: R))) by by rewrite <- Hw1.
    destruct (round_trip_loops _ _ _ _ _ _ w1 V1_move_entry_spec V1_undo_step Hw Hnd
                Hfiles Hloop Hc1 Hf1 H2) as (u' & Hrun & Hext & Hlr).
    exists (set_last_run_file None u'), (set_last_run_file None u').
    unfold V1.undo_last_run, bind, get. rewrite Hl1.
    cbn [moves]. rewrite Hrun. unfold modify, ret. simpl.
    split; [done|]. split; [done|]. split; [intros k c; by apply extends_files|done].
  - rewrite V2_perform_moves_loop in H.
    destruct (for_each plan V2.move_entry [] w) as [[R|ex] w0] eqn:Hloop; [|done].
    injection H as -> Hw1. destruct performed as [|r0 R]; [done|].
    assert (Hc1 : cwd w1 = cwd w0) by by rewrite <- Hw1.
    assert (Hf1 : files w1 = files w0) by by rewrite <- Hw1.
    assert (Hl1 : last_run_file w1 = Some (Run (clock w0) (r0 :: R))) by by rewrite <- Hw1.
    destruct (round_trip_loops _ _ _ _ _ _ w1 V2_move_entry_spec V2_undo_step Hw Hnd
                Hfiles Hloop Hc1 Hf1 H2) as (u' & Hrun & Hext & Hlr).
    exists (set_last_run_file None u'), (set_last_run_file None u').
    unfold V2.undo_last_run, bind, get. rewrite Hl1.
    cbn [moves]. rewrite Hrun. unfold modify, ret. simpl.
    split; [done|]. split; [done|]. split; [intros k c; by apply extends_files|done].
Qed.

Lemma C3_round_trip_witness :
  ∃ w2 w3,
    V1.undo_last_run (V1.perform_moves [entry_C] world_C).2
    = (Ret (true, "Undid " +:+ decimal 1 +:+ " moves."), w2)
    ∧ extends (files world_C) (files w2)
    ∧ (∀ k c, files w2 !! k = Some (File c) ↔ files world_C !! k = Some (File c))
    ∧ V1.undo_last_run w2 = (Ret (false, "No last run recorded."), w3).
Proof.
  apply (proj1 C3_round_trip [entry_C] world_C
           [Move "/d/photo.png" "/d/Images/photo_1.png"]
           (V1.perform_moves [entry_C] world_C).2).
  - apply world_C_wf.
  - vm_compute. repeat constructor. by intros ?%elem_of_nil.
  - constructor; [vm_compute; reflexivity|constructor].
  - vm_compute. reflexivity.
  - discriminate.
  - constructor; [vm_compute; reflexivity|constructor].
Defined.

(** C3 as stated fails, in both variants.  [plan_N] holds the entries
    [build_preview] computes for the folder; they name two distinct regular
    files, and both are moved ([/d/notes] away first, then [/d/x.txt] into the
    new folder [/d/notes]).  [undo_last_run] reports "Undid 2 moves.", yet
    [/d/notes] is now the directory the batch made and the file that was there
    is back as [/d/notes_1]. *)
Lemma C3_counterexample :
  (∃ plan, V1.build_preview [folder_A] cfg_N world_N = (Ret plan, world_N)
           ∧ plan ≡ₚ plan_N)
  ∧ Forall (λ e, is_file world_N (path_of_str (e_src e)) = true) plan_N
  ∧ (let w1 := (V1.perform_moves plan_N world_N).2 in
     let w2 := (V1.undo_last_run w1).2 in
     V1.perform_moves plan_N world_N
     = (Ret [Move "/d/notes" "/d/Others/notes"; Move "/d/x.txt" "/d/notes/x.txt"], w1)
     ∧ is_dir w1 (path_of_str "/d/notes") = true
     ∧ V1.undo_last_run w1 = (Ret (true, "Undid 2 moves."), w2)
     ∧ stat world_N (path_of_str "/d/notes") = Some (File "n")
     ∧ stat w2 (path_of_str "/d/notes") = Some Dir
     ∧ stat w2 (path_of_str "/d/notes_1") = Some (File "n"))
  ∧ (let w1 := (V2.perform_moves plan_N world_N).2 in
     let w2 := (V2.undo_last_run w1).2 in
     V2.perform_moves plan_N world_N
     = (Ret [Move "/d/notes" "/d/Others/notes"; Move "/d/x.txt" "/d/notes/x.txt"], w1)
     ∧ V2.undo_last_run w1 = (Ret (true, "Undid 2 moves."), w2)
     ∧ stat w2 (path_of_str "/d/notes") = Some Dir
     ∧ stat w2 (path_of_str "/d/notes_1") = Some (File "n")).
Proof.
  split; [|split; [|split]].
  - eexists. split; [vm_compute; reflexivity|]. apply perm_swap.
  - repeat constructor.
  - vm_compute. by repeat split.
  - vm_compute. by repeat split.
Qed.

(** Why the plan must name distinct regular files: a plan that names
    [/d/a] twice and so moves a directory the batch itself made.  [/d/a] goes to [/d/X/a]; [/d/b] goes
    into a new folder [/d/a]; that folder is then moved to [/d/Z/a].  After
    the batch no original path is a directory, all three moves are undone
    "successfully", and the file [/d/a] comes back as [/d/a_1]. *)
Example round_trip_directory_source :
  let w := example_world [(["d"; "a"], File "A"); (["d"; "b"], File "B")] None in
  let plan := [Entry "/d/a" "Others" "/d/X/a"; Entry "/d/b" "Others" "/d/a/b";
               Entry "/d/a" "Others" "/d/Z/a"] in
  let w1 := (V1.perform_moves plan w).2 in
  let w2 := (V1.undo_last_run w1).2 in
  (V1.perform_moves plan w).1
  = Ret [Move "/d/a" "/d/X/a"; Move "/d/b" "/d/a/b"; Move "/d/a" "/d/Z/a"]
  ∧ is_dir w1 (path_of_str "/d/a") = false ∧ is_dir w1 (path_of_str "/d/b") = false
  ∧ (V1.undo_last_run w1).1 = Ret (true, "Undid 3 moves.")
  ∧ stat w2 (path_of_str "/d/a") = Some Dir
  ∧ stat w2 (path_of_str "/d/a_1") = Some (File "A").
Proof. vm_compute. by repeat split. Qed.

(** An empty batch records nothing, and undo then has nothing to undo. *)
Example round_trip_empty_batch :
  V1.perform_moves [] world_A = (Ret [], world_A)
  ∧ V1.undo_last_run world_A = (Ret (false, "No last run recorded."), world_A)
  ∧ V2.perform_moves [] world_A = (Ret [], world_A)
  ∧ V2.undo_last_run world_A = (Ret (false, "No last run recorded."), world_A).
Proof. vm_compute. by repeat split. Qed.

(** When [mkdir] fails for an entry, [perform_moves] raises in both
    variants: the entries after it are not tried and the last-run file is not
    written, although an earlier entry has been moved. *)
Example perform_moves_mkdir_raises :
  let w := example_world [(["d"; "report.pdf"], File "%PDF");
                          (["d"; "other.txt"], File "o")] None in
  let plan := [Entry "/d/report.pdf" "Documents" "/d/Documents/report.pdf";
               Entry "/d/other.txt" "T" "/d/Documents/report.pdf/T/other.txt"] in
  (V1.perform_moves plan w).1 = Raise (NotADirectoryError "/d/Documents/report.pdf/T")
  ∧ stat (V1.perform_moves plan w).2 (path_of_str "/d/Documents/report.pdf")
    = Some (File "%PDF")
  ∧ last_run_file (V1.perform_moves plan w).2 = None
  ∧ (V2.perform_moves plan w).1 = Raise (NotADirectoryError "/d/Documents/report.pdf/T")
  ∧ last_run_file (V2.perform_moves plan w).2 = None.
Proof. vm_compute. by repeat split. Qed.

(** ** The rule store *)

(** C2, v1 at the failing input: a configuration file that is not JSON
    makes [load_config] raise what [json.load] raises; nothing is logged and
    no default is returned. *)
Theorem C2_v1_load_config_raises :
  ∀ w text,
    config_file w = Some (Garbage text) →
    V1.load_config w = (Raise JSONDecodeError, w).
Proof. intros w text H. unfold V1.load_config, bind, get. by rewrite H. Qed.

Lemma C2_v1_load_config_raises_witness :
  V1.load_config world_G = (Raise JSONDecodeError, world_G).
Proof. apply (C2_v1_load_config_raises world_G "{ categories: "). reflexivity. Defined.

(** What C2 asks for holds of v2 when the file is not JSON: the condition is
    logged and the built-in default is returned. *)
Lemma V2_load_config_garbage w text :
  config_file w = Some (Garbage text) →
  V2.load_config w
  = (Ret V2.DEFAULT_CONFIG,
     add_log ERROR ("Config corrupted, using defaults: " +:+ exn_str JSONDecodeError) w).
Proof. intros H. unfold V2.load_config, bind, get. by rewrite H. Qed.

(** v2 never raises from [load_config]. *)
Lemma V2_load_config_returns w : ∃ cfg w', V2.load_config w = (Ret cfg, w').
Proof.
  unfold V2.load_config, bind, get.
  destruct (config_file w) as [content|]; [|by eauto].
  unfold try_except, bind.
  destruct content as [text|cfg]; [by eauto|]. unfold ret at 1.
  destruct (has_categories cfg) as [ex|[|]]; simpl; [by eauto|by eauto|].
  destruct (set_categories cfg V2.DEFAULT_CATEGORIES); simpl; by eauto.
Qed.

(** v2 tests the shape only by ["categories" in cfg]: a JSON text or list
    that contains the word is returned as it is. *)
Example V2_load_config_wrong_shape :
  (V2.load_config (set_config_file (Some (Doc (JStr "my categories"))) world_A)).1
  = Ret (JStr "my categories")
  ∧ (V2.load_config (set_config_file (Some (Doc (JArr [JStr "categories"]))) world_A)).1
    = Ret (JArr [JStr "categories"])
  ∧ (V2.load_config (set_config_file (Some (Doc (JArr []))) world_A)).1
    = Ret V2.DEFAULT_CONFIG
  ∧ (V1.load_config (set_config_file (Some (Doc (JArr []))) world_A)).1
    = Raise (TypeError "list indices must be integers or slices, not str").
Proof. vm_compute. by repeat split. Qed.

(** ** Undo *)

(** In v1 a reversal whose [mkdir] succeeds never raises: a failing move is
    collected as one line. *)
Lemma V1_undo_move_cases mv fl w :
  (∃ ex, V1.undo_move mv fl w = (Raise ex, w)
         ∧ mkdir (path_parent (path_of_str (mv_src mv))) w = (Raise ex, w))
  ∨ ∃ fl' w', V1.undo_move mv fl w = (Ret fl', w')
              ∧ (fl' = fl ∨ ∃ ex, fl' = fl ++ [failure_line mv ex]).
Proof.
  unfold V1.undo_move, bind.
  destruct (mkdir _ w) as [[[]|ex] w1] eqn:Hmk.
  - right. unfold try_except, bind, get.
    destruct (shutil_move _ _ w1) as [[[]|ex] w2];
      unfold log, modify, ret; eexists _, _; (split; [done|]); [by left|right; by eexists].
  - left. apply mkdir_cases in Hmk as [(ex' & [= <-] & ->)|(? & _)]; [|done]. by eauto.
Qed.

(** C8, v1 at the failing input: when [mkdir] of the original parent fails
    for the record that is undone first (the last of the run), the
    exception leaves [undo_last_run], since v1 calls [mkdir] outside its
    [try]: no (False, message) result is returned, the other records are not
    attempted and the world is as it was. *)
Theorem C8_v1_undo_aborts :
  ∀ w t ms mv ex,
    last_run_file w = Some (Run t (ms ++ [mv])) →
    mkdir (path_parent (path_of_str (mv_src mv))) w = (Raise ex, w) →
    V1.undo_last_run w = (Raise ex, w).
Proof.
  intros w t ms mv ex Hlr Hmk. unfold V1.undo_last_run, bind, get. rewrite Hlr.
  cbn [moves]. rewrite rev_app_distr. simpl.
  unfold bind, V1.undo_move at 1, bind. by rewrite Hmk.
Qed.

Lemma C8_v1_undo_aborts_witness :
  V1.undo_last_run world_U = (Raise (FileExistsError "/d/sub"), world_U)
  ∧ stat (V1.undo_last_run world_U).2 (path_of_str "/d/a.txt") = None.
Proof.
  assert (H : V1.undo_last_run world_U = (Raise (FileExistsError "/d/sub"), world_U)).
  { apply (C8_v1_undo_aborts world_U "2024-04-30T09:00:00+00:00"
             [Move "/d/a.txt" "/d/Docs/a.txt"] (Move "/d/sub/b.txt" "/d/Docs/b.txt")).
    - reflexivity.
    - vm_compute. reflexivity. }
  split; [exact H|]. rewrite H. vm_compute. reflexivity.
Defined.

(** On the same input v2 does what C8 says: the failure is collected, the
    other record is undone, the result is a failure that names the failed
    reversal with its reason, and the last-run record stays. *)
Lemma V2_undo_at_world_U :
  let w' := (V2.undo_last_run world_U).2 in
  V2.undo_last_run world_U
  = (Ret (false, "Some undo's failed:" +:+ String "010"
                   "/d/Docs/b.txt -> /d/sub/b.txt: [Errno 17] File exists: '/d/sub'"), w')
  ∧ stat w' (path_of_str "/d/a.txt") = Some (File "a")
  ∧ last_run_file w' = last_run_file world_U.
Proof. vm_compute. by repeat split. Qed.

Lemma V2_undo_move_returns mv fl w :
  ∃ fl' w', V2.undo_move mv fl w = (Ret fl', w')
            ∧ (fl' = fl ∨ ∃ ex, fl' = fl ++ [failure_line mv ex])
            ∧ last_run_file w' = last_run_file w.
Proof.
  unfold V2.undo_move, try_except, bind.
  destruct (mkdir _ w) as [[[]|ex] w1] eqn:Hmk.
  - apply mkdir_cases in Hmk as [(ex & ? & _)|(_ & G & _ & -> & _)]; [done|].
    unfold get.
    destruct (shutil_move _ _ (set_files G w)) as [[[]|ex] w2] eqn:Hmv.
    + unfold ret. eexists _, _. split; [done|]. split; [by left|].
      unfold shutil_move in Hmv. repeat case_match; by simplify_eq.
    + unfold ret. eexists _, _. split; [done|]. split; [right; by eexists|].
      unfold shutil_move in Hmv. repeat case_match; by simplify_eq.
  - apply mkdir_cases in Hmk as [(ex' & [= <-] & ->)|(? & _)]; [|done].
    unfold ret. eexists _, _. split; [done|]. split; [right; by eexists|done].
Qed.

(** In v2 the loop of [undo_last_run] goes through every record whatever
    fails, and collects at most one line per record. *)
Lemma V2_undo_loop_returns l : ∀ fl w,
  ∃ fl' w', for_each l V2.undo_move fl w = (Ret (fl ++ fl'), w')
            ∧ length fl' ≤ length l
            ∧ last_run_file w' = last_run_file w.
Proof.
  induction l as [|mv l IH]; intros fl w; simpl.
  - exists [], w. by rewrite app_nil_r.
  - unfold bind. destruct (V2_undo_move_returns mv fl w) as (fl1 & w1 & -> & Hfl & Hlr).
    destruct (IH fl1 w1) as (fl2 & w2 & -> & Hlen & Hlr2).
    destruct Hfl as [->|(ex & ->)].
    + exists fl2, w2. split; [done|]. split; [lia|congruence].
    + exists (failure_line mv ex :: fl2), w2. rewrite <- app_assoc.
      split; [done|]. split; [simpl; lia|congruence].
Qed.

(** What C8 asks for holds of v2 in general: [undo_last_run] returns; it
    reports failure with the collected lines and keeps the last-run record
    when a reversal failed, and deletes the record only when none did. *)
Lemma V2_undo_last_run_accumulates w record :
  last_run_file w = Some record →
  ∃ failures w',
    for_each (rev (moves record)) V2.undo_move [] w = (Ret failures, w')
    ∧ last_run_file w' = Some record
    ∧ V2.undo_last_run w
      = match failures with
        | [] => (Ret (true, "Undid " +:+ decimal (length (moves record)) +:+ " moves."),
                 set_last_run_file None w')
        | _ :: _ => (Ret (false, "Some undo's failed:" +:+ String "010" (join_lines failures)),
                     w')
        end.
Proof.
  intros H.
  destruct (V2_undo_loop_returns (rev (moves record)) [] w) as (fl & w' & Hrun & _ & Hlr).
  simpl in Hrun. exists fl, w'. split; [done|]. split; [congruence|].
  unfold V2.undo_last_run, bind, get. rewrite H, Hrun. by destruct fl.
Qed.

(** Undoing a move, in either variant, leaves every file and directory
    that is not the file being moved back (or below it) where it was: the
    reversal goes to a path where nothing exists. *)
Lemma undo_to_fresh_frame w G src final r0 w2 k n :
  wf_path src → wf_path final →
  extends (files w) G → (wf_fs (files w) → wf_fs G) → wf_fs (files w) →
  path_exists (set_files G w) final = false →
  shutil_move (path_str src) (path_str final) (set_files G w) = (r0, w2) →
  files w !! k = Some n →
  drop_prefix (resolve w src) k = None →
  files w2 !! k = Some n.
Proof.
  intros Hsrc Hfinal Hext HwfG Hwf Hfresh Hmv Hk Hs.
  eapply (shutil_move_frame _ _ (set_files G w)); [by apply HwfG| |exact Hmv| |].
  - rewrite path_of_str_str by done. by apply path_exists_false.
  - by eapply extends_Some.
  - by rewrite path_of_str_str.
Qed.

Lemma V1_undo_keeps_others mv fl w r w' k n :
  wf_fs (files w) →
  V1.undo_move mv fl w = (r, w') →
  files w !! k = Some n →
  drop_prefix (resolve w (path_of_str (mv_dest mv))) k = None →
  files w' !! k = Some n.
Proof.
  intros Hwf H Hk Hs. unfold V1.undo_move, bind in H.
  destruct (mkdir _ w) as [r0 w1] eqn:Hmk.
  apply mkdir_cases in Hmk as [(ex & -> & ->)|(-> & G & HG & -> & Hext & HwfG)].
  { by injection H as <- <-. }
  unfold try_except, bind, get, log, modify, ret in H.
  set (src := path_of_str (mv_dest mv)) in *.
  set (dest := path_of_str (mv_src mv)) in *.
  set (final := if path_exists (set_files G w) dest
                then _unique_dest (set_files G w) dest else dest) in *.
  assert (Hfinal : wf_path final ∧ path_exists (set_files G w) final = false).
  { unfold final. destruct (path_exists (set_files G w) dest) eqn:E.
    - split; [apply unique_dest_wf|apply unique_dest_fresh]; apply path_of_str_wf.
    - split; [apply path_of_str_wf|done]. }
  destruct Hfinal as [Hfw Hff].
  destruct (shutil_move (path_str src) (path_str final) (set_files G w))
    as [[[]|ex] w2] eqn:Hmv; injection H as <- <-; simpl;
    by eapply (undo_to_fresh_frame w G src final); [apply path_of_str_wf|..].
Qed.

Lemma V2_undo_keeps_others mv fl w r w' k n :
  wf_fs (files w) →
  V2.undo_move mv fl w = (r, w') →
  files w !! k = Some n →
  drop_prefix (resolve w (path_of_str (mv_dest mv))) k = None →
  files w' !! k = Some n.
Proof.
  intros Hwf H Hk Hs. unfold V2.undo_move, try_except, bind in H.
  destruct (mkdir _ w) as [r0 w1] eqn:Hmk.
  apply mkdir_cases in Hmk as [(ex & -> & ->)|(-> & G & HG & -> & Hext & HwfG)].
  { by injection H as <- <-. }
  unfold get, ret in H.
  set (src := path_of_str (mv_dest mv)) in *.
  set (dest := path_of_str (mv_src mv)) in *.
  destruct (shutil_move (path_str src) (path_str (_unique_dest (set_files G w) dest))
              (set_files G w)) as [[[]|ex] w2] eqn:Hmv; injection H as <- <-;
    by eapply (undo_to_fresh_frame w G src (_unique_dest (set_files G w) dest));
      [apply path_of_str_wf|apply unique_dest_wf, path_of_str_wf|done|done|done
      |apply unique_dest_fresh, path_of_str_wf|..].
Qed.

(** * Further properties of the organizer and of the windows *)

(** ** [_unique_dest] and the extension *)

Lemma ends_with_dot_app pre : ends_with_dot (pre +:+ ".") = true.
Proof.
  induction pre as [|c pre IH]; [done|]. rewrite string_app_cons.
  simpl. destruct (pre +:+ ".") eqn:E; [by destruct pre|done].
Qed.

Lemma has_dot_cons c s :
  has_char "." (String c s) = if Ascii.eqb c "." then true else has_char "." s.
Proof. reflexivity. Qed.

Lemma rsplit_dot_no_dot s : has_char "." s = false → rsplit_dot s = (s, None).
Proof.
  induction s as [|c s IH]; [done|]. rewrite has_dot_cons. simpl.
  destruct (Ascii.eqb c "."); [done|]. intros H. by rewrite IH.
Qed.

Lemma rsplit_dot_last a r :
  has_char "." r = false → rsplit_dot (a +:+ String "." r) = (a, Some (String "." r)).
Proof.
  intros Hr. induction a as [|c a IH].
  - rewrite string_app_nil_l. simpl. by rewrite rsplit_dot_no_dot.
  - rewrite string_app_cons. simpl. by rewrite IH.
Qed.

Lemma rsplit_dot_Some s pre suf :
  rsplit_dot s = (pre, Some suf) → ∃ r, suf = String "." r ∧ has_char "." r = false.
Proof.
  revert pre. induction s as [|c s IH]; intros pre; [done|]. simpl.
  destruct (rsplit_dot s) as [p [sf|]] eqn:E.
  - intros [= <- <-]. by eapply IH.
  - destruct (Ascii.eqb c ".") eqn:Ec; [|done]. intros [= <- <-].
    apply Ascii.eqb_eq in Ec as ->. exists s. split; [done|].
    pose proof (rsplit_dot_app s) as Hs. rewrite E in Hs. subst p.
    clear IH. induction s as [|c s IH]; [done|]. simpl in E.
    rewrite has_dot_cons.
    destruct (rsplit_dot s) as [p [sf|]]; [done|].
    destruct (Ascii.eqb c "."); [done|]. apply IH. congruence.
Qed.

Lemma rsplit_dot_None s pre : rsplit_dot s = (pre, None) → has_char "." s = false.
Proof.
  revert pre. induction s as [|c s IH]; intros pre; [done|]. simpl.
  destruct (rsplit_dot s) as [p [sf|]]; [done|].
  destruct (Ascii.eqb c "."); [done|]. intros _. by eapply IH.
Qed.

Lemma string_of_uint_no_dot d : has_char "." (NilEmpty.string_of_uint d) = false.
Proof. induction d; simpl; done. Qed.

Lemma string_app_nonempty (a b : string) : a ≠ "" → a +:+ b ≠ "".
Proof. by destruct a. Qed.

(** The name stem, "_k", suffix has the suffix of the name it was made
    from, unless that name ends in a dot. *)
Lemma candidate_suffix p q k :
  ends_with_dot (path_name p) = false →
  path_name q = path_stem p +:+ "_" +:+ decimal k +:+ path_suffix p →
  path_suffix q = path_suffix p.
Proof.
  intros Hdot Hq. unfold path_suffix at 1. rewrite Hq. clear Hq.
  unfold path_stem, path_suffix.
  pose proof (rsplit_dot_app (path_name p)) as Hn.
  assert (Hdec : has_char "." ("_" +:+ decimal k) = false).
  { change ("_" +:+ decimal k) with (String "_" (decimal k)).
    rewrite has_dot_cons. simpl. apply string_of_uint_no_dot. }
  destruct (rsplit_dot (path_name p)) as [pre [suf|]] eqn:E.
  - destruct (rsplit_dot_Some _ _ _ E) as (r & -> & Hr).
    case_bool_decide as Hc.
    + rewrite <- !string_app_assoc. rewrite rsplit_dot_last by done.
      rewrite bool_decide_eq_true_2; [done|]. split; [|apply Hc].
      rewrite string_app_assoc. apply string_app_nonempty, Hc.
    + rewrite string_app_nil_r, Hn, string_app_assoc.
      change (String "." r +:+ "_" +:+ decimal k)
        with (String "." (r +:+ "_" +:+ decimal k)).
      rewrite rsplit_dot_last by (by rewrite has_char_app, Hr).
      case_bool_decide as Hc'; [|done]. exfalso.
      destruct r as [|c r]; [by rewrite Hn, ends_with_dot_app in Hdot|].
      apply Hc. split; [apply Hc'|simpl; lia].
  - apply rsplit_dot_None in E.
    rewrite string_app_nil_r, rsplit_dot_no_dot; [done|].
    by rewrite has_char_app, E.
Qed.

Lemma candidate_path_name dest k :
  wf_path dest → path_name (candidate dest k) = candidate_name dest k.
Proof.
  intros Hd. rewrite candidate_parts by done. unfold path_name. simpl.
  apply last_app_one.
Qed.

(** X1 (a renamed file keeps its extension).  For a destination that
    [Path] built and whose name does not end in a dot, the path that
    [_unique_dest] returns has the suffix of the destination, so
    [categorize_file] gives it the same category and the same destination
    root. *)
Theorem unique_dest_keeps_category w dest cfg :
  wf_path dest → ends_with_dot (path_name dest) = false →
  path_suffix (_unique_dest w dest) = path_suffix dest
  ∧ categorize_file (_unique_dest w dest) cfg = categorize_file dest cfg.
Proof.
  intros Hd Hdot.
  assert (Hs : path_suffix (_unique_dest w dest) = path_suffix dest).
  { destruct (unique_dest_spec w dest Hd) as [[_ ->]|[_ (k & _ & -> & _)]]; [done|].
    apply (candidate_suffix dest _ k); [done|]. by rewrite candidate_path_name. }
  split; [done|]. unfold categorize_file. by rewrite Hs.
Qed.

Lemma unique_dest_keeps_category_witness :
  path_suffix (_unique_dest world_C (path_of_str "/d/Images/photo.png"))
  = path_suffix (path_of_str "/d/Images/photo.png")
  ∧ categorize_file (_unique_dest world_C (path_of_str "/d/Images/photo.png")) cfg_A
    = categorize_file (path_of_str "/d/Images/photo.png") cfg_A.
Proof.
  apply (unique_dest_keeps_category world_C (path_of_str "/d/Images/photo.png") cfg_A).
  - apply path_of_str_wf.
  - reflexivity.
Defined.

(** A name that ends in a dot has no suffix, but its candidates have one. *)
Example unique_dest_dot_name :
  let w := example_world [(["d"; "a."], File "x")] None in
  path_suffix (path_of_str "/d/a.") = ""
  ∧ _unique_dest w (path_of_str "/d/a.") = path_of_str "/d/a._1"
  ∧ path_suffix (_unique_dest w (path_of_str "/d/a.")) = "._1".
Proof. vm_compute. done. Qed.

(** ** The configuration file *)

(** The value [load_config] computes from a document, in v1. *)
Lemma V1_load_doc cfg :
  ∃ r, ∀ w, config_file w = Some (Doc cfg) → V1.load_config w = (r, w).
Proof.
  destruct (has_categories cfg) as [e|[]] eqn:Eh.
  - exists (Raise e). intros w Hw. unfold V1.load_config, bind, get. by rewrite Hw, Eh.
  - exists (Ret cfg). intros w Hw. unfold V1.load_config, bind, get. by rewrite Hw, Eh.
  - destruct (set_categories cfg V1.DEFAULT_CATEGORIES) as [e|j] eqn:Es.
    + exists (Raise e). intros w Hw. unfold V1.load_config, bind, get. rewrite Hw, Eh. simpl.
      by rewrite Es.
    + exists (Ret j). intros w Hw. unfold V1.load_config, bind, get. rewrite Hw, Eh. simpl.
      by rewrite Es.
Qed.

Lemma V2_load_some content :
  ∃ cfg, ∀ w, config_file w = Some content →
    ∃ w1, V2.load_config w = (Ret cfg, w1) ∧ same_but_log w w1.
Proof.
  destruct content as [t|cfg].
  { exists V2.DEFAULT_CONFIG. intros w Hw. eexists.
    unfold V2.load_config, bind, get. rewrite Hw. simpl. split; [reflexivity|].
    by repeat split. }
  destruct (has_categories cfg) as [e|[]] eqn:Eh.
  - exists V2.DEFAULT_CONFIG. intros w Hw. eexists.
    unfold V2.load_config, bind, get, try_except. rewrite Hw. simpl. rewrite Eh. simpl.
    split; [reflexivity|]. by repeat split.
  - exists cfg. intros w Hw. exists w.
    unfold V2.load_config, bind, get, try_except. rewrite Hw. simpl. rewrite Eh. simpl.
    split; [reflexivity|]. apply same_but_log_refl.
  - destruct (set_categories cfg V2.DEFAULT_CATEGORIES) as [e|j] eqn:Es.
    + exists V2.DEFAULT_CONFIG. intros w Hw. eexists.
      unfold V2.load_config, bind, get, try_except. rewrite Hw. simpl. rewrite Eh. simpl.
      rewrite Es. simpl. split; [reflexivity|]. by repeat split.
    + exists j. intros w Hw. exists w.
      unfold V2.load_config, bind, get, try_except. rewrite Hw. simpl. rewrite Eh. simpl.
      rewrite Es. simpl. split; [reflexivity|]. apply same_but_log_refl.
Qed.

(** X3 ([load_config] settles).  In both variants [load_config] writes the
    configuration file only when there is none, and then it writes the
    built-in configuration; it leaves the files, the directories and the
    last-run record as they are; and a second call returns what the first
    one returned and writes nothing.  In v2 the call never raises. *)
Theorem load_config_settles :
  (∀ w,
     let first := V1.load_config w in
     let second := V1.load_config first.2 in
     config_file first.2
     = match config_file w with
       | None => Some (Doc V1.DEFAULT_CONFIG)
       | Some content => Some content
       end
     ∧ files first.2 = files w ∧ last_run_file first.2 = last_run_file w
     ∧ second.1 = first.1 ∧ config_file second.2 = config_file first.2)
  ∧ (∀ w,
       let first := V2.load_config w in
       let second := V2.load_config first.2 in
       (∃ cfg, first.1 = Ret cfg)
       ∧ config_file first.2
         = match config_file w with
           | None => Some (Doc V2.DEFAULT_CONFIG)
           | Some content => Some content
           end
       ∧ files first.2 = files w ∧ last_run_file first.2 = last_run_file w
       ∧ second.1 = first.1 ∧ config_file second.2 = config_file first.2).
Proof.
  split; intros w; simpl.
  - destruct (config_file w) as [[t|cfg]|] eqn:Hw.
    + assert (H : V1.load_config w = (Raise JSONDecodeError, w))
        by (unfold V1.load_config, bind, get; by rewrite Hw).
      rewrite H. simpl. by rewrite H.
    + destruct (V1_load_doc cfg) as [r Hr]. rewrite (Hr w Hw). simpl.
      by rewrite (Hr w Hw).
    + assert (H : ∃ w1, V1.load_config w = (Ret V1.DEFAULT_CONFIG, w1)
                        ∧ config_file w1 = Some (Doc V1.DEFAULT_CONFIG)
                        ∧ files w1 = files w ∧ last_run_file w1 = last_run_file w).
      { eexists. unfold V1.load_config, bind, get. rewrite Hw. simpl. by split. }
      destruct H as (w1 & H & Hc & Hf & Hl). rewrite H. simpl.
      destruct (V1_load_doc V1.DEFAULT_CONFIG) as [r Hr].
      assert (r = Ret V1.DEFAULT_CONFIG) as ->.
      { specialize (Hr (set_config_file (Some (Doc V1.DEFAULT_CONFIG)) w) eq_refl).
        unfold V1.load_config, bind, get, ret in Hr. simpl in Hr. congruence. }
      by rewrite (Hr w1 Hc).
  - destruct (config_file w) as [content|] eqn:Hw.
    + destruct (V2_load_some content) as [cfg Hc].
      destruct (Hc w Hw) as (w1 & H1 & Hs). rewrite H1. simpl.
      destruct Hs as (_ & _ & _ & _ & Hf & Hcf & Hl).
      destruct (Hc w1 ltac:(congruence)) as (w2 & H2 & Hs2). rewrite H2. simpl.
      destruct Hs2 as (_ & _ & _ & _ & _ & Hcf2 & _).
      split; [by eexists|]. repeat split; congruence.
    + assert (H : ∃ w1, V2.load_config w = (Ret V2.DEFAULT_CONFIG, w1)
                        ∧ config_file w1 = Some (Doc V2.DEFAULT_CONFIG)
                        ∧ files w1 = files w ∧ last_run_file w1 = last_run_file w).
      { eexists. unfold V2.load_config, bind, get. rewrite Hw. simpl. by split. }
      destruct H as (w1 & H & Hc & Hf & Hl). rewrite H. simpl.
      destruct (V2_load_some (Doc V2.DEFAULT_CONFIG)) as [cfg Hr].
      assert (cfg = V2.DEFAULT_CONFIG) as ->.
      { destruct (Hr (set_config_file (Some (Doc V2.DEFAULT_CONFIG)) w) eq_refl)
          as (w2 & H2 & _).
        unfold V2.load_config, bind, get, try_except, ret in H2. simpl in H2. congruence. }
      destruct (Hr w1 Hc) as (w2 & H2 & Hs2). rewrite H2. simpl.
      destruct Hs2 as (_ & _ & _ & _ & _ & Hcf2 & _).
      split; [by eexists|]. repeat split; congruence.
Qed.

(** X2 (saving and loading the configuration).  In both variants,
    [load_config] right after [save_config] of a dict returns that dict when
    it has the key "categories", and the dict with the built-in categories
    added under that key, as its last key, when it has not; the file keeps
    what was saved. *)
Theorem config_round_trip l w :
  let saved := JObj l in
  let back := if bool_decide ("categories" ∈ map fst l) then saved
              else JObj (l ++ [("categories", V1.DEFAULT_CATEGORIES)]) in
  let back2 := if bool_decide ("categories" ∈ map fst l) then saved
               else JObj (l ++ [("categories", V2.DEFAULT_CATEGORIES)]) in
  ((V1.save_config saved ;; V1.load_config) w).1 = Ret back
  ∧ config_file ((V1.save_config saved ;; V1.load_config) w).2 = Some (Doc saved)
  ∧ ((V2.save_config saved ;; V2.load_config) w).1 = Ret back2
  ∧ config_file ((V2.save_config saved ;; V2.load_config) w).2 = Some (Doc saved).
Proof.
  simpl. unfold V1.save_config, V2.save_config, V1.load_config, V2.load_config,
    bind, get, modify, log, try_except. simpl.
  case_bool_decide; simpl; done.
Qed.

(** ** The plan *)

Lemma wf_names_check (F : gmap (list string) node) :
  map_Forall (λ k _, Forall valid_part k) F → wf_names F.
Proof. intros H k [n Hn]. by apply (H k n). Qed.

Lemma listdir_elem F k n : n ∈ listdir F k ↔ is_Some (F !! (k ++ [n])).
Proof.
  unfold listdir. rewrite list_elem_of_omap. split.
  - intros ([key v] & Hin & Hf). apply elem_of_map_to_list in Hin. simpl in Hf.
    destruct (drop_prefix k key) as [[|x [|]]|] eqn:E; simplify_eq.
    apply drop_prefix_Some in E as ->. eauto.
  - intros [v Hv]. exists (k ++ [n], v). split; [by apply elem_of_map_to_list|]. simpl.
    assert (drop_prefix k (k ++ [n]) = Some [n]) as -> by by apply drop_prefix_Some.
    done.
Qed.

Lemma listdir_NoDup F k : NoDup (listdir F k).
Proof.
  unfold listdir. pose proof (NoDup_fst_map_to_list F) as H.
  induction (map_to_list F) as [|[key v] l IH]; simpl; [constructor|].
  simpl in H. apply NoDup_cons in H as [Hnotin Hnd].
  destruct (drop_prefix k key) as [[|x [|]]|] eqn:E; try by apply IH.
  constructor; [|by apply IH].
  intros Hin. apply list_elem_of_omap in Hin as ([key' v'] & Hin & Hf). simpl in Hf.
  destruct (drop_prefix k key') as [[|x' [|]]|] eqn:E'; simplify_eq.
  apply drop_prefix_Some in E, E'. subst. apply Hnotin.
  apply list_elem_of_fmap. by exists (k ++ [x], v').
Qed.

Lemma resolve_child w source n : resolve w (child source n) = resolve w source ++ [n].
Proof. unfold child. rewrite resolve_snoc. by destruct source. Qed.

Lemma child_inj source n1 n2 : child source n1 = child source n2 → n1 = n2.
Proof. intros [= H]. by apply app_inj_tail in H as [_ H]. Qed.

Lemma regular_files_elem w source item :
  item ∈ regular_files w source
  ↔ ∃ n c, item = child source n ∧ files w !! (resolve w source ++ [n]) = Some (File c).
Proof.
  unfold regular_files, children. rewrite list_elem_of_filter. split.
  - intros [Hf Hin]. apply list_elem_of_fmap in Hin as (n & -> & Hn).
    fold (child source n) in *. apply is_file_lookup in Hf as [c Hc].
    rewrite resolve_child in Hc. by exists n, c.
  - intros (n & c & -> & Hc). split.
    + apply is_file_lookup. exists c. by rewrite resolve_child.
    + apply list_elem_of_fmap. exists n. split; [done|]. apply listdir_elem. by eexists.
Qed.

Lemma regular_files_NoDup w source : NoDup (regular_files w source).
Proof.
  unfold regular_files, children. apply NoDup_filter.
  apply NoDup_fmap_2_strong; [|apply listdir_NoDup].
  intros n1 n2 _ _. apply child_inj.
Qed.

Lemma child_wf w source n :
  wf_path source → wf_names (files w) → is_Some (files w !! (resolve w source ++ [n])) →
  wf_path (child source n).
Proof.
  intros Hs Hn Hk. apply Hn in Hk. apply Forall_app in Hk as [_ Hk].
  unfold wf_path, child. simpl. apply Forall_app. split; [done|]. done.
Qed.

Lemma regular_files_wf w source item :
  wf_path source → wf_names (files w) → item ∈ regular_files w source → wf_path item.
Proof.
  intros Hs Hn (n & c & -> & Hc)%regular_files_elem.
  eapply child_wf; [done..|]. by eexists.
Qed.

Lemma V1_plan_flat w cfg sources : ∀ acc plan,
  V1_plan w cfg sources acc = Ret plan →
  plan = acc ++ plan_by w (λ source, V1_planned source cfg) sources.
Proof.
  unfold plan_by.
  induction sources as [|s rest IH]; intros acc plan H; simpl in H.
  - injection H as <-. by rewrite app_nil_r.
  - unfold is_dir at 1. destruct (stat w s) as [[c|]|] eqn:E; [done| |].
    + rewrite filter_cons_True by (unfold is_dir; by rewrite E). simpl.
      rewrite (IH _ _ H). by rewrite <- app_assoc.
    + rewrite filter_cons_False by (unfold is_dir; by rewrite E). by apply IH.
Qed.

Lemma V2_plan_flat w cfg sources :
  V2_plan w cfg sources = plan_by w (λ _, V2_planned cfg) sources.
Proof. done. Qed.

Lemma V1_build_preview_flat sources cfg w plan w' :
  V1.build_preview sources cfg w = (Ret plan, w') →
  plan = plan_by w (λ source, V1_planned source cfg) sources.
Proof.
  unfold V1.build_preview. intros H.
  destruct (V1_preview_sources cfg sources [] w) as (w1 & Hrun & _).
  rewrite Hrun in H. injection H as H _. by apply V1_plan_flat in H.
Qed.

Lemma V2_build_preview_flat sources cfg w plan w' :
  V2.build_preview sources cfg w = (Ret plan, w') →
  plan = plan_by w (λ _, V2_planned cfg) sources.
Proof. rewrite V2_build_preview_total. by intros [= <- _]. Qed.

Lemma plan_by_elem w planned sources e :
  e ∈ plan_by w planned sources
  ↔ ∃ source n c, source ∈ sources ∧ is_dir w source = true
                  ∧ files w !! (resolve w source ++ [n]) = Some (File c)
                  ∧ e = planned source (child source n).
Proof.
  unfold plan_by. rewrite list_elem_of_In, in_flat_map. split.
  - intros (source & Hs & He). apply list_elem_of_In, list_elem_of_filter in Hs as [Hd Hs].
    apply list_elem_of_In, list_elem_of_fmap in He as (item & -> & Hi).
    apply regular_files_elem in Hi as (n & c & -> & Hc). by exists source, n, c.
  - intros (source & n & c & Hs & Hd & Hc & ->). exists source. split.
    + apply list_elem_of_In, list_elem_of_filter. by split.
    + apply list_elem_of_In, list_elem_of_fmap. exists (child source n). split; [done|].
      apply regular_files_elem. by exists n, c.
Qed.

(** X4 (what the planner lists).  In both variants a text is the source of
    an entry of the plan exactly when it is the text of [source / name] for a
    source of the list that is a directory and a name under which that
    directory directly holds a regular file: every such file is planned, and
    nothing else is (no directory, nothing deeper down). *)
Theorem build_preview_lists_regular_files :
  (∀ sources cfg w plan w' s,
      V1.build_preview sources cfg w = (Ret plan, w') →
      (∃ e, e ∈ plan ∧ e_src e = s)
      ↔ ∃ source n c, source ∈ sources ∧ is_dir w source = true
                      ∧ files w !! (resolve w source ++ [n]) = Some (File c)
                      ∧ s = path_str (child source n))
  ∧ (∀ sources cfg w plan w' s,
        V2.build_preview sources cfg w = (Ret plan, w') →
        (∃ e, e ∈ plan ∧ e_src e = s)
        ↔ ∃ source n c, source ∈ sources ∧ is_dir w source = true
                        ∧ files w !! (resolve w source ++ [n]) = Some (File c)
                        ∧ s = path_str (child source n)).
Proof.
  split; intros sources cfg w plan w' s H.
  - apply V1_build_preview_flat in H as ->. split.
    + intros (e & (source & n & c & Hs & Hd & Hc & ->)%plan_by_elem & <-).
      by exists source, n, c.
    + intros (source & n & c & Hs & Hd & Hc & ->).
      exists (V1_planned source cfg (child source n)). split; [|done].
      apply plan_by_elem. by exists source, n, c.
  - apply V2_build_preview_flat in H as ->. split.
    + intros (e & (source & n & c & Hs & Hd & Hc & ->)%plan_by_elem & <-).
      by exists source, n, c.
    + intros (source & n & c & Hs & Hd & Hc & ->).
      exists (V2_planned cfg (child source n)). split; [|done].
      apply plan_by_elem. by exists source, n, c.
Qed.

Lemma build_preview_lists_regular_files_witness :
  (∃ e, e ∈ [Entry "/d/report.pdf" "Documents" "/d/Documents/report.pdf"]
        ∧ e_src e = "/d/report.pdf")
  ↔ ∃ source n c, source ∈ [folder_A] ∧ is_dir world_A source = true
                  ∧ files world_A !! (resolve world_A source ++ [n]) = Some (File c)
                  ∧ "/d/report.pdf" = path_str (child source n).
Proof.
  apply (proj1 build_preview_lists_regular_files [folder_A] cfg_A world_A _ world_A).
  vm_compute. reflexivity.
Defined.

Lemma V1_plan_acc w cfg sources : ∀ acc,
  V1_plan w cfg sources acc
  = match V1_plan w cfg sources [] with
    | Ret p => Ret (acc ++ p)
    | Raise e => Raise e
    end.
Proof.
  induction sources as [|s rest IH]; intros acc; simpl.
  - by rewrite app_nil_r.
  - destruct (stat w s) as [[c|]|]; [done| |apply IH].
    set (here := map (V1_planned s cfg) (regular_files w s)).
    rewrite (IH (acc ++ here)), (IH here).
    destruct (V1_plan w cfg rest []); [by rewrite app_assoc|done].
Qed.

Lemma V1_plan_app w cfg s1 s2 : ∀ acc,
  V1_plan w cfg (s1 ++ s2) acc
  = match V1_plan w cfg s1 acc with
    | Ret p => V1_plan w cfg s2 p
    | Raise e => Raise e
    end.
Proof.
  induction s1 as [|s rest IH]; intros acc; simpl; [done|].
  destruct (stat w s) as [[c|]|]; [done|apply IH..].
Qed.

Lemma V1_build_preview_plan sources cfg w :
  (V1.build_preview sources cfg w).1 = V1_plan w cfg sources [].
Proof.
  unfold V1.build_preview.
  by destruct (V1_preview_sources cfg sources [] w) as (w1 & -> & _).
Qed.

(** X5 (the plan, source by source).  The plan of a list of sources is the
    plan of its first part followed by the plan of the rest; in v1 an
    exception of either part is the outcome, that of the first part first.  A
    source that does not exist gives v1 no entry, and a source that is not a
    directory gives v2 none. *)
Theorem build_preview_source_by_source :
  (∀ s1 s2 cfg w,
      (V1.build_preview (s1 ++ s2) cfg w).1
      = match (V1.build_preview s1 cfg w).1 with
        | Ret p1 =>
            match (V1.build_preview s2 cfg w).1 with
            | Ret p2 => Ret (p1 ++ p2)
            | Raise e => Raise e
            end
        | Raise e => Raise e
        end)
  ∧ (∀ source cfg w,
        stat w source = None → (V1.build_preview [source] cfg w).1 = Ret [])
  ∧ (∀ s1 s2 cfg w,
        ∃ p1 p2, V2.build_preview s1 cfg w = (Ret p1, w)
                 ∧ V2.build_preview s2 cfg w = (Ret p2, w)
                 ∧ V2.build_preview (s1 ++ s2) cfg w = (Ret (p1 ++ p2), w))
  ∧ (∀ source cfg w,
        is_dir w source = false → V2.build_preview [source] cfg w = (Ret [], w)).
Proof.
  split; [|split; [|split]].
  - intros s1 s2 cfg w. rewrite !V1_build_preview_plan, V1_plan_app.
    destruct (V1_plan w cfg s1 []) as [p1|e]; [|done]. apply V1_plan_acc.
  - intros source cfg w Hs. rewrite V1_build_preview_plan. simpl. by rewrite Hs.
  - intros s1 s2 cfg w. exists (V2_plan w cfg s1), (V2_plan w cfg s2).
    rewrite !V2_build_preview_total. split; [done|]. split; [done|].
    unfold V2_plan. by rewrite filter_app, flat_map_app.
  - intros source cfg w Hd. rewrite V2_build_preview_total. unfold V2_plan.
    by rewrite filter_cons_False by congruence.
Qed.

Lemma build_preview_source_by_source_witness :
  (V1.build_preview [path_of_str "/nowhere"] cfg_A world_A).1 = Ret []
  ∧ V2.build_preview [path_of_str "/d/report.pdf"] cfg_A world_A = (Ret [], world_A).
Proof.
  split.
  - apply (proj1 (proj2 build_preview_source_by_source)). reflexivity.
  - apply (proj2 (proj2 (proj2 build_preview_source_by_source))). reflexivity.
Defined.

Lemma categorize_file_wf file cfg : wf_path (categorize_file file cfg).2.
Proof. rewrite categorize_file_dest. apply path_of_str_wf. Qed.

(** X7 (v2's fallback root is never used).  [resolve_dest] returns the
    root that [categorize_file] gave, whatever it is, because the text of a
    path is never empty; so the plan of v2 depends neither on the key
    "default_destination" nor on the home directory. *)
Theorem v2_fallback_root_unused :
  (∀ w cfg file, V2.resolve_dest w cfg file = categorize_file file cfg)
  ∧ (∀ sources cfg w d h,
        (V2.build_preview sources
           (Config (categories cfg) (others_destination cfg) d)
           (World (cwd w) h (data_dir w) (clock w) (files w) (config_file w)
                  (last_run_file w) (log_file w))).1
        = (V2.build_preview sources cfg w).1).
Proof.
  split.
  - intros w cfg file. unfold V2.resolve_dest.
    pose proof (path_str_nonempty _ (categorize_file_wf file cfg)) as Hne.
    destruct (categorize_file file cfg) as [cat root]. simpl in Hne.
    by rewrite bool_decide_eq_true_2.
  - intros sources cfg w d h. by rewrite !V2_build_preview_total.
Qed.

Lemma path_name_child source n : path_name (child source n) = n.
Proof. unfold path_name, child. simpl. apply last_app_one. Qed.

Lemma name_of_joined p n :
  wf_path p → valid_part n → path_name (path_of_str (path_str (join_str p n))) = n.
Proof.
  intros Hp Hn. rewrite join_str_part by done.
  rewrite path_of_str_str.
  - unfold path_name. simpl. apply last_app_one.
  - unfold wf_path. simpl. apply Forall_app. split; [done|by constructor].
Qed.

Lemma child_name_valid w source n c :
  wf_names (files w) → files w !! (resolve w source ++ [n]) = Some (File c) → valid_part n.
Proof.
  intros Hn Hc. assert (Hk : Forall valid_part (resolve w source ++ [n])) by (apply Hn; by eexists).
  apply Forall_app in Hk as [_ Hk]. by inversion Hk.
Qed.

(** X8 (planning keeps the base name).  When the sources are paths as
    [Path] builds them and the names in the file system are path components,
    the planned destination of every entry ends in the base name of the
    entry's source, in both variants. *)
Theorem planned_dest_keeps_name sources cfg w :
  Forall wf_path sources → wf_names (files w) →
  (∀ plan w' e,
      V1.build_preview sources cfg w = (Ret plan, w') → e ∈ plan →
      path_name (path_of_str (e_planned_dest e)) = path_name (path_of_str (e_src e)))
  ∧ (∀ plan w' e,
        V2.build_preview sources cfg w = (Ret plan, w') → e ∈ plan →
        path_name (path_of_str (e_planned_dest e)) = path_name (path_of_str (e_src e))).
Proof.
  intros Hs Hn. rewrite Forall_forall in Hs. split; intros plan w' e H He.
  - apply V1_build_preview_flat in H as ->.
    apply plan_by_elem in He as (source & n & c & Hin & Hd & Hc & ->).
    assert (Hv : valid_part n) by by eapply child_name_valid.
    assert (Hw : wf_path (child source n))
      by (eapply child_wf; [by apply Hs|done|by eexists]).
    simpl. rewrite (path_of_str_str (child source n)) by done.
    unfold claimed_dest. rewrite !path_name_child. apply name_of_joined; [|done].
    apply join_str_wf. destruct (_ && _); [apply path_of_str_wf|by apply Hs].
  - apply V2_build_preview_flat in H as ->.
    apply plan_by_elem in He as (source & n & c & Hin & Hd & Hc & ->).
    assert (Hv : valid_part n) by by eapply child_name_valid.
    assert (Hw : wf_path (child source n))
      by (eapply child_wf; [by apply Hs|done|by eexists]).
    simpl. rewrite (path_of_str_str (child source n)) by done.
    rewrite !path_name_child. apply name_of_joined; [|done]. apply categorize_file_wf.
Qed.

Lemma world_A_wf : wf_world world_A.
Proof.
  split; [|vm_compute; reflexivity].
  apply wf_fs_check; [vm_compute; reflexivity|].
  refine (bool_decide_unpack _ _). vm_compute. exact I.
Qed.

Lemma world_A_names : wf_names (files world_A).
Proof. apply wf_names_check. refine (bool_decide_unpack _ _). vm_compute. exact I. Qed.

Lemma folder_A_wf : Forall wf_path [folder_A].
Proof. constructor; [apply path_of_str_wf|constructor]. Qed.

Lemma planned_dest_keeps_name_witness :
  path_name (path_of_str "/d/Documents/report.pdf") = path_name (path_of_str "/d/report.pdf").
Proof.
  apply (proj1 (planned_dest_keeps_name [folder_A] cfg_A world_A folder_A_wf world_A_names)
           [Entry "/d/report.pdf" "Documents" "/d/Documents/report.pdf"] world_A
           (Entry "/d/report.pdf" "Documents" "/d/Documents/report.pdf")).
  - vm_compute. reflexivity.
  - by left.
Defined.

(** The places of the files a plan names. *)
Lemma plan_by_keys w planned sources :
  (∀ source item, e_src (planned source item) = path_str item) →
  Forall wf_path sources → wf_names (files w) →
  NoDup (map (resolve w) sources) →
  NoDup (map (λ e, resolve w (path_of_str (e_src e))) (plan_by w planned sources))
  ∧ Forall (λ e, is_file w (path_of_str (e_src e)) = true) (plan_by w planned sources).
Proof.
  intros Hsrc Hs Hn Hnd. split.
  - unfold plan_by. induction sources as [|s rest IH]; [constructor|].
    apply Forall_cons in Hs as [Hs Hrest]. simpl in Hnd. apply NoDup_cons in Hnd as [Hnotin Hnd].
    destruct (decide (is_dir w s = true)) as [Hd|Hd];
      [rewrite filter_cons_True by done|rewrite filter_cons_False by done; by apply IH].
    simpl. rewrite map_app. apply NoDup_app. split; [|split; [|by apply IH]].
    + rewrite map_map. apply NoDup_fmap_2_strong; [|apply regular_files_NoDup].
      intros i1 i2 H1 H2. rewrite !Hsrc.
      rewrite !path_of_str_str by by eapply regular_files_wf.
      apply regular_files_elem in H1 as (n1 & c1 & -> & _).
      apply regular_files_elem in H2 as (n2 & c2 & -> & _).
      rewrite !resolve_child. by intros [_ ->]%app_inj_tail.
    + intros key H1 H2.
      apply list_elem_of_fmap in H1 as (e1 & -> & H1).
      apply list_elem_of_fmap in H1 as (i1 & -> & H1).
      apply list_elem_of_fmap in H2 as (e2 & Heq & H2).
      apply (plan_by_elem w planned rest) in H2 as (s2 & n2 & c2 & Hin2 & _ & Hc2 & ->).
      rewrite !Hsrc in Heq.
      rewrite Forall_forall in Hrest.
      rewrite !path_of_str_str in Heq
        by first [by eapply regular_files_wf
                 |eapply child_wf; [by apply Hrest|done|by eexists]].
      apply regular_files_elem in H1 as (n1 & c1 & -> & _).
      rewrite !resolve_child in Heq. apply app_inj_tail in Heq as [Heq _].
      apply Hnotin. rewrite Heq. apply list_elem_of_fmap. by exists s2.
  - apply Forall_forall. intros e (s & n & c & Hin & _ & Hc & ->)%plan_by_elem.
    rewrite Forall_forall in Hs.
    rewrite Hsrc, path_of_str_str by (eapply child_wf; [by apply Hs|done|by eexists]).
    apply is_file_lookup. exists c. by rewrite resolve_child.
Qed.

(** X9 (a plan names distinct regular files).  When the sources are paths
    as [Path] builds them that denote pairwise distinct places, and the names
    in the file system are path components, the entries of the plan name
    pairwise distinct places, each of them a regular file, in both variants:
    the plan meets the conditions on the plan in the round trip of C3. *)
Theorem plan_names_distinct_files sources cfg w :
  Forall wf_path sources → wf_names (files w) → NoDup (map (resolve w) sources) →
  (∀ plan w',
      V1.build_preview sources cfg w = (Ret plan, w') →
      NoDup (map (λ e, resolve w (path_of_str (e_src e))) plan)
      ∧ Forall (λ e, is_file w (path_of_str (e_src e)) = true) plan)
  ∧ (∀ plan w',
        V2.build_preview sources cfg w = (Ret plan, w') →
        NoDup (map (λ e, resolve w (path_of_str (e_src e))) plan)
        ∧ Forall (λ e, is_file w (path_of_str (e_src e)) = true) plan).
Proof.
  intros Hs Hn Hnd. split; intros plan w' H.
  - apply V1_build_preview_flat in H as ->. by apply plan_by_keys.
  - apply V2_build_preview_flat in H as ->. by apply plan_by_keys.
Qed.

Lemma plan_names_distinct_files_witness :
  NoDup (map (λ e, resolve world_A (path_of_str (e_src e)))
             [Entry "/d/report.pdf" "Documents" "/d/Documents/report.pdf"])
  ∧ Forall (λ e, is_file world_A (path_of_str (e_src e)) = true)
           [Entry "/d/report.pdf" "Documents" "/d/Documents/report.pdf"].
Proof.
  apply (proj1 (plan_names_distinct_files [folder_A] cfg_A world_A folder_A_wf world_A_names
                  (NoDup_singleton _)) _ world_A).
  vm_compute. reflexivity.
Defined.

Lemma map_plan_by {B} (g : entry → B) (h : Path → B) w planned sources :
  (∀ source item, g (planned source item) = h item) →
  map g (plan_by w planned sources)
  = flat_map (λ source, map h (regular_files w source))
             (filter (λ source, is_dir w source = true) sources).
Proof.
  intros Hg. unfold plan_by.
  induction (filter (λ source, is_dir w source = true) sources) as [|s l IH]; [done|].
  simpl. rewrite map_app, IH. f_equal. rewrite map_map. by apply map_ext.
Qed.

(** X10 (both planners list the same files).  When v1 returns a plan, v2
    plans the same source files in the same order and with the same
    categories: the plans differ in the planned destinations only. *)
Theorem variants_plan_same_files sources cfg w p1 w1 :
  V1.build_preview sources cfg w = (Ret p1, w1) →
  ∃ p2, V2.build_preview sources cfg w = (Ret p2, w)
        ∧ map e_src p1 = map e_src p2
        ∧ map e_category p1 = map e_category p2.
Proof.
  intros H. apply V1_build_preview_flat in H as ->.
  exists (V2_plan w cfg sources). split; [apply V2_build_preview_total|].
  rewrite V2_plan_flat. split.
  - by rewrite !(map_plan_by e_src path_str).
  - by rewrite !(map_plan_by e_category (λ item, (categorize_file item cfg).1)).
Qed.

Lemma variants_plan_same_files_witness :
  ∃ p2, V2.build_preview [folder_A] cfg_A world_A = (Ret p2, world_A)
        ∧ map e_src [Entry "/d/report.pdf" "Documents" "/d/Documents/report.pdf"]
          = map e_src p2
        ∧ map e_category [Entry "/d/report.pdf" "Documents" "/d/Documents/report.pdf"]
          = map e_category p2.
Proof.
  apply (variants_plan_same_files [folder_A] cfg_A world_A _ world_A).
  vm_compute. reflexivity.
Defined.

(** ** Regular files are only relocated *)

Lemma relocated_refl F : relocated F F.
Proof. exists (λ k, k). split; [done|]. split; [done|]. intros k' c H. by exists k'. Qed.

Lemma relocated_trans F G H : relocated F G → relocated G H → relocated F H.
Proof.
  intros (f & Hf1 & Hf2 & Hf3) (g & Hg1 & Hg2 & Hg3). exists (λ k, g (f k)).
  split; [|split].
  - intros k c Hk. by apply Hg1, Hf1.
  - intros k1 k2 c1 c2 H1 H2 E. apply (Hf2 k1 k2 c1 c2); [done..|].
    apply (Hg2 _ _ c1 c2); [by apply Hf1|by apply Hf1|done].
  - intros k' c Hk'. destruct (Hg3 _ _ Hk') as (k1 & Hk1 & <-).
    destruct (Hf3 _ _ Hk1) as (k & Hk & <-). by exists k.
Qed.

Lemma extends_relocated F G : extends F G → relocated F G.
Proof.
  intros Hext. exists (λ k, k). split; [|split].
  - intros k c Hk. by eapply extends_Some.
  - done.
  - intros k' c Hk'. exists k'. split; [|done]. by apply (extends_files F G).
Qed.

Lemma file_move_relocated F s d c :
  F !! s = Some (File c) → F !! d = None →
  relocated F (<[d := File c]> (delete s F)).
Proof.
  intros Hs Hd. exists (λ k, if decide (k = s) then d else k). split; [|split].
  - intros k c' Hk. destruct (decide (k = s)) as [->|Hne].
    + rewrite lookup_insert_eq. congruence.
    + rewrite lookup_insert_ne by congruence. by rewrite lookup_delete_ne.
  - intros k1 k2 c1 c2 H1 H2.
    destruct (decide (k1 = s)) as [->|Hn1], (decide (k2 = s)) as [->|Hn2];
      try done; intros E; congruence.
  - intros k' c' Hk'. destruct (decide (k' = d)) as [->|Hne].
    + rewrite lookup_insert_eq in Hk'. injection Hk' as <-. exists s.
      split; [done|]. by rewrite decide_True.
    + rewrite lookup_insert_ne in Hk' by done.
      destruct (decide (k' = s)) as [->|Hne']; [by rewrite lookup_delete_eq in Hk'|].
      rewrite lookup_delete_ne in Hk' by done. exists k'. split; [done|].
      by rewrite decide_False.
Qed.

Lemma move_tree_reroot s d F :
  move_tree s d F
  = list_to_map ((λ kv : list string * node, (reroot s d kv.1, kv.2)) <$> map_to_list F).
Proof.
  unfold move_tree. f_equal. apply list_fmap_ext. intros _ [k v] _. unfold reroot. simpl.
  by destruct (drop_prefix s k).
Qed.

(** On a well-formed file system with nothing at [d], [reroot] sends no
    two entries to the same place. *)
Lemma reroot_inj s d F k1 k2 :
  wf_fs F → F !! d = None → is_Some (F !! k1) → is_Some (F !! k2) →
  reroot s d k1 = reroot s d k2 → k1 = k2.
Proof.
  intros HF Hd H1 H2. unfold reroot.
  assert (Hfree : ∀ r, is_Some (F !! (d ++ r)) → False).
  { intros r Hr. destruct (decide (r = [])) as [->|Hne].
    - rewrite app_nil_r, Hd in Hr. by destruct Hr.
    - assert (F !! d = Some Dir) by (by eapply wf_fs_prefix). congruence. }
  destruct (drop_prefix s k1) as [r1|] eqn:E1, (drop_prefix s k2) as [r2|] eqn:E2.
  - apply drop_prefix_Some in E1, E2. subst. by intros ->%app_inv_head.
  - intros E. exfalso. apply (Hfree r1). by rewrite E.
  - intros E. exfalso. apply (Hfree r2). by rewrite <- E.
  - done.
Qed.

Lemma move_tree_lookup s d F k' n :
  wf_fs F → F !! d = None →
  move_tree s d F !! k' = Some n ↔ ∃ k, F !! k = Some n ∧ reroot s d k = k'.
Proof.
  intros HF Hd. rewrite move_tree_reroot.
  rewrite <- elem_of_list_to_map.
  - rewrite list_elem_of_fmap. split.
    + intros ([k v] & [= -> ->] & Hin). apply elem_of_map_to_list in Hin. by exists k.
    + intros (k & Hk & <-). exists (k, n). split; [done|]. by apply elem_of_map_to_list.
  - rewrite <- list_fmap_compose.
    apply NoDup_fmap_2_strong; [|apply NoDup_map_to_list].
    intros [k1 v1] [k2 v2] H1 H2 E. simpl in E.
    apply elem_of_map_to_list in H1, H2.
    assert (k1 = k2) as -> by (eapply reroot_inj; [done..|by eexists|by eexists|done]).
    congruence.
Qed.

Lemma move_tree_relocated s d F :
  wf_fs F → F !! d = None → relocated F (move_tree s d F).
Proof.
  intros HF Hd. exists (reroot s d). split; [|split].
  - intros k c Hk. apply move_tree_lookup; [done..|]. by exists k.
  - intros k1 k2 c1 c2 H1 H2. eapply reroot_inj; [done..|by eexists|by eexists].
  - intros k' c Hk'. by apply move_tree_lookup in Hk'.
Qed.

Lemma drop_prefix_app_None s k x :
  drop_prefix s (k ++ [x]) = None → drop_prefix s k = None.
Proof.
  intros H. destruct (drop_prefix s k) as [r|] eqn:E; [|done].
  apply drop_prefix_Some in E as ->.
  assert (drop_prefix s ((s ++ r) ++ [x]) = Some (r ++ [x]))
    by (apply drop_prefix_Some; by rewrite app_assoc).
  congruence.
Qed.

(** Renaming a directory to a free place whose parent is a directory
    leaves the file system well-formed. *)
Lemma move_tree_wf s d F :
  wf_fs F → F !! d = None → drop_prefix s d = None → F !! removelast d = Some Dir →
  d ≠ [] → wf_fs (move_tree s d F).
Proof.
  intros HF Hd Hsd Hp Hdne. pose proof HF as [Hroot Hpar]. split.
  - apply move_tree_lookup; [done..|]. exists []. split; [done|]. unfold reroot.
    destruct s; [by destruct d|done].
  - intros k' x [n Hk']. apply move_tree_lookup in Hk' as (k & Hk & Hre); [|done..].
    apply move_tree_lookup; [done..|]. unfold reroot in Hre.
    destruct (drop_prefix s k) as [r|] eqn:E.
    + apply drop_prefix_Some in E as ->.
      destruct r as [|y r _] using rev_ind.
      * rewrite app_nil_r in Hre. subst d. rewrite removelast_app_one in Hp.
        exists k'. split; [done|]. unfold reroot.
        by rewrite (drop_prefix_app_None _ _ _ Hsd).
      * rewrite app_assoc in Hre. apply app_inj_tail in Hre as [<- <-].
        exists (s ++ r). split.
        -- apply (Hpar _ y). rewrite <- app_assoc. by eexists.
        -- unfold reroot.
           assert (drop_prefix s (s ++ r) = Some r) as -> by by apply drop_prefix_Some.
           done.
    + subst k. exists k'. split; [apply (Hpar _ x); by eexists|].
      unfold reroot. by rewrite (drop_prefix_app_None _ _ _ E).
Qed.

(** [shutil.move] to a destination that does not exist keeps the file
    system well-formed and only relocates its regular files. *)
Lemma shutil_move_relocates src dst w r w' :
  wf_fs (files w) →
  files w !! resolve w (path_of_str dst) = None →
  shutil_move src dst w = (r, w') →
  wf_fs (files w') ∧ relocated (files w) (files w') ∧ ∃ F', w' = set_files F' w.
Proof.
  intros HF Hd H. unfold shutil_move in H.
  set (s := resolve w (path_of_str src)) in *.
  set (d := resolve w (path_of_str dst)) in *.
  rewrite Hd in H. unfold rename in H.
  assert (Hsame : wf_fs (files w) ∧ relocated (files w) (files w) ∧ ∃ F', w = set_files F' w).
  { split; [done|]. split; [apply relocated_refl|]. exists (files w). by destruct w. }
  assert (Hdne : d ≠ []).
  { intros E. destruct HF as [Hroot _]. rewrite E in Hd. congruence. }
  destruct (files w !! s) as [[c|]|] eqn:Es.
  - destruct (files w !! removelast d) as [[|]|] eqn:Ep; simplify_eq; try done.
    simpl. split; [by apply file_move_wf|]. split; [by apply file_move_relocated|by eexists].
  - case_bool_decide as Hpre; [by simplify_eq|].
    assert (Hnone : drop_prefix s d = None).
    { destruct (drop_prefix s d); [|done]. exfalso. apply Hpre. by eexists. }
    destruct (files w !! removelast d) as [[|]|] eqn:Ep.
    + by simplify_eq.
    + simplify_eq. simpl. split; [by apply move_tree_wf|].
      split; [by apply move_tree_relocated|by eexists].
    + destruct (mkdir_from dst (files w) [] (removelast d)) as [e|F'] eqn:Em;
        [by simplify_eq|].
      simplify_eq. simpl.
      assert (HF' : wf_fs F').
      { eapply mkdir_from_wf; [exact HF| |exact Em]. by intros [|??] ?. }
      destruct (mkdir_from_spec _ _ _ _ _ Em) as [Hp' Hk]. simpl in Hp'.
      assert (Hd' : F' !! d = None).
      { destruct (Hk d) as [E|(_ & _ & i & _ & E)]; [congruence|].
        exfalso. simpl in E. apply (f_equal length) in E. rewrite length_take in E.
        rewrite <- (snoc_removelast_last d "" Hdne) in E at 1.
        rewrite length_app in E. simpl in E. lia. }
      split; [by apply move_tree_wf|]. split; [|by eexists].
      eapply relocated_trans; [|by apply move_tree_relocated].
      apply extends_relocated. by eapply mkdir_from_extends.
  - by simplify_eq.
Qed.

(** A step that makes the directories of a destination and then moves to
    a path where nothing exists. *)
Lemma move_to_fresh_relocates w G src final r0 w2 :
  wf_fs (files w) → extends (files w) G → (wf_fs (files w) → wf_fs G) →
  wf_path final → path_exists (set_files G w) final = false →
  shutil_move src (path_str final) (set_files G w) = (r0, w2) →
  wf_fs (files w2) ∧ relocated (files w) (files w2).
Proof.
  intros HF Hext HG Hfinal Hfresh Hmv.
  assert (Hd : files (set_files G w)
               !! resolve (set_files G w) (path_of_str (path_str final)) = None).
  { rewrite path_of_str_str by done. by apply path_exists_false. }
  destruct (shutil_move_relocates src (path_str final) (set_files G w) r0 w2 (HG HF) Hd Hmv)
    as (Hwf & Hrel & _).
  split; [done|]. eapply relocated_trans; [|exact Hrel]. by apply extends_relocated.
Qed.

Lemma V1_move_entry_relocates : step_relocates V1.move_entry.
Proof.
  intros e acc w r w' H HF. unfold V1.move_entry, bind in H.
  destruct (mkdir _ w) as [r0 w1] eqn:Hmk.
  apply mkdir_cases in Hmk as [(ex & -> & ->)|(-> & G & HG & -> & Hext & HwfG)].
  { injection H as <- <-. split; [done|apply relocated_refl]. }
  unfold get, try_except, bind, log, modify, ret in H.
  set (dest := join_str _ _) in H.
  destruct (shutil_move _ _ (set_files G w)) as [[[]|ex] w2] eqn:Hmv;
    injection H as <- <-; simpl;
    eapply (move_to_fresh_relocates w G); try exact Hmv; try done;
    first [apply unique_dest_wf|apply unique_dest_fresh];
    apply join_str_wf, path_parent_wf, path_of_str_wf.
Qed.

Lemma V2_move_entry_relocates : step_relocates V2.move_entry.
Proof.
  intros e acc w r w' H HF. unfold V2.move_entry, bind in H.
  destruct (mkdir _ w) as [r0 w1] eqn:Hmk.
  apply mkdir_cases in Hmk as [(ex & -> & ->)|(-> & G & HG & -> & Hext & HwfG)].
  { injection H as <- <-. split; [done|apply relocated_refl]. }
  unfold get, try_except, bind, log, modify, ret in H.
  destruct (shutil_move _ _ (set_files G w)) as [[[]|ex] w2] eqn:Hmv;
    injection H as <- <-; simpl;
    eapply (move_to_fresh_relocates w G); try exact Hmv; try done;
    first [apply unique_dest_wf|apply unique_dest_fresh];
    apply path_of_str_wf.
Qed.

Lemma V1_undo_move_relocates : step_relocates V1.undo_move.
Proof.
  intros mv fl w r w' H HF. unfold V1.undo_move, bind in H.
  destruct (mkdir _ w) as [r0 w1] eqn:Hmk.
  apply mkdir_cases in Hmk as [(ex & -> & ->)|(-> & G & HG & -> & Hext & HwfG)].
  { injection H as <- <-. split; [done|apply relocated_refl]. }
  unfold try_except, bind, get, log, modify, ret in H.
  set (dest := path_of_str (mv_src mv)) in *.
  set (final := if path_exists (set_files G w) dest
                then _unique_dest (set_files G w) dest else dest) in *.
  assert (Hfinal : wf_path final ∧ path_exists (set_files G w) final = false).
  { unfold final. destruct (path_exists (set_files G w) dest) eqn:E.
    - split; [apply unique_dest_wf|apply unique_dest_fresh]; apply path_of_str_wf.
    - split; [apply path_of_str_wf|done]. }
  destruct Hfinal as [Hfw Hff].
  destruct (shutil_move _ _ (set_files G w)) as [[[]|ex] w2] eqn:Hmv;
    injection H as <- <-; simpl;
    by eapply (move_to_fresh_relocates w G).
Qed.

Lemma V2_undo_move_relocates : step_relocates V2.undo_move.
Proof.
  intros mv fl w r w' H HF. unfold V2.undo_move, try_except, bind in H.
  destruct (mkdir _ w) as [r0 w1] eqn:Hmk.
  apply mkdir_cases in Hmk as [(ex & -> & ->)|(-> & G & HG & -> & Hext & HwfG)].
  { injection H as <- <-. split; [done|apply relocated_refl]. }
  unfold get, ret in H.
  destruct (shutil_move _ _ (set_files G w)) as [[[]|ex] w2] eqn:Hmv;
    injection H as <- <-;
    eapply (move_to_fresh_relocates w G); try exact Hmv; try done;
    first [apply unique_dest_wf|apply unique_dest_fresh];
    apply path_of_str_wf.
Qed.

Lemma for_each_relocates {A B} (body : A → B → M B) (l : list A) :
  step_relocates body →
  ∀ acc w r w', for_each l body acc w = (r, w') → wf_fs (files w) →
                wf_fs (files w') ∧ relocated (files w) (files w').
Proof.
  intros Hbody. induction l as [|x l IH]; intros acc w r w' H HF; simpl in H.
  - injection H as <- <-. split; [done|apply relocated_refl].
  - unfold bind in H. destruct (body x acc w) as [[acc1|ex] w1] eqn:Hx.
    + destruct (Hbody _ _ _ _ _ Hx HF) as [HF1 Hr1].
      destruct (IH _ _ _ _ H HF1) as [HF' Hr']. split; [done|].
      by eapply relocated_trans.
    + injection H as <- <-. by eapply Hbody.
Qed.

(** X11 (a batch loses no file).  On a well-formed file system, whatever
    the plan and whether [perform_moves] returns or raises, the regular files
    after the call are the regular files before it, each with its content, at
    the same or at another place: none is lost, overwritten, duplicated or
    created.  This holds of both variants. *)
Theorem perform_moves_relocates plan w :
  wf_fs (files w) →
  relocated (files w) (files (V1.perform_moves plan w).2)
  ∧ relocated (files w) (files (V2.perform_moves plan w).2).
Proof.
  intros HF. split.
  - rewrite V1_perform_moves_loop.
    destruct (for_each plan V1.move_entry [] w) as [r w0] eqn:Hloop.
    destruct (for_each_relocates _ _ V1_move_entry_relocates _ _ _ _ Hloop HF) as [_ Hr].
    by destruct r as [[|??]|].
  - rewrite V2_perform_moves_loop.
    destruct (for_each plan V2.move_entry [] w) as [r w0] eqn:Hloop.
    destruct (for_each_relocates _ _ V2_move_entry_relocates _ _ _ _ Hloop HF) as [_ Hr].
    by destruct r as [[|??]|].
Qed.

Lemma perform_moves_relocates_witness :
  relocated (files world_C) (files (V1.perform_moves [entry_C] world_C).2)
  ∧ relocated (files world_C) (files (V2.perform_moves [entry_C] world_C).2).
Proof. apply (perform_moves_relocates [entry_C] world_C). apply world_C_wf. Defined.

(** X14 (undo loses no file).  On a well-formed file system, whatever the
    last-run record holds and whether [undo_last_run] returns or raises, the
    regular files after the call are the regular files before it, each with
    its content, at the same or at another place.  This holds of both
    variants. *)
Theorem undo_last_run_relocates w :
  wf_fs (files w) →
  relocated (files w) (files (V1.undo_last_run w).2)
  ∧ relocated (files w) (files (V2.undo_last_run w).2).
Proof.
  intros HF. split.
  - unfold V1.undo_last_run, bind, get.
    destruct (last_run_file w) as [record|]; [|apply relocated_refl].
    destruct (for_each _ V1.undo_move [] w) as [r w0] eqn:Hloop.
    destruct (for_each_relocates _ _ V1_undo_move_relocates _ _ _ _ Hloop HF) as [_ Hr].
    by destruct r as [[|??]|].
  - unfold V2.undo_last_run, bind, get.
    destruct (last_run_file w) as [record|]; [|apply relocated_refl].
    destruct (for_each _ V2.undo_move [] w) as [r w0] eqn:Hloop.
    destruct (for_each_relocates _ _ V2_undo_move_relocates _ _ _ _ Hloop HF) as [_ Hr].
    by destruct r as [[|??]|].
Qed.

Lemma world_C1_wf : wf_fs (files world_C1).
Proof.
  apply wf_fs_check; [vm_compute; reflexivity|].
  refine (bool_decide_unpack _ _). vm_compute. exact I.
Qed.

Lemma undo_last_run_relocates_witness :
  relocated (files world_C1) (files (V1.undo_last_run world_C1).2)
  ∧ relocated (files world_C1) (files (V2.undo_last_run world_C1).2).
Proof. apply (undo_last_run_relocates world_C1). apply world_C1_wf. Defined.

(** ** The two variants side by side *)

Lemma resolve_same w v p : same_but_log w v → resolve v p = resolve w p.
Proof. intros (Hc & _). by apply resolve_same_cwd. Qed.

Lemma path_exists_same w v p : same_but_log w v → path_exists v p = path_exists w p.
Proof. intros H. unfold path_exists. by rewrite (same_but_log_stat w v p H). Qed.

Lemma set_files_same F w v : same_but_log w v → same_but_log (set_files F w) (set_files F v).
Proof. unfold same_but_log. simpl. intros (?&?&?&?&?&?&?). by repeat split. Qed.

Lemma add_log_same_l l m w v : same_but_log w v → same_but_log (add_log l m w) v.
Proof. unfold same_but_log. simpl. intros (?&?&?&?&?&?&?). by repeat split. Qed.

Lemma add_log_same_r l m w v : same_but_log w v → same_but_log w (add_log l m v).
Proof. unfold same_but_log. simpl. intros (?&?&?&?&?&?&?). by repeat split. Qed.

Lemma mkdir_same p w v :
  same_but_log w v →
  ∃ v', mkdir p v = ((mkdir p w).1, v') ∧ same_but_log (mkdir p w).2 v'.
Proof.
  intros H. pose proof H as (_ & _ & _ & _ & Hf & _).
  unfold mkdir. rewrite (resolve_same w v p H), Hf.
  destruct (mkdir_from _ _ _ _) as [e|F']; eexists; (split; [done|]); simpl;
    [done|by apply set_files_same].
Qed.

Lemma shutil_move_same src dst w v :
  same_but_log w v →
  ∃ v', shutil_move src dst v = ((shutil_move src dst w).1, v')
        ∧ same_but_log (shutil_move src dst w).2 v'.
Proof.
  intros H. pose proof H as (_ & _ & _ & _ & Hf & _).
  unfold shutil_move. rewrite !(resolve_same w v _ H), Hf.
  match goal with
  | |- context [match ?res with inl _ => _ | inr _ => _ end] =>
      destruct res as [e|F']
  end; eexists; (split; [done|]); simpl; [done|by apply set_files_same].
Qed.

Lemma unique_loop_same w v dest rounds : ∀ counter,
  same_but_log w v → unique_loop v dest rounds counter = unique_loop w dest rounds counter.
Proof.
  induction rounds as [|n IH]; intros counter H; simpl; [done|].
  rewrite (path_exists_same w v _ H). by rewrite IH.
Qed.

Lemma unique_dest_same w v dest :
  same_but_log w v → _unique_dest v dest = _unique_dest w dest.
Proof.
  intros H. pose proof H as (_ & _ & _ & _ & Hf & _). unfold _unique_dest.
  by rewrite (path_exists_same w v _ H), Hf, (unique_loop_same w v).
Qed.

(** [dest_dir / src.name] is the planned destination when that ends in the
    name of the source. *)
Lemma planned_dest_rejoined planned src :
  wf_path planned → path_name planned = path_name src →
  join_str (path_parent planned) (path_name src) = planned.
Proof.
  intros Hp <-. destruct planned as [a parts]. unfold path_name, path_parent. simpl.
  destruct (decide (parts = [])) as [->|Hne].
  - reflexivity.
  - rewrite join_str_part.
    + simpl. by rewrite snoc_removelast_last.
    + by apply Forall_last.
Qed.

Lemma move_entry_agree e acc w v :
  same_but_log w v →
  path_name (path_of_str (e_planned_dest e)) = path_name (path_of_str (e_src e)) →
  (V2.move_entry e acc v).1 = (V1.move_entry e acc w).1
  ∧ same_but_log (V1.move_entry e acc w).2 (V2.move_entry e acc v).2.
Proof.
  intros H Hname. unfold V1.move_entry, V2.move_entry, bind.
  rewrite planned_dest_rejoined by (done || apply path_of_str_wf).
  destruct (mkdir_same (path_parent (path_of_str (e_planned_dest e))) w v H)
    as (v1 & Hv & Hs).
  rewrite Hv. destruct (mkdir _ w) as [[[]|ex] w1]; simpl in *; [|done].
  unfold get, try_except, bind.
  rewrite (unique_dest_same w1 v1 _ Hs).
  destruct (shutil_move_same (path_str (path_of_str (e_src e)))
              (path_str (_unique_dest w1 (path_of_str (e_planned_dest e)))) w1 v1 Hs)
    as (v2 & Hv2 & Hs2).
  rewrite Hv2. destruct (shutil_move _ _ w1) as [[[]|ex] w2]; simpl in *.
  - split; [done|]. by apply add_log_same_l.
  - split; [done|]. by apply add_log_same_l, add_log_same_r.
Qed.

Lemma move_loops_agree plan : ∀ acc w v,
  same_but_log w v →
  Forall (λ e, path_name (path_of_str (e_planned_dest e))
               = path_name (path_of_str (e_src e))) plan →
  (for_each plan V2.move_entry acc v).1 = (for_each plan V1.move_entry acc w).1
  ∧ same_but_log (for_each plan V1.move_entry acc w).2 (for_each plan V2.move_entry acc v).2.
Proof.
  induction plan as [|e rest IH]; intros acc w v H Hall; simpl; [done|].
  apply Forall_cons in Hall as [He Hrest].
  destruct (move_entry_agree e acc w v H He) as [Hr Hs].
  unfold bind.
  destruct (V1.move_entry e acc w) as [[acc1|ex] w1], (V2.move_entry e acc v) as [r2 v1];
    simpl in *; subst r2; [by apply IH|done].
Qed.

(** X13 (the variants move alike).  On a plan in which every planned
    destination ends in the base name of its source, [perform_moves] of v1 and
    of v2 have the same outcome, the same records or the same exception, and
    leave worlds that differ at most in the text log. *)
Theorem perform_moves_variants_agree plan w :
  Forall (λ e, path_name (path_of_str (e_planned_dest e))
               = path_name (path_of_str (e_src e))) plan →
  (V2.perform_moves plan w).1 = (V1.perform_moves plan w).1
  ∧ same_but_log (V1.perform_moves plan w).2 (V2.perform_moves plan w).2.
Proof.
  intros Hall. rewrite V1_perform_moves_loop, V2_perform_moves_loop.
  destruct (move_loops_agree plan [] w w (same_but_log_refl w) Hall) as [Hr Hs].
  destruct (for_each plan V1.move_entry [] w) as [[performed|ex] w1],
           (for_each plan V2.move_entry [] w) as [r2 v1]; simpl in *; subst r2; [|done].
  split; [done|]. destruct performed as [|r performed]; [done|].
  pose proof Hs as (?&?&?&Hclock&?&?&?). rewrite Hclock.
  apply add_log_same_l. unfold same_but_log in *. simpl. by repeat split.
Qed.

Lemma perform_moves_variants_agree_witness :
  (V2.perform_moves [entry_C] world_C).1 = (V1.perform_moves [entry_C] world_C).1
  ∧ same_but_log (V1.perform_moves [entry_C] world_C).2 (V2.perform_moves [entry_C] world_C).2.
Proof.
  apply (perform_moves_variants_agree [entry_C] world_C).
  constructor; [vm_compute; reflexivity|constructor].
Defined.

Lemma undo_move_agree mv fl w v fl' w' :
  same_but_log w v →
  V1.undo_move mv fl w = (Ret fl', w') →
  ∃ v', V2.undo_move mv fl v = (Ret fl', v') ∧ same_but_log w' v'.
Proof.
  intros H. unfold V1.undo_move, V2.undo_move, bind, try_except.
  destruct (mkdir_same (path_parent (path_of_str (mv_src mv))) w v H) as (v1 & Hv & Hs).
  rewrite Hv. destruct (mkdir _ w) as [[[]|ex] w1]; simpl in *; [|done].
  unfold get, bind.
  assert (Hfinal : (if path_exists w1 (path_of_str (mv_src mv))
                    then _unique_dest w1 (path_of_str (mv_src mv))
                    else path_of_str (mv_src mv))
                   = _unique_dest v1 (path_of_str (mv_src mv))).
  { rewrite (unique_dest_same w1 v1 _ Hs). unfold _unique_dest.
    by destruct (path_exists w1 (path_of_str (mv_src mv))). }
  rewrite Hfinal.
  destruct (shutil_move_same (path_str (path_of_str (mv_dest mv)))
              (path_str (_unique_dest v1 (path_of_str (mv_src mv)))) w1 v1 Hs)
    as (v2 & Hv2 & Hs2).
  rewrite Hv2. destruct (shutil_move _ _ w1) as [[[]|ex] w2]; simpl in *;
    unfold log, modify, ret; intros [= <- <-]; eexists; (split; [done|]);
    by apply add_log_same_l.
Qed.

Lemma undo_loops_agree l : ∀ fl w v fl' w',
  same_but_log w v →
  for_each l V1.undo_move fl w = (Ret fl', w') →
  ∃ v', for_each l V2.undo_move fl v = (Ret fl', v') ∧ same_but_log w' v'.
Proof.
  induction l as [|mv l IH]; intros fl w v fl' w' H; simpl.
  - intros [= <- <-]. by exists v.
  - unfold bind. destruct (V1.undo_move mv fl w) as [[fl1|ex] w1] eqn:E1; [|done].
    destruct (undo_move_agree _ _ _ _ _ _ H E1) as (v1 & -> & Hs). by apply IH.
Qed.

(** X16 (the variants undo alike).  When [undo_last_run] of v1 returns,
    that of v2 returns the same verdict from the same world and leaves a world
    that differs at most in the text log; the messages are the same, or they
    differ in their first line and list the same failures. *)
Theorem undo_variants_agree w ok msg w1 :
  V1.undo_last_run w = (Ret (ok, msg), w1) →
  ∃ msg2 w2,
    V2.undo_last_run w = (Ret (ok, msg2), w2)
    ∧ same_but_log w1 w2
    ∧ (msg2 = msg
       ∨ ∃ failures,
           ok = false
           ∧ msg = "Some files failed to undo:" +:+ String "010" (join_lines failures)
           ∧ msg2 = "Some undo's failed:" +:+ String "010" (join_lines failures)).
Proof.
  unfold V1.undo_last_run, V2.undo_last_run, bind, get.
  destruct (last_run_file w) as [record|].
  - destruct (for_each _ V1.undo_move [] w) as [[fl|ex] w0] eqn:E1; [|done].
    destruct (undo_loops_agree _ _ _ _ _ _ (same_but_log_refl w) E1) as (v0 & -> & Hs).
    destruct fl as [|f fl]; simpl; unfold ret; intros [= <- <- <-].
    + eexists _, _. split; [done|]. split; [|by left].
      unfold same_but_log in *. simpl. destruct Hs as (?&?&?&?&?&?&?). by repeat split.
    + eexists _, _. split; [done|]. split; [done|]. right. by exists (f :: fl).
  - unfold ret. intros [= <- <- <-]. eexists _, _. split; [done|].
    split; [apply same_but_log_refl|by left].
Qed.

Lemma undo_variants_agree_witness :
  ∃ msg2 w2,
    V2.undo_last_run world_C1 = (Ret (true, msg2), w2)
    ∧ same_but_log (V1.undo_last_run world_C1).2 w2
    ∧ (msg2 = "Undid 1 moves."
       ∨ ∃ failures,
           true = false
           ∧ "Undid 1 moves."
             = "Some files failed to undo:" +:+ String "010" (join_lines failures)
           ∧ msg2 = "Some undo's failed:" +:+ String "010" (join_lines failures)).
Proof.
  apply (undo_variants_agree world_C1 true "Undid 1 moves." (V1.undo_last_run world_C1).2).
  vm_compute. reflexivity.
Defined.

(** ** The plan for a created file, and the run log after undo *)

Lemma filter_map_unique {A B} (P : B → Prop) `{∀ b, Decision (P b)} `{EqDecision A}
    (f : A → B) (x : A) (l : list A) :
  NoDup l → (∀ y, y ∈ l → P (f y) ↔ y = x) →
  filter P (map f l) = if bool_decide (x ∈ l) then [f x] else [].
Proof.
  induction l as [|y l IH]; intros Hnd HP; [done|].
  apply NoDup_cons in Hnd as [Hy Hnd]. simpl.
  assert (HP' : ∀ z, z ∈ l → P (f z) ↔ z = x) by (intros z Hz; apply HP; by right).
  specialize (IH Hnd HP').
  destruct (decide (y = x)) as [->|Hne].
  - rewrite filter_cons_True by (apply HP; [by left|done]).
    rewrite IH, bool_decide_eq_false_2 by done.
    by rewrite bool_decide_eq_true_2 by by left.
  - rewrite filter_cons_False by (intros HPy; apply HP in HPy; [done|by left]).
    rewrite IH. rewrite (bool_decide_ext (x ∈ l) (x ∈ y :: l)); [done|].
    split; [by right|]. intros [?|?]%elem_of_cons; [congruence|done].
Qed.

Lemma child_of_parent p :
  path_parts p ≠ [] → child (path_parent p) (path_name p) = p.
Proof.
  intros Hne. destruct p as [a parts]. unfold child, path_parent, path_name. simpl in *.
  by rewrite snoc_removelast_last.
Qed.

(** A path is among the regular files of its parent exactly when it is a
    regular file. *)
Lemma regular_file_of_parent w p :
  wf_world w → p ∈ regular_files w (path_parent p) ↔ is_file w p = true.
Proof.
  intros [[Hroot Hpar] Hcwd]. rewrite regular_files_elem, is_file_lookup. split.
  - intros (n & c & Hp & Hc). exists c. rewrite Hp, resolve_child. done.
  - intros [c Hc].
    assert (Hne : path_parts p ≠ []) by by eapply (file_path_parts w (files w)).
    exists (path_name p), c. split; [by rewrite child_of_parent|].
    by rewrite <- resolve_child, child_of_parent.
Qed.

(** X19 (the plan for a created file).  On a well-formed file system whose
    names are path components, the plan that [MainWindow.on_file_created]
    hands to [perform_moves] for the reported path holds the one entry that
    v2 plans for that path when it is a regular file, and is empty otherwise
    (the path is a directory, or is gone); the world is left as it is. *)
Theorem created_plan_is_the_new_file path cfg w :
  wf_world w → wf_names (files w) →
  V2Main.created_plan path cfg w
  = (Ret (if is_file w (path_of_str path) then [V2_planned cfg (path_of_str path)] else []),
     w).
Proof.
  intros Hw Hn. unfold V2Main.created_plan, bind. rewrite V2_build_preview_total.
  unfold ret. f_equal. f_equal.
  set (p := path_of_str path). assert (Hp : wf_path p) by apply path_of_str_wf.
  assert (Hfilter : filter (λ entry, e_src entry = path_str p)
                      (map (V2_planned cfg) (regular_files w (path_parent p)))
                    = if is_file w p then [V2_planned cfg p] else []).
  { rewrite (filter_map_unique _ (V2_planned cfg) p); [|apply regular_files_NoDup|].
    - rewrite (bool_decide_ext _ _ (regular_file_of_parent w p Hw)).
      by destruct (is_file w p).
    - intros item Hitem. simpl. split; [|by intros ->].
      intros E. apply (f_equal path_of_str) in E.
      rewrite !path_of_str_str in E; [done..|].
      eapply regular_files_wf; [|done..]. by apply path_parent_wf. }
  unfold V2_plan. destruct (is_dir w (path_parent p)) eqn:Hd.
  - rewrite filter_cons_True by done. simpl. by rewrite app_nil_r.
  - rewrite filter_cons_False by congruence. simpl.
    destruct (is_file w p) eqn:Hf; [|done]. exfalso.
    apply regular_file_of_parent in Hf; [|done].
    apply regular_files_elem in Hf as (n & c & _ & Hc).
    destruct Hw as [[_ Hpar] _].
    assert (Hdir : files w !! resolve w (path_parent p) = Some Dir)
      by (apply (Hpar _ n); by eexists).
    apply is_dir_lookup in Hdir. congruence.
Qed.

Lemma created_plan_is_the_new_file_witness :
  V2Main.created_plan "/d/report.pdf" cfg_A world_A
  = (Ret (if is_file world_A (path_of_str "/d/report.pdf")
          then [V2_planned cfg_A (path_of_str "/d/report.pdf")] else []), world_A).
Proof.
  apply (created_plan_is_the_new_file "/d/report.pdf" cfg_A world_A world_A_wf world_A_names).
Defined.

Lemma shutil_move_last_run src dst w :
  last_run_file (shutil_move src dst w).2 = last_run_file w.
Proof. unfold shutil_move. repeat case_match; done. Qed.

Lemma mkdir_last_run p w : last_run_file (mkdir p w).2 = last_run_file w.
Proof. unfold mkdir. by case_match. Qed.

Lemma V1_undo_move_last_run mv fl w :
  last_run_file (V1.undo_move mv fl w).2 = last_run_file w.
Proof.
  unfold V1.undo_move, bind. pose proof (mkdir_last_run (path_parent (path_of_str (mv_src mv))) w) as H1.
  destruct (mkdir _ w) as [[[]|ex] w1]; simpl in *; [|done].
  unfold try_except, bind, get.
  match goal with
  | |- context [shutil_move ?a ?b w1] =>
      pose proof (shutil_move_last_run a b w1) as H2;
      destruct (shutil_move a b w1) as [[[]|ex] w2]
  end; simpl in *; congruence.
Qed.

Lemma V2_undo_move_last_run mv fl w :
  last_run_file (V2.undo_move mv fl w).2 = last_run_file w.
Proof.
  unfold V2.undo_move, try_except, bind.
  pose proof (mkdir_last_run (path_parent (path_of_str (mv_src mv))) w) as H1.
  destruct (mkdir _ w) as [[[]|ex] w1]; simpl in *; [|done].
  unfold get.
  match goal with
  | |- context [shutil_move ?a ?b w1] =>
      pose proof (shutil_move_last_run a b w1) as H2;
      destruct (shutil_move a b w1) as [[[]|ex] w2]
  end; simpl in *; congruence.
Qed.

Lemma for_each_last_run {A B} (body : A → B → M B) (l : list A) :
  (∀ x acc w, last_run_file (body x acc w).2 = last_run_file w) →
  ∀ acc w, last_run_file (for_each l body acc w).2 = last_run_file w.
Proof.
  intros Hbody. induction l as [|x l IH]; intros acc w; simpl; [done|].
  unfold bind. pose proof (Hbody x acc w) as H1.
  destruct (body x acc w) as [[acc1|ex] w1]; simpl in *; [|done].
  by rewrite IH.
Qed.

(** X15 (the run log after undo).  In both variants [undo_last_run]
    removes the last-run record exactly when it returns success, and its
    message then counts the moves of the record; in every other outcome, a
    failure that is reported, "No last run recorded.", or an exception, the
    record is what it was, so that undo can be tried again. *)
Theorem undo_run_log_kept_or_removed :
  (∀ w,
     let result := V1.undo_last_run w in
     match result.1 with
     | Ret (true, msg) =>
         last_run_file result.2 = None
         ∧ ∃ record, last_run_file w = Some record
                     ∧ msg = "Undid " +:+ decimal (length (moves record)) +:+ " moves."
     | _ => last_run_file result.2 = last_run_file w
     end)
  ∧ (∀ w,
       let result := V2.undo_last_run w in
       match result.1 with
       | Ret (true, msg) =>
           last_run_file result.2 = None
           ∧ ∃ record, last_run_file w = Some record
                       ∧ msg = "Undid " +:+ decimal (length (moves record)) +:+ " moves."
       | _ => last_run_file result.2 = last_run_file w
       end).
Proof.
  split; intros w; simpl.
  - unfold V1.undo_last_run, bind, get.
    destruct (last_run_file w) as [record|] eqn:Hl; [|done].
    pose proof (for_each_last_run _ (rev (moves record)) V1_undo_move_last_run [] w) as H.
    destruct (for_each _ V1.undo_move [] w) as [[[|f fl]|ex] w0]; simpl in *.
    + split; [done|]. by exists record.
    + congruence.
    + congruence.
  - unfold V2.undo_last_run, bind, get.
    destruct (last_run_file w) as [record|] eqn:Hl; [|done].
    pose proof (for_each_last_run _ (rev (moves record)) V2_undo_move_last_run [] w) as H.
    destruct (for_each _ V2.undo_move [] w) as [[[|f fl]|ex] w0]; simpl in *.
    + split; [done|]. by exists record.
    + congruence.
    + congruence.
Qed.

(** ** Exceptions *)

Lemma mkdir_from_error name rest : ∀ F base ex,
  mkdir_from name F base rest = inl ex →
  ex = FileExistsError name ∨ ex = NotADirectoryError name.
Proof.
  induction rest as [|c rest IH]; intros F base ex; simpl.
  - destruct (F !! base) as [[|]|]; intros [= <-]; by left.
  - destruct (F !! base) as [[|]|]; [intros [= <-]; by right|apply IH..].
Qed.

Lemma mkdir_raises p w ex w' :
  mkdir p w = (Raise ex, w') →
  w' = w ∧ (ex = FileExistsError (path_str p) ∨ ex = NotADirectoryError (path_str p)).
Proof.
  unfold mkdir. destruct (mkdir_from _ _ _ _) as [e|F] eqn:E; intros [= <- <-].
  split; [done|]. by eapply mkdir_from_error.
Qed.

Lemma V1_move_entry_last_run e acc w :
  last_run_file (V1.move_entry e acc w).2 = last_run_file w.
Proof.
  unfold V1.move_entry, bind.
  pose proof (mkdir_last_run (path_parent (path_of_str (e_planned_dest e))) w) as H1.
  destruct (mkdir _ w) as [[[]|ex] w1]; simpl in *; [|done].
  unfold try_except, bind, get.
  match goal with
  | |- context [shutil_move ?a ?b w1] =>
      pose proof (shutil_move_last_run a b w1) as H2;
      destruct (shutil_move a b w1) as [[[]|ex] w2]
  end; simpl in *; congruence.
Qed.

Lemma V2_move_entry_last_run e acc w :
  last_run_file (V2.move_entry e acc w).2 = last_run_file w.
Proof.
  unfold V2.move_entry, bind.
  pose proof (mkdir_last_run (path_parent (path_of_str (e_planned_dest e))) w) as H1.
  destruct (mkdir _ w) as [[[]|ex] w1]; simpl in *; [|done].
  unfold try_except, bind, get.
  match goal with
  | |- context [shutil_move ?a ?b w1] =>
      pose proof (shutil_move_last_run a b w1) as H2;
      destruct (shutil_move a b w1) as [[[]|ex] w2]
  end; simpl in *; congruence.
Qed.

(** [mkdir] looks at the files and at the working directory only. *)
Lemma mkdir_outcome_ext p w v :
  cwd v = cwd w → files v = files w → (mkdir p v).1 = (mkdir p w).1.
Proof.
  intros Hc Hf. unfold mkdir, resolve. rewrite Hc, Hf.
  by destruct (mkdir_from _ _ _ _).
Qed.

Lemma V1_move_entry_mkdir_raises e acc w ex :
  (mkdir (dest_dir e) w).1 = Raise ex → V1.move_entry e acc w = (Raise ex, w).
Proof.
  unfold V1.move_entry, dest_dir, bind. intros H.
  destruct (mkdir _ w) as [r w1] eqn:Hm. simpl in H. subst r.
  by apply mkdir_raises in Hm as [-> _].
Qed.

Lemma V2_move_entry_mkdir_raises e acc w ex :
  (mkdir (dest_dir e) w).1 = Raise ex → V2.move_entry e acc w = (Raise ex, w).
Proof.
  unfold V2.move_entry, dest_dir, bind. intros H.
  destruct (mkdir _ w) as [r w1] eqn:Hm. simpl in H. subst r.
  by apply mkdir_raises in Hm as [-> _].
Qed.

(** A loop that returns for the first part of a plan and whose body raises
    at the next entry. *)
Lemma move_loop_aborts (move_entry : entry → list move → M (list move))
    before e after w performed w0 ex :
  for_each before move_entry [] w = (Ret performed, w0) →
  move_entry e performed w0 = (Raise ex, w0) →
  for_each (before ++ e :: after) move_entry [] w = (Raise ex, w0).
Proof. intros Hb He. rewrite for_each_app, Hb. simpl. unfold bind. by rewrite He. Qed.

(** X12 (a failed [mkdir] aborts the batch).  In both variants, when
    [perform_moves] returns for the first entries of a plan and [mkdir] of
    the destination folder of the next entry raises in the world they leave,
    [perform_moves] of the whole plan raises that exception: the files are
    where the first entries left them, the entries after it are not tried,
    and the last-run file is what it was before the call, so that the moves
    made are not recorded.  And whenever [perform_moves] raises, the last-run
    file is what it was before the call. *)
Theorem perform_moves_aborts_at_failed_mkdir :
  (∀ before e after w performed w0 ex,
      V1.perform_moves before w = (Ret performed, w0) →
      (mkdir (dest_dir e) w0).1 = Raise ex →
      ∃ w1, V1.perform_moves (before ++ e :: after) w = (Raise ex, w1)
            ∧ files w1 = files w0 ∧ last_run_file w1 = last_run_file w)
  ∧ (∀ before e after w performed w0 ex,
        V2.perform_moves before w = (Ret performed, w0) →
        (mkdir (dest_dir e) w0).1 = Raise ex →
        ∃ w1, V2.perform_moves (before ++ e :: after) w = (Raise ex, w1)
              ∧ files w1 = files w0 ∧ last_run_file w1 = last_run_file w)
  ∧ (∀ plan w ex w',
        V1.perform_moves plan w = (Raise ex, w') → last_run_file w' = last_run_file w)
  ∧ (∀ plan w ex w',
        V2.perform_moves plan w = (Raise ex, w') → last_run_file w' = last_run_file w).
Proof.
  split; [|split; [|split]].
  - intros before e after w performed w0 ex H Hm.
    rewrite V1_perform_moves_loop in H.
    pose proof (for_each_last_run _ before V1_move_entry_last_run [] w) as Hl.
    destruct (for_each before V1.move_entry [] w) as [[R|ex0] u0] eqn:Hb; [|done].
    assert (R = performed ∧ cwd w0 = cwd u0 ∧ files w0 = files u0) as (-> & Hc & Hf).
    { injection H as <- <-. by destruct R. }
    rewrite (mkdir_outcome_ext _ u0 w0) in Hm by done.
    exists u0. rewrite V1_perform_moves_loop.
    rewrite (move_loop_aborts V1.move_entry before e after w performed u0 ex Hb)
      by by apply V1_move_entry_mkdir_raises.
    by repeat split.
  - intros before e after w performed w0 ex H Hm.
    rewrite V2_perform_moves_loop in H.
    pose proof (for_each_last_run _ before V2_move_entry_last_run [] w) as Hl.
    destruct (for_each before V2.move_entry [] w) as [[R|ex0] u0] eqn:Hb; [|done].
    assert (R = performed ∧ cwd w0 = cwd u0 ∧ files w0 = files u0) as (-> & Hc & Hf).
    { injection H as <- <-. by destruct R. }
    rewrite (mkdir_outcome_ext _ u0 w0) in Hm by done.
    exists u0. rewrite V2_perform_moves_loop.
    rewrite (move_loop_aborts V2.move_entry before e after w performed u0 ex Hb)
      by by apply V2_move_entry_mkdir_raises.
    by repeat split.
  - intros plan w ex w' H. rewrite V1_perform_moves_loop in H.
    pose proof (for_each_last_run _ plan V1_move_entry_last_run [] w) as Hl.
    destruct (for_each plan V1.move_entry [] w) as [[performed|ex0] w0]; [done|].
    by injection H as <- <-.
  - intros plan w ex w' H. rewrite V2_perform_moves_loop in H.
    pose proof (for_each_last_run _ plan V2_move_entry_last_run [] w) as Hl.
    destruct (for_each plan V2.move_entry [] w) as [[performed|ex0] w0]; [done|].
    by injection H as <- <-.
Qed.

Lemma perform_moves_aborts_at_failed_mkdir_witness :
  ∃ w1, V1.perform_moves plan_R world_R
        = (Raise (NotADirectoryError "/d/Documents/report.pdf/T"), w1)
        ∧ files w1
          = files (V1.perform_moves
                     [Entry "/d/report.pdf" "Documents" "/d/Documents/report.pdf"]
                     world_R).2
        ∧ last_run_file w1 = last_run_file world_R.
Proof.
  apply (proj1 perform_moves_aborts_at_failed_mkdir
           [Entry "/d/report.pdf" "Documents" "/d/Documents/report.pdf"]
           (Entry "/d/other.txt" "T" "/d/Documents/report.pdf/T/other.txt") []
           world_R [Move "/d/report.pdf" "/d/Documents/report.pdf"]).
  - vm_compute. reflexivity.
  - vm_compute. reflexivity.
Defined.

Lemma V1_plan_outcome w cfg sources : ∀ acc,
  match V1_plan w cfg sources acc with
  | Ret _ => Forall (λ s, is_file w s = false) sources
  | Raise ex =>
      ∃ before source after,
        sources = before ++ source :: after
        ∧ Forall (λ s, is_file w s = false) before
        ∧ is_file w source = true
        ∧ ex = NotADirectoryError (path_str source)
  end.
Proof.
  induction sources as [|s rest IH]; intros acc; simpl; [constructor|].
  unfold is_file at 1 3. destruct (stat w s) as [[c|]|] eqn:E.
  - exists [], s, rest. split; [done|]. split; [constructor|]. split; [|done].
    unfold is_file. by rewrite E.
  - specialize (IH (acc ++ map (V1_planned s cfg) (regular_files w s))).
    destruct (V1_plan w cfg rest _) as [p|ex].
    + constructor; [|done]. unfold is_file. by rewrite E.
    + destruct IH as (before & source & after & -> & Hb & Hs & ->).
      exists (s :: before), source, after. split; [done|]. split; [|done].
      constructor; [|done]. unfold is_file. by rewrite E.
  - specialize (IH acc). destruct (V1_plan w cfg rest acc) as [p|ex].
    + constructor; [|done]. unfold is_file. by rewrite E.
    + destruct IH as (before & source & after & -> & Hb & Hs & ->).
      exists (s :: before), source, after. split; [done|]. split; [|done].
      constructor; [|done]. unfold is_file. by rewrite E.
Qed.

(** X6 (when v1's planner raises).  [build_preview] of v1 returns a plan
    exactly when no source of the list is a regular file; otherwise it raises
    [NotADirectoryError] for the first source that is one. *)
Theorem v1_build_preview_outcome sources cfg w :
  match (V1.build_preview sources cfg w).1 with
  | Ret _ => Forall (λ s, is_file w s = false) sources
  | Raise ex =>
      ∃ before source after,
        sources = before ++ source :: after
        ∧ Forall (λ s, is_file w s = false) before
        ∧ is_file w source = true
        ∧ ex = NotADirectoryError (path_str source)
  end.
Proof. rewrite V1_build_preview_plan. apply V1_plan_outcome. Qed.

(** ** The rules editor *)

Lemma rstrip_cons c r :
  rstrip (String c r)
  = match rstrip r with
    | EmptyString => if is_space c then EmptyString else String c EmptyString
    | r' => String c r'
    end.
Proof. reflexivity. Qed.

Lemma lstrip_head s :
  lstrip s = "" ∨ ∃ c r, lstrip s = String c r ∧ is_space c = false.
Proof.
  induction s as [|c s IH]; [by left|]. simpl.
  destruct (is_space c) eqn:E; [done|]. right. by exists c, s.
Qed.

Lemma lstrip_fix c r : is_space c = false → lstrip (String c r) = String c r.
Proof. intros H. simpl. by rewrite H. Qed.

Lemma rstrip_idem s : rstrip (rstrip s) = rstrip s.
Proof.
  induction s as [|c s IH]; [done|]. rewrite rstrip_cons.
  destruct (rstrip s) as [|c' s'] eqn:E.
  - destruct (is_space c) eqn:Ec; [done|]. simpl. by rewrite Ec.
  - rewrite rstrip_cons, IH. done.
Qed.

Lemma rstrip_keeps_head c r :
  is_space c = false → ∃ r', rstrip (String c r) = String c r'.
Proof.
  intros H. rewrite rstrip_cons. destruct (rstrip r); rewrite ?H; by eexists.
Qed.

Lemma strip_idem s : strip (strip s) = strip s.
Proof.
  unfold strip. destruct (lstrip_head s) as [->|(c & r & -> & Hc)]; [done|].
  destruct (rstrip_keeps_head c r Hc) as [r' Hr]. rewrite Hr.
  rewrite lstrip_fix by done. rewrite <- Hr. apply rstrip_idem.
Qed.

Lemma has_char_lstrip c s : has_char c (lstrip s) = true → has_char c s = true.
Proof.
  induction s as [|a s IH]; [done|]. simpl.
  destruct (is_space a); [|done]. intros H%IH. rewrite H. by destruct (Ascii.eqb a c).
Qed.

Lemma has_char_rstrip c s : has_char c (rstrip s) = true → has_char c s = true.
Proof.
  induction s as [|a s IH]; [done|]. rewrite rstrip_cons. simpl.
  destruct (rstrip s) as [|a' s'] eqn:E.
  - destruct (is_space a); [done|]. simpl. by destruct (Ascii.eqb a c).
  - simpl in *. destruct (Ascii.eqb a c); [done|]. apply IH.
Qed.

Lemma no_comma_strip s : no_comma s → no_comma (strip s).
Proof.
  unfold no_comma, strip. intros H.
  destruct (has_char "," (rstrip (lstrip s))) eqn:E; [|done].
  apply has_char_rstrip, has_char_lstrip in E. congruence.
Qed.

Lemma split_comma_parts s : Forall no_comma (split_comma s).
Proof.
  induction s as [|c s IH]; simpl; [by repeat constructor|].
  destruct (Ascii.eqb c ",") eqn:E.
  - by constructor.
  - destruct (split_comma s) as [|h t];
      [by repeat constructor; unfold no_comma; simpl; rewrite E|].
    inversion IH; subst. constructor; [|done].
    unfold no_comma in *. simpl. by rewrite E.
Qed.

Lemma split_comma_no_comma s : no_comma s → split_comma s = [s].
Proof.
  unfold no_comma. induction s as [|c s IH]; simpl; [done|].
  destruct (Ascii.eqb c ","); [done|]. intros H. by rewrite IH.
Qed.

Lemma split_comma_app a b :
  no_comma a → split_comma (a +:+ String "," b) = a :: split_comma b.
Proof.
  unfold no_comma. induction a as [|c a IH]; [done|].
  rewrite string_app_cons. simpl.
  destruct (Ascii.eqb c ","); [done|]. intros H. by rewrite IH.
Qed.

Lemma split_join_comma l :
  Forall no_comma l → l ≠ [] → split_comma (join_with "," l) = l.
Proof.
  induction l as [|x l IH]; [done|]. intros Hl _.
  inversion Hl as [|? ? Hx Hl']; subst.
  destruct l as [|y l].
  - simpl. by apply split_comma_no_comma.
  - change (join_with "," (x :: y :: l)) with (x +:+ String "," (join_with "," (y :: l))).
    rewrite split_comma_app by done. f_equal. by apply IH.
Qed.

(** The extensions the editor reads back from the text it shows. *)
Lemma row_extensions_join exts :
  Forall (λ e, e ≠ "" ∧ strip e = e ∧ no_comma e) exts →
  V2Main.row_extensions (join_with "," exts) = exts.
Proof.
  intros H. unfold V2Main.row_extensions.
  destruct (decide (exts = [])) as [->|Hne]; [done|].
  rewrite split_join_comma; [|by eapply Forall_impl; [exact H|]; intros ? (_ & _ & ?)|done].
  clear Hne. induction H as [|e exts (Hne & Hs & _) _ IH]; [done|].
  rewrite filter_cons_True by congruence. simpl. by rewrite Hs, IH.
Qed.

Lemma row_extensions_clean text :
  Forall (λ e, e ≠ "" ∧ strip e = e ∧ no_comma e) (V2Main.row_extensions text).
Proof.
  unfold V2Main.row_extensions. pose proof (split_comma_parts text) as H.
  induction H as [|e l He _ IH]; [constructor|].
  destruct (decide (strip e ≠ "")) as [Hs|Hs].
  - rewrite filter_cons_True by done. simpl. constructor; [|done].
    split; [done|]. split; [apply strip_idem|by apply no_comma_strip].
  - by rewrite filter_cons_False by done.
Qed.

Lemma dict_get_set {V} k (v : V) d : dict_get k (dict_set k v d) = Some v.
Proof.
  induction d as [|[k' v'] d IH]; simpl.
  - by rewrite bool_decide_eq_true_2.
  - case_bool_decide as E; simpl; [by rewrite bool_decide_eq_true_2|].
    by rewrite bool_decide_eq_false_2.
Qed.

Lemma dict_get_set_ne {V} k k' (v : V) d : k ≠ k' → dict_get k' (dict_set k v d) = dict_get k' d.
Proof.
  intros Hne. induction d as [|[k0 v0] d IH]; simpl.
  - by rewrite bool_decide_eq_false_2.
  - case_bool_decide as E; simpl.
    + subst. by rewrite !bool_decide_eq_false_2.
    + case_bool_decide; [done|apply IH].
Qed.

Lemma dict_set_fresh {V} k (v : V) d : k ∉ map fst d → dict_set k v d = d ++ [(k, v)].
Proof.
  induction d as [|[k' v'] d IH]; simpl; [done|]. intros Hk.
  rewrite bool_decide_eq_false_2 by (intros ->; apply Hk; by left).
  rewrite IH; [done|]. intros ?. apply Hk. by right.
Qed.

(** What a rules dict built by [dict_set] holds: rules under distinct
    names. *)
Lemma dict_set_rules name exts dest (rules : list rule) :
  ∃ rules', dict_set name (V2Main.rule_json exts dest) (rules_json rules) = rules_json rules'
            ∧ map fst rules' = (if bool_decide (name ∈ map fst rules) then map fst rules
                                else map fst rules ++ [name])
            ∧ ∀ r, r ∈ rules' → r ∈ rules ∨ r = (name, (exts, dest)).
Proof.
  induction rules as [|[n [es d]] rules IH]; simpl.
  - exists [(name, (exts, dest))]. split; [done|].
    split; [done|]. intros r ->%list_elem_of_singleton. by right.
  - destruct (decide (n = name)) as [->|E].
    + rewrite bool_decide_eq_true_2 by done.
      exists ((name, (exts, dest)) :: rules). split; [done|].
      rewrite bool_decide_eq_true_2 by by left. split; [done|].
      intros r [->|Hr]%elem_of_cons; [by right|left; by right].
    + rewrite bool_decide_eq_false_2 by done.
      destruct IH as (rules' & Hj & Hk & Hin).
      exists ((n, (es, d)) :: rules'). simpl. rewrite Hj. split; [done|]. split.
      * rewrite Hk. destruct (decide (name ∈ map fst rules)) as [E'|E'].
        -- rewrite !bool_decide_eq_true_2; [done|by right|done].
        -- rewrite !bool_decide_eq_false_2; [done| |done].
           intros [?|?]%elem_of_cons; congruence.
      * intros r [->|Hr]%elem_of_cons; [left; by left|].
        destruct (Hin r Hr) as [?|?]; [left; by right|by right].
Qed.

Lemma NoDup_snoc_if {A} `{EqDecision A} (l : list A) (x : A) :
  NoDup l → NoDup (if bool_decide (x ∈ l) then l else l ++ [x]).
Proof.
  intros H. case_bool_decide as E; [done|]. apply NoDup_app. split; [done|].
  split; [|apply NoDup_singleton]. intros y Hy ->%list_elem_of_singleton. done.
Qed.

Lemma saved_categories_clean_from table : ∀ rules,
  clean_rules rules →
  ∃ rules', fold_left V2Main.save_row table (rules_json rules) = rules_json rules'
            ∧ clean_rules rules'.
Proof.
  induction table as [|row table IH]; intros rules Hc; simpl; [by exists rules|].
  unfold V2Main.save_row at 2. case_bool_decide as Hname; [|by apply IH].
  destruct (dict_set_rules (strip (V2Main.rr_category row))
              (V2Main.row_extensions (V2Main.rr_extensions row))
              (strip (V2Main.rr_destination row)) rules) as (rules1 & -> & Hk & Hin).
  apply IH. destruct Hc as [Hnd Hall]. split.
  - rewrite Hk. by apply NoDup_snoc_if.
  - apply Forall_forall. intros r Hr. destruct (Hin r Hr) as [Hold| ->].
    + rewrite Forall_forall in Hall. by apply Hall.
    + simpl. split; [done|]. split; [apply strip_idem|].
      split; [apply row_extensions_clean|apply strip_idem].
Qed.

Lemma read_strings_json exts : V2Main.read_strings (JArr (map JStr exts)) = Some exts.
Proof.
  simpl. induction exts as [|e exts IH]; [done|]. simpl. by rewrite IH.
Qed.

Lemma load_rules rules :
  mapM (λ ci : string * json, V2Main.load_row ci.1 ci.2) (rules_json rules)
  = Some (map (λ r : rule, V2Main.RuleRow r.1 (join_with "," r.2.1) r.2.2) rules).
Proof.
  induction rules as [|[n [es d]] rules IH]; [done|].
  simpl in *. rewrite IH.
  unfold V2Main.load_row, V2Main.rule_json. simpl.
  change (mapM _ (map JStr es)) with (V2Main.read_strings (JArr (map JStr es))).
  by rewrite read_strings_json.
Qed.

Lemma save_loaded_rules rules : ∀ before,
  clean_rules (before ++ rules) →
  fold_left V2Main.save_row
    (map (λ r : rule, V2Main.RuleRow r.1 (join_with "," r.2.1) r.2.2) rules)
    (rules_json before)
  = rules_json (before ++ rules).
Proof.
  induction rules as [|[n [es d]] rules IH]; intros before Hc; simpl.
  - by rewrite app_nil_r.
  - pose proof Hc as [Hnd Hall].
    apply Forall_app in Hall as [_ Hall]. apply Forall_cons in Hall as [(Hn & Hs & He & Hd) _].
    simpl in *. unfold V2Main.save_row at 2. simpl.
    rewrite Hs, Hd, row_extensions_join by done.
    rewrite bool_decide_eq_true_2 by done.
    rewrite dict_set_fresh.
    + specialize (IH (before ++ [(n, (es, d))])).
      rewrite <- app_assoc in IH. simpl in IH.
      unfold rules_json in *. rewrite map_app in IH. simpl in IH. by apply IH.
    + unfold rules_json. rewrite map_map. simpl.
      rewrite map_app in Hnd. simpl in Hnd.
      apply NoDup_app in Hnd as (_ & Hdis & _).
      intros Hin. apply (Hdis n Hin). by left.
Qed.

Lemma dict_get_key {V} k (v : V) d : dict_get k d = Some v → k ∈ map fst d.
Proof.
  induction d as [|[k' v'] d IH]; simpl; [done|].
  case_bool_decide as E; [subst; intros _; by left|]. intros H. right. by apply IH.
Qed.

Lemma dict_set_same {V} k (v : V) d : dict_get k d = Some v → dict_set k v d = d.
Proof.
  induction d as [|[k' v'] d IH]; simpl; [done|].
  case_bool_decide as E; [by intros [= ->]; subst|]. intros H. by rewrite IH.
Qed.

Lemma V2_load_saved cfg w :
  config_file w = Some (Doc (JObj cfg)) → "categories" ∈ map fst cfg →
  V2.load_config w = (Ret (JObj cfg), w).
Proof.
  intros Hc Hk. unfold V2.load_config, bind, get, try_except. rewrite Hc. simpl.
  by rewrite bool_decide_eq_true_2.
Qed.

(** X20 (what the rules editor saves).  Whatever the rows of the table
    hold, [ConfigEditor.save] writes a configuration whose categories are
    rules with distinct names that are not empty, texts without white space
    around them and extensions that are neither empty nor hold a comma; the
    other keys of the configuration are as they were; the next [load_config]
    returns the dict that was written; and the editor opened on it and saved
    again, with no edit, stores the same categories. *)
Theorem editor_save_stores_clean_rules cfg table w :
  ∃ rules cfg' w',
    V2Main.save cfg table w = (Ret cfg', w')
    ∧ config_file w' = Some (Doc (JObj cfg'))
    ∧ V2.load_config w' = (Ret (JObj cfg'), w')
    ∧ dict_get "categories" cfg' = Some (JObj (rules_json rules))
    ∧ (∀ k, k ≠ "categories" → dict_get k cfg' = dict_get k cfg)
    ∧ clean_rules rules
    ∧ ∃ table', V2Main.load cfg' = Some table'
                ∧ V2Main.saved_categories table' = V2Main.saved_categories table.
Proof.
  destruct (saved_categories_clean_from table []) as (rules & Hs & Hc).
  { split; constructor. }
  change (fold_left V2Main.save_row table (rules_json []))
    with (V2Main.saved_categories table) in Hs.
  set (cfg' := dict_set "categories" (JObj (V2Main.saved_categories table)) cfg).
  assert (Hget : dict_get "categories" cfg' = Some (JObj (rules_json rules)))
    by (unfold cfg'; by rewrite dict_get_set, Hs).
  exists rules, cfg', (set_config_file (Some (Doc (JObj cfg'))) w).
  split; [done|]. split; [done|].
  split; [apply V2_load_saved; [done|by eapply dict_get_key]|].
  split; [done|]. split; [intros k Hk; by apply dict_get_set_ne|]. split; [done|].
  eexists. unfold V2Main.load. rewrite Hget. simpl. split; [apply load_rules|].
  rewrite Hs. by apply (save_loaded_rules rules []).
Qed.

(** X21 (opening the rules editor and saving).  On a configuration whose
    categories are rules in that form, each a dict with the keys "extensions"
    and "destination", [ConfigEditor.load] fills the table and
    [ConfigEditor.save] of the table as it is writes the configuration
    unchanged. *)
Theorem editor_round_trip rules cfg w :
  clean_rules rules →
  dict_get "categories" cfg = Some (JObj (rules_json rules)) →
  ∃ table w',
    V2Main.load cfg = Some table
    ∧ V2Main.save cfg table w = (Ret cfg, w')
    ∧ config_file w' = Some (Doc (JObj cfg)).
Proof.
  intros Hc Hget. eexists _, (set_config_file (Some (Doc (JObj cfg))) w).
  unfold V2Main.load. rewrite Hget. simpl. split; [apply load_rules|].
  unfold V2Main.save.
  assert (Hs : V2Main.saved_categories
                 (map (λ r : rule, V2Main.RuleRow r.1 (join_with "," r.2.1) r.2.2) rules)
               = rules_json rules) by by apply (save_loaded_rules rules []).
  rewrite Hs, (dict_set_same _ _ _ Hget). done.
Qed.

Lemma editor_round_trip_witness :
  ∃ table w',
    V2Main.load default_dict = Some table
    ∧ V2Main.save default_dict table world_A = (Ret default_dict, w')
    ∧ config_file w' = Some (Doc (JObj default_dict)).
Proof.
  apply (editor_round_trip default_rules default_dict world_A).
  - refine (bool_decide_unpack _ _). vm_compute. exact I.
  - reflexivity.
Defined.

(** ** The tables and the list of sources *)

Lemma unselected_from_none {A} (selected : gset nat) (table : list A) : ∀ i,
  (∀ j, j ∈ selected → j < i) → unselected_from i selected table = table.
Proof.
  induction table as [|x t IH]; intros i H; simpl; [done|].
  rewrite bool_decide_eq_false_2 by (intros Hin; apply H in Hin; lia).
  rewrite IH; [done|]. intros j Hj. apply H in Hj. lia.
Qed.

Lemma unselected_from_delete {A} (selected : gset nat) (table : list A) : ∀ i n,
  (∀ j, j ∈ selected → j < i + n) →
  unselected_from i selected (delete n table)
  = unselected_from i ({[i + n]} ∪ selected) table.
Proof.
  induction table as [|x t IH]; intros i n H; [done|].
  destruct n as [|n]; simpl.
  - rewrite Nat.add_0_r in *.
    rewrite bool_decide_eq_true_2 by set_solver.
    rewrite !unselected_from_none; [done| |done].
    intros j [->%elem_of_singleton|Hj%H]%elem_of_union; lia.
  - assert (Hi : i ∈ selected ↔ i ∈ ({[i + S n]} ∪ selected : gset nat)).
    { split; [set_solver|]. intros [Hi%elem_of_singleton|?]%elem_of_union; [lia|done]. }
    rewrite (bool_decide_ext _ _ Hi).
    rewrite (IH (S i) n) by (intros j Hj; apply H in Hj; lia).
    by replace (S i + n) with (i + S n) by lia.
Qed.

Lemma remove_descending (l : list nat) : ∀ (table : list V2Main.rule_row),
  StronglySorted (λ a b, b < a) l →
  fold_left (λ t r, delete r t) l table = unselected_from 0 (list_to_set l) table.
Proof.
  induction l as [|r l IH]; intros table H; simpl.
  - by rewrite unselected_from_none by set_solver.
  - apply StronglySorted_inv in H as [Hl Hr]. rewrite IH by done.
    rewrite (unselected_from_delete _ _ 0 r); [done|].
    intros j Hj%elem_of_list_to_set. rewrite Forall_forall in Hr. by apply Hr.
Qed.

Lemma sorted_descending (l : list nat) :
  NoDup l → StronglySorted (flip le) l → StronglySorted (λ a b, b < a) l.
Proof.
  induction l as [|a l IH]; intros Hnd H; [constructor|].
  apply NoDup_cons in Hnd as [Ha Hnd]. apply StronglySorted_inv in H as [Hl Hall].
  constructor; [by apply IH|].
  rewrite Forall_forall in *. intros b Hb. specialize (Hall b Hb). unfold flip in Hall.
  destruct (decide (a = b)) as [->|]; [done|lia].
Qed.

(** X22 (removing rules).  [ConfigEditor.remove] deletes exactly the
    selected rows: the table keeps the rows whose index is not selected, in
    their order.  (The rows are deleted highest index first, so that a
    deletion does not shift the rows still to delete.) *)
Theorem editor_remove_selected_rows selected table :
  V2Main.remove selected table = unselected_from 0 selected table.
Proof.
  unfold V2Main.remove.
  set (l := reverse (merge_sort le (elements selected))).
  assert (Hperm : l ≡ₚ elements selected).
  { unfold l. rewrite reverse_Permutation. apply merge_sort_Permutation. }
  rewrite remove_descending.
  - f_equal. rewrite (list_to_set_perm_L _ _ Hperm). apply list_to_set_elements_L.
  - apply sorted_descending.
    + rewrite Hperm. apply NoDup_elements.
    + apply Sorted_StronglySorted; [intros x y z; unfold flip; lia|].
      apply Sorted_reverse, Sorted_merge_sort. intros x y. lia.
Qed.

Example editor_remove_ex :
  V2Main.remove {[0; 2]} [V2Main.RuleRow "a" "" ""; V2Main.RuleRow "b" "" "";
                          V2Main.RuleRow "c" "" ""; V2Main.RuleRow "d" "" ""]
  = [V2Main.RuleRow "b" "" ""; V2Main.RuleRow "d" "" ""].
Proof. by vm_compute. Qed.

Lemma add_sources_loop_spec w paths : ∀ sources,
  let result := fold_left (V2Main.add_source w) paths sources in
  (NoDup sources → NoDup result)
  ∧ sources `prefix_of` result
  ∧ (∀ pp, pp ∈ result →
           pp ∈ sources ∨ (path_exists w pp = true ∧ pp ∈ map path_of_str paths))
  ∧ (∀ p, p ∈ paths → path_exists w (path_of_str p) = true → path_of_str p ∈ result).
Proof.
  induction paths as [|p paths IH]; intros sources; simpl.
  - split; [done|]. split; [done|]. split; [by left|]. by intros p ?%elem_of_nil.
  - specialize (IH (V2Main.add_source w sources p)). simpl in IH.
    destruct IH as (Hnd & Hpre & Hin & Hall).
    set (result := fold_left (V2Main.add_source w) paths (V2Main.add_source w sources p)) in *.
    assert (Hstep : V2Main.add_source w sources p = sources
                    ∨ (V2Main.add_source w sources p = sources ++ [path_of_str p]
                       ∧ path_exists w (path_of_str p) = true
                       ∧ path_of_str p ∉ sources)).
    { unfold V2Main.add_source. destruct (path_exists w (path_of_str p)) eqn:E; [|by left].
      simpl. case_bool_decide; [by right|by left]. }
    split; [|split; [|split]].
    + intros H. apply Hnd. destruct Hstep as [->|(-> & _ & Hnot)]; [done|].
      apply NoDup_app. split; [done|]. split; [|apply NoDup_singleton].
      by intros x Hx ->%list_elem_of_singleton.
    + etrans; [|exact Hpre]. destruct Hstep as [->|(-> & _)]; [done|].
      by apply prefix_app_r.
    + intros pp Hpp. destruct (Hin pp Hpp) as [Hs|[He Hp]].
      * destruct Hstep as [Heq|(Heq & He & _)]; rewrite Heq in Hs; [by left|].
        apply elem_of_app in Hs as [?|Hx]; [by left|].
        apply list_elem_of_singleton in Hx as ->.
        right. split; [done|]. by left.
      * right. split; [done|]. by right.
    + intros q [->|Hq]%elem_of_cons He; [|by apply Hall].
      assert (Hnow : path_of_str p ∈ V2Main.add_source w sources p).
      { destruct Hstep as [Heq|(-> & _)].
        - rewrite Heq. destruct (decide (path_of_str p ∈ sources)) as [|Hn]; [done|].
          unfold V2Main.add_source in Heq. rewrite He in Heq. simpl in Heq.
          rewrite bool_decide_eq_true_2 in Heq by done.
          apply (f_equal length) in Heq. rewrite length_app in Heq. simpl in Heq. lia.
        - apply elem_of_app. right. by left. }
      destruct Hpre as [k ->]. apply elem_of_app. by left.
Qed.

Lemma add_sources_loop_fixed w paths : ∀ sources,
  (∀ p, p ∈ paths → path_exists w (path_of_str p) = true → path_of_str p ∈ sources) →
  fold_left (V2Main.add_source w) paths sources = sources.
Proof.
  induction paths as [|p paths IH]; intros sources H; simpl; [done|].
  assert (V2Main.add_source w sources p = sources) as ->.
  { unfold V2Main.add_source. destruct (path_exists w (path_of_str p)) eqn:E; [|done].
    simpl. rewrite bool_decide_eq_false_2; [done|]. intros Hn. apply Hn, H; [by left|done]. }
  apply IH. intros q Hq. apply H. by right.
Qed.

(** X17 (the list of sources).  [MainWindow.add_sources] keeps a list
    without duplicates free of duplicates, keeps the sources it had, in
    their order, at the front, adds only paths that were given and exist, adds
    every given path that exists, and changes nothing when it is called again
    with the same paths. *)
Theorem add_sources_keeps_list_sound :
  (∀ w paths sources, NoDup sources → NoDup (V2Main.add_sources w paths sources).1)
  ∧ (∀ w paths sources, sources `prefix_of` (V2Main.add_sources w paths sources).1)
  ∧ (∀ w paths sources pp,
        pp ∈ (V2Main.add_sources w paths sources).1 →
        pp ∈ sources ∨ (path_exists w pp = true ∧ pp ∈ map path_of_str paths))
  ∧ (∀ w paths sources p,
        p ∈ paths → path_exists w (path_of_str p) = true →
        path_of_str p ∈ (V2Main.add_sources w paths sources).1)
  ∧ (∀ w paths sources,
        V2Main.add_sources w paths (V2Main.add_sources w paths sources).1
        = V2Main.add_sources w paths sources).
Proof.
  split; [|split; [|split; [|split]]]; intros w paths sources.
  - apply (add_sources_loop_spec w paths sources).
  - apply (add_sources_loop_spec w paths sources).
  - apply (add_sources_loop_spec w paths sources).
  - apply (add_sources_loop_spec w paths sources).
  - unfold V2Main.add_sources. simpl.
    rewrite add_sources_loop_fixed; [done|].
    apply (add_sources_loop_spec w paths sources).
Qed.

Lemma add_sources_keeps_list_sound_witness :
  NoDup (V2Main.add_sources world_A ["/d"; "/d/"; "/nowhere"; "/home/u"] []).1.
Proof. apply (proj1 add_sources_keeps_list_sound world_A). constructor. Defined.

(** X18 (Organize moves what Preview showed).  In v2, the plan that
    [MainWindow.organize] reads from the table that [MainWindow.preview]
    filled in, with every row still checked, is the plan that was previewed,
    provided no source text is empty (else the text of the folder column is
    taken); a plan that [build_preview] made has no empty source text.  In v1
    [MainWindow.organize_now] reads back the plan that
    [MainWindow.preview_moves] showed. *)
Theorem organize_reads_the_previewed_plan :
  (∀ plan, Forall (λ e, e_src e ≠ "") plan →
           V2Main.organize_plan (V2Main.preview_rows plan) = plan)
  ∧ (∀ sources cfg w plan w',
        Forall wf_path sources → wf_names (files w) →
        V2.build_preview sources cfg w = (Ret plan, w') →
        V2Main.organize_plan (V2Main.preview_rows plan) = plan)
  ∧ (∀ plan, V1Main.organize_plan (V1Main.preview_rows plan) = plan).
Proof.
  assert (H2 : ∀ plan, Forall (λ e, e_src e ≠ "") plan →
                       V2Main.organize_plan (V2Main.preview_rows plan) = plan).
  { intros plan H. unfold V2Main.organize_plan, V2Main.preview_rows.
    induction H as [|[s c d] plan Hs _ IH]; [done|]. simpl in *.
    rewrite bool_decide_eq_true_2 by done. by rewrite IH. }
  split; [done|]. split.
  - intros sources cfg w plan w' Hs Hn H. apply H2.
    apply V2_build_preview_flat in H as ->. apply Forall_forall.
    intros e (source & n & c & Hin & _ & Hc & ->)%plan_by_elem. simpl.
    apply path_str_nonempty. rewrite Forall_forall in Hs.
    eapply child_wf; [by apply Hs|done|by eexists].
  - intros plan. unfold V1Main.organize_plan, V1Main.preview_rows.
    induction plan as [|[s c d] plan IH]; [done|]. simpl. by rewrite IH.
Qed.

Lemma organize_reads_the_previewed_plan_witness :
  V2Main.organize_plan (V2Main.preview_rows [entry_C]) = [entry_C].
Proof.
  apply (proj1 organize_reads_the_previewed_plan [entry_C]).
  constructor; [done|constructor].
Defined.

(** ** Where the records point *)

Lemma unique_dest_lands u dest r :
  wf_path dest → mv_dest r = path_str (_unique_dest u dest) → lands_at dest r.
Proof.
  intros Hd Hr. exists (_unique_dest u dest). split; [done|].
  destruct (unique_dest_spec u dest Hd) as [[_ ->]|[_ (k & Hk & -> & _)]].
  - split; [done|by left].
  - split.
    + rewrite candidate_parts by done. unfold path_parent. simpl.
      by rewrite removelast_app_one.
    + right. exists k. split; [done|]. by apply candidate_path_name.
Qed.

Lemma V1_move_entry_record e acc w acc' w' :
  V1.move_entry e acc w = (Ret acc', w') →
  acc' = acc
  ∨ ∃ r, acc' = acc ++ [r] ∧ mv_src r = path_str (path_of_str (e_src e))
         ∧ lands_at (V1_dest e) r.
Proof.
  unfold V1.move_entry, bind.
  destruct (mkdir _ w) as [[[]|ex0] w1]; [|done].
  unfold get, try_except, bind, log, modify, ret.
  destruct (shutil_move _ _ w1) as [[[]|ex1] w2]; intros [= <- <-]; [|by left].
  right. eexists. split; [done|]. split; [done|].
  eapply unique_dest_lands; [|done].
  apply join_str_wf, path_parent_wf, path_of_str_wf.
Qed.

Lemma V2_move_entry_record e acc w acc' w' :
  V2.move_entry e acc w = (Ret acc', w') →
  acc' = acc
  ∨ ∃ r, acc' = acc ++ [r] ∧ mv_src r = path_str (path_of_str (e_src e))
         ∧ lands_at (V2_dest e) r.
Proof.
  unfold V2.move_entry, bind.
  destruct (mkdir _ w) as [[[]|ex0] w1]; [|done].
  unfold get, try_except, bind, log, modify, ret.
  destruct (shutil_move _ _ w1) as [[[]|ex1] w2]; intros [= <- <-]; [|by left].
  right. eexists. split; [done|]. split; [done|].
  eapply unique_dest_lands; [|done]. apply path_of_str_wf.
Qed.

Lemma records_land_loop (move_entry : entry → list move → M (list move))
    (dest : entry → Path) plan :
  (∀ e acc w acc' w', move_entry e acc w = (Ret acc', w') →
     acc' = acc
     ∨ ∃ r, acc' = acc ++ [r] ∧ mv_src r = path_str (path_of_str (e_src e))
            ∧ lands_at (dest e) r) →
  ∀ acc w performed w',
    for_each plan move_entry acc w = (Ret performed, w') →
    ∃ new succ,
      performed = acc ++ new ∧ sublist succ plan
      ∧ Forall2 (λ r e, mv_src r = path_str (path_of_str (e_src e)) ∧ lands_at (dest e) r)
                new succ.
Proof.
  intros Hstep. induction plan as [|e rest IH]; intros acc w performed w' H; simpl in H.
  - injection H as <- <-. exists [], []. rewrite app_nil_r. by repeat constructor.
  - unfold bind in H. destruct (move_entry e acc w) as [[acc1|ex] w1] eqn:He; [|done].
    destruct (IH _ _ _ _ H) as (new & succ & -> & Hsub & Hall).
    destruct (Hstep _ _ _ _ _ He) as [->|(r & -> & Hsrc & Hland)].
    + exists new, succ. split; [done|]. split; [by constructor|done].
    + exists (r :: new), (e :: succ). rewrite <- app_assoc. split; [done|].
      split; [by constructor|]. by constructor.
Qed.

(** X24 (where the records point).  The records that [perform_moves]
    returns pair off, in order, with a subsequence of the plan; each record
    names its entry's source, and a final path in the folder of the entry's
    destination whose name is that of the destination, or that name with
    "_k" before the suffix for some [k] from 1 on.  The destination is the
    planned one in v2; in v1 it is the planned folder joined with the base
    name of the source. *)
Theorem records_land_in_planned_folder :
  (∀ plan w performed w',
      V1.perform_moves plan w = (Ret performed, w') →
      ∃ succ, sublist succ plan
              ∧ Forall2 (λ r e, mv_src r = path_str (path_of_str (e_src e))
                                ∧ lands_at (V1_dest e) r) performed succ)
  ∧ (∀ plan w performed w',
        V2.perform_moves plan w = (Ret performed, w') →
        ∃ succ, sublist succ plan
                ∧ Forall2 (λ r e, mv_src r = path_str (path_of_str (e_src e))
                                  ∧ lands_at (V2_dest e) r) performed succ).
Proof.
  split; intros plan w performed w' H.
  - rewrite V1_perform_moves_loop in H.
    destruct (for_each plan V1.move_entry [] w) as [[R|ex] w0] eqn:Hloop; [|done].
    injection H as -> _.
    destruct (records_land_loop _ V1_dest plan V1_move_entry_record _ _ _ _ Hloop)
      as (new & succ & -> & Hsub & Hall).
    by exists succ.
  - rewrite V2_perform_moves_loop in H.
    destruct (for_each plan V2.move_entry [] w) as [[R|ex] w0] eqn:Hloop; [|done].
    injection H as -> _.
    destruct (records_land_loop _ V2_dest plan V2_move_entry_record _ _ _ _ Hloop)
      as (new & succ & -> & Hsub & Hall).
    by exists succ.
Qed.

(** ** The rules editor: rows with the same name *)

Lemma records_land_in_planned_folder_witness :
  ∃ succ, sublist succ [entry_C]
          ∧ Forall2 (λ r e, mv_src r = path_str (path_of_str (e_src e))
                            ∧ lands_at (V1_dest e) r)
                    [Move "/d/photo.png" "/d/Images/photo_1.png"] succ.
Proof.
  apply (proj1 records_land_in_planned_folder [entry_C] world_C
           [Move "/d/photo.png" "/d/Images/photo_1.png"]
           (V1.perform_moves [entry_C] world_C).2).
  vm_compute. reflexivity.
Defined.

Lemma saved_categories_snoc table r :
  V2Main.saved_categories (table ++ [r])
  = V2Main.save_row (V2Main.saved_categories table) r.
Proof. unfold V2Main.saved_categories. by rewrite fold_left_app. Qed.

(** X23 (the last row of a name wins).  What [ConfigEditor.save] stores
    under a name is the rule of the last row of the table whose stripped
    category text is that name, with the extensions and the destination read
    from that row alone; a name no row has, and the empty name, are not
    stored. *)
Theorem editor_save_last_row_wins table name :
  dict_get name (V2Main.saved_categories table)
  = if bool_decide (name = "") then None
    else (λ r, V2Main.rule_json (V2Main.row_extensions (V2Main.rr_extensions r))
                                (strip (V2Main.rr_destination r)))
         <$> List.find (λ r, bool_decide (strip (V2Main.rr_category r) = name)) (rev table).
Proof.
  induction table as [|r table IH] using rev_ind.
  - simpl. by case_bool_decide.
  - rewrite saved_categories_snoc, rev_app_distr. simpl.
    unfold V2Main.save_row.
    destruct (decide (strip (V2Main.rr_category r) = name)) as [E|E].
    + rewrite (bool_decide_eq_true_2 (strip (V2Main.rr_category r) = name)) by done.
      destruct (decide (name = "")) as [->|Hn].
      * rewrite bool_decide_eq_false_2 by (intros Hne; by apply Hne).
        rewrite IH. by rewrite bool_decide_eq_true_2.
      * rewrite bool_decide_eq_true_2 by congruence.
        rewrite E, dict_get_set. by rewrite bool_decide_eq_false_2.
    + rewrite (bool_decide_eq_false_2 (strip (V2Main.rr_category r) = name)) by done.
      destruct (decide (strip (V2Main.rr_category r) = "")) as [Hs|Hs].
      * rewrite bool_decide_eq_false_2 by (intros Hne; by apply Hne). apply IH.
      * rewrite bool_decide_eq_true_2 by done.
        rewrite dict_get_set_ne by done. apply IH.
Qed.

Example editor_save_rows_ex :
  V2Main.saved_categories
    [V2Main.RuleRow "Docs" ".pdf" ""; V2Main.RuleRow "Pics" ".png, .jpg" "/p";
     V2Main.RuleRow " Docs " ".txt,," " /t "; V2Main.RuleRow "  " ".x" ""]
  = [("Docs", V2Main.rule_json [".txt"] "/t");
     ("Pics", V2Main.rule_json [".png"; ".jpg"] "/p")].
Proof. by vm_compute. Qed.

(** ** Organizing a folder empties its preview *)

Lemma resolve_of_parent w p :
  path_parts p ≠ [] → resolve w p = resolve w (path_parent p) ++ [path_name p].
Proof. intros Hne. by rewrite <- resolve_child, child_of_parent. Qed.

Lemma unique_dest_parent u dest :
  wf_path dest → path_parts dest ≠ [] →
  path_parts (_unique_dest u dest) ≠ []
  ∧ path_parent (_unique_dest u dest) = path_parent dest.
Proof.
  intros Hd Hne. destruct (unique_dest_spec u dest Hd) as [[_ ->]|[_ (k & _ & -> & _)]];
    [done|].
  rewrite candidate_parts by done. unfold path_parent. simpl.
  rewrite removelast_app_one. split; [|done]. by destruct (removelast (path_parts dest)).
Qed.

(** A step of v2 on an entry whose source is a regular file: unless
    [mkdir] raises, the file goes to the planned folder. *)
Lemma V2_move_file e acc w c :
  let src := path_of_str (e_src e) in
  let dest := path_of_str (e_planned_dest e) in
  wf_fs (files w) →
  files w !! resolve w src = Some (File c) →
  path_parts dest ≠ [] →
  (∃ ex, V2.move_entry e acc w = (Raise ex, w))
  ∨ ∃ G safe,
      V2.move_entry e acc w
      = (Ret (acc ++ [Move (path_str src) (path_str safe)]),
         set_files (<[resolve w safe := File c]> (delete (resolve w src) G)) w)
      ∧ extends (files w) G ∧ wf_fs G
      ∧ G !! resolve w safe = None
      ∧ G !! removelast (resolve w safe) = Some Dir
      ∧ resolve w safe = resolve w (path_parent dest) ++ [path_name safe].
Proof.
  intros src dest HF Hsrc Hne. unfold V2.move_entry, bind. fold src dest.
  destruct (mkdir (path_parent dest) w) as [r0 w1] eqn:Hmk.
  apply mkdir_cases in Hmk as [(ex & -> & ->)|(-> & G & HG & -> & Hext & HwfG)];
    [left; by eexists|right].
  unfold get, try_except, bind.
  set (safe := _unique_dest (set_files G w) dest).
  assert (Hdw : wf_path dest) by apply path_of_str_wf.
  destruct (unique_dest_parent (set_files G w) dest Hdw Hne) as [Hsne Hsp]. fold safe in Hsne, Hsp.
  assert (Hsw : wf_path safe) by by apply unique_dest_wf.
  assert (Hfresh : G !! resolve w safe = None).
  { apply (path_exists_false (set_files G w)). by apply unique_dest_fresh. }
  assert (Hres : resolve w safe = resolve w (path_parent dest) ++ [path_name safe]).
  { rewrite <- Hsp. by apply resolve_of_parent. }
  assert (Hpar : G !! removelast (resolve w safe) = Some Dir).
  { rewrite Hres, removelast_app_one.
    by destruct (mkdir_from_spec _ _ _ _ _ HG) as [Hp _]. }
  exists G, safe.
  rewrite (shutil_move_file _ _ (set_files G w) c);
    rewrite ?path_of_str_str by (done || apply path_of_str_wf);
    [|by eapply extends_Some|done|done].
  split; [done|]. split; [done|]. split; [by apply HwfG|]. done.
Qed.

(** The loop of v2 on entries that name pairwise distinct regular files
    directly in [folder], each planned to another folder: every entry moves, and
    what is left directly in [folder] was there before and is not named by the
    plan. *)
Lemma V2_loop_empties (folder : Path) plan : ∀ acc w performed w',
  for_each plan V2.move_entry acc w = (Ret performed, w') →
  wf_fs (files w) →
  NoDup (map (λ e, resolve w (path_of_str (e_src e))) plan) →
  Forall (λ e, (∃ n c, resolve w (path_of_str (e_src e)) = resolve w folder ++ [n]
                       ∧ files w !! (resolve w folder ++ [n]) = Some (File c))
               ∧ path_parts (path_of_str (e_planned_dest e)) ≠ []
               ∧ resolve w (path_parent (path_of_str (e_planned_dest e))) ≠ resolve w folder)
         plan →
  length performed = length acc + length plan
  ∧ cwd w' = cwd w
  ∧ dirs_persist (files w) (files w')
  ∧ ∀ n c, files w' !! (resolve w folder ++ [n]) = Some (File c) →
           files w !! (resolve w folder ++ [n]) = Some (File c)
           ∧ Forall (λ e, resolve w (path_of_str (e_src e)) ≠ resolve w folder ++ [n]) plan.
Proof.
  induction plan as [|e rest IH]; intros acc w performed w' H HF Hnd Hall; simpl in H.
  - injection H as <- <-. split; [simpl; lia|]. split; [done|]. split; [by intros k|].
    intros n c Hk. split; [done|constructor].
  - apply Forall_cons in Hall as [((n & c & Hkey & Hfile) & Hparts & Hpar) Hall].
    simpl in Hnd. apply NoDup_cons in Hnd as [Hnotin Hnd].
    rewrite <- Hkey in Hfile.
    unfold bind in H.
    destruct (V2_move_file e acc w c HF Hfile Hparts) as [(ex & He)|(G & safe & He & Hext & HG & Hfresh & Hp & Hres)];
      rewrite He in H; [done|].
    set (s := resolve w (path_of_str (e_src e))) in *.
    set (d := resolve w safe) in *.
    set (w1 := set_files (<[d := File c]> (delete s G)) w) in *.
    assert (HsG : G !! s = Some (File c)) by by eapply extends_Some.
    assert (HF1 : wf_fs (files w1)) by by apply file_move_wf.
    assert (Hall1 : Forall (λ e, (∃ n c, resolve w1 (path_of_str (e_src e)) = resolve w1 folder ++ [n]
                                        ∧ files w1 !! (resolve w1 folder ++ [n]) = Some (File c))
                                 ∧ path_parts (path_of_str (e_planned_dest e)) ≠ []
                                 ∧ resolve w1 (path_parent (path_of_str (e_planned_dest e)))
                                   ≠ resolve w1 folder) rest).
    { apply Forall_forall. intros e' He'. rewrite Forall_forall in Hall.
      destruct (Hall e' He') as ((n' & c' & Hkey' & Hfile') & Hparts' & Hpar').
      split; [|done]. exists n', c'. split; [done|].
      change (files w1) with (<[d := File c]> (delete s G)).
      change (resolve w1 folder) with (resolve w folder).
      assert (HG' : G !! (resolve w folder ++ [n']) = Some (File c')) by by eapply extends_Some.
      rewrite lookup_insert_ne by congruence.
      rewrite lookup_delete_ne; [done|]. intros E. apply Hnotin.
      apply list_elem_of_fmap. exists e'. split; [|done]. fold s. by rewrite E, Hkey'. }
    destruct (IH _ _ _ _ H HF1 Hnd Hall1) as (Hlen & Hcwd & Hdp & Hleft).
    split; [rewrite Hlen, length_app; simpl; lia|]. split; [done|]. split.
    { eapply dirs_persist_trans; [by apply extends_dirs_persist|].
      eapply dirs_persist_trans; [|exact Hdp]. by apply file_move_dirs_persist. }
    intros m c' Hm. destruct (Hleft m c' Hm) as [Hm1 Hrest].
    change (files w1) with (<[d := File c]> (delete s G)) in Hm1.
    change (resolve w1 folder) with (resolve w folder) in Hm1.
    assert (Hmd : resolve w folder ++ [m] ≠ d).
    { rewrite Hres. intros [E _]%app_inj_tail. by apply Hpar. }
    rewrite lookup_insert_ne in Hm1 by done.
    assert (Hms : resolve w folder ++ [m] ≠ s)
      by (intros E; rewrite E, lookup_delete_eq in Hm1; done).
    rewrite lookup_delete_ne in Hm1 by done.
    split; [by apply (extends_files (files w) G)|]. constructor; [by fold s|done].
Qed.

Lemma path_parent_child p n : path_parent (child p n) = p.
Proof. destruct p as [a parts]. unfold path_parent, child. simpl. by rewrite removelast_app_one. Qed.

Lemma child_parts p n : path_parts (child p n) ≠ [].
Proof. unfold child. simpl. by destruct (path_parts p). Qed.

Lemma join_str_child p n : valid_part n → join_str p n = child p n.
Proof. apply join_str_part. Qed.

Lemma wf_child p n : wf_path p → valid_part n → wf_path (child p n).
Proof. intros Hp Hn. unfold wf_path, child. simpl. apply Forall_app. split; [done|by constructor]. Qed.

Lemma matched_destination_in item cfg : matched_destination item cfg ∈ destinations cfg.
Proof.
  unfold matched_destination, destinations.
  destruct (List.find _ _) as [[cat info]|] eqn:E; [|by left].
  right. apply find_some in E as [Hin _]. apply list_elem_of_In in Hin.
  apply list_elem_of_fmap. by exists (cat, info).
Qed.

Lemma categorize_loop_name ext cats cat root :
  categorize_loop ext cats = Some (cat, root) → cat ∈ map fst cats.
Proof.
  induction cats as [|[c info] cats IH]; simpl; [done|].
  destruct (bool_decide _); [intros [= <- _]; by left|].
  intros H. right. by apply IH.
Qed.

Lemma category_valid item cfg :
  Forall (λ ci : string * catinfo, valid_part ci.1) (categories cfg) →
  valid_part (categorize_file item cfg).1.
Proof.
  intros Hc. unfold categorize_file.
  destruct (categorize_loop _ _) as [[cat root]|] eqn:E.
  - apply categorize_loop_name, list_elem_of_fmap in E as (ci & -> & Hin).
    rewrite Forall_forall in Hc. by apply Hc.
  - done.
Qed.

Lemma stat_ext w w' p : cwd w' = cwd w → files w' = files w → stat w' p = stat w p.
Proof. unfold stat, resolve. by intros -> ->. Qed.

Lemma regular_files_ext w w' p :
  cwd w' = cwd w → files w' = files w → regular_files w' p = regular_files w p.
Proof.
  intros Hc Hf. unfold regular_files, children, resolve. rewrite Hc, Hf.
  apply list_filter_iff. intros item. unfold is_file. by rewrite (stat_ext w w' item).
Qed.

(** The loop of v2 on the plan of one folder whose entries are all planned
    to other folders: every entry moves and the folder is left without
    regular files. *)
Lemma organize_empties planned (folder : Path) w performed w' :
  wf_fs (files w) → wf_names (files w) → wf_path folder →
  (∀ source item, e_src (planned source item) = path_str item) →
  (∀ n c, files w !! (resolve w folder ++ [n]) = Some (File c) →
     path_parts (path_of_str (e_planned_dest (planned folder (child folder n)))) ≠ []
     ∧ resolve w (path_parent (path_of_str (e_planned_dest (planned folder (child folder n)))))
       ≠ resolve w folder) →
  for_each (plan_by w planned [folder]) V2.move_entry [] w = (Ret performed, w') →
  length performed = length (plan_by w planned [folder])
  ∧ cwd w' = cwd w
  ∧ (is_file w folder = false → is_file w' folder = false)
  ∧ regular_files w' folder = [].
Proof.
  intros HF Hn HS Hsrc Hdest Hloop.
  assert (Hkey : ∀ n c, files w !! (resolve w folder ++ [n]) = Some (File c) →
                        resolve w (path_of_str (e_src (planned folder (child folder n))))
                        = resolve w folder ++ [n]).
  { intros n c Hc. rewrite Hsrc, path_of_str_str, resolve_child; [done|].
    eapply child_wf; [done..|by eexists]. }
  destruct (plan_by_keys w planned [folder] Hsrc) as [Hnd _];
    [by constructor|done|apply NoDup_singleton|].
  destruct (V2_loop_empties folder _ _ _ _ _ Hloop HF Hnd) as (Hlen & Hcwd & Hdp & Hleft).
  { apply Forall_forall. intros e (s & n & c & ->%list_elem_of_singleton & _ & Hc & ->)%plan_by_elem.
    split; [|by eapply Hdest]. exists n, c. split; [by eapply Hkey|done]. }
  split; [done|]. split; [done|]. split.
  { unfold is_file, stat. rewrite (resolve_same_cwd w w' folder Hcwd).
    destruct (files w !! resolve w folder) as [[c|]|] eqn:E; [done|by rewrite (Hdp _ E)|].
    intros _. unfold plan_by in Hloop. rewrite filter_cons_False in Hloop.
    - simpl in Hloop. injection Hloop as _ <-. by rewrite E.
    - unfold is_dir, stat. by rewrite E. }
  destruct (regular_files w' folder) as [|x l] eqn:E; [done|exfalso].
  assert (Hx : x ∈ regular_files w' folder) by (rewrite E; by left).
  apply regular_files_elem in Hx as (n & c & -> & Hc).
  rewrite (resolve_same_cwd w w' folder Hcwd) in Hc.
  destruct (Hleft n c Hc) as [Hc0 Hnone]. rewrite Forall_forall in Hnone.
  destruct (decide (is_dir w folder = true)) as [Hd|Hd].
  - apply (Hnone (planned folder (child folder n))); [|by eapply Hkey].
    apply plan_by_elem. exists folder, n, c. split; [by left|done].
  - apply Hd, is_dir_lookup. destruct HF as [_ Hpar]. apply (Hpar _ n). by eexists.
Qed.

Lemma V1_planned_elsewhere folder cfg w n c :
  wf_path folder → wf_names (files w) →
  Forall (λ ci : string * catinfo, valid_part ci.1) (categories cfg) →
  Forall (λ d, is_absolute (path_of_str d) = false) (destinations cfg) →
  files w !! (resolve w folder ++ [n]) = Some (File c) →
  path_of_str (e_planned_dest (V1_planned folder cfg (child folder n)))
  = child (child folder (categorize_file (child folder n) cfg).1) n.
Proof.
  intros HS Hn Hcat Hd Hc. simpl. unfold claimed_dest.
  rewrite Forall_forall in Hd.
  rewrite (Hd _ (matched_destination_in (child folder n) cfg)), andb_false_r.
  assert (Hv : valid_part n) by by eapply child_name_valid.
  assert (Hcv : valid_part (categorize_file (child folder n) cfg).1) by by apply category_valid.
  rewrite path_name_child, !join_str_child by done.
  apply path_of_str_str. by repeat apply wf_child.
Qed.

Lemma V2_planned_elsewhere folder cfg w n c :
  wf_names (files w) →
  files w !! (resolve w folder ++ [n]) = Some (File c) →
  path_of_str (e_planned_dest (V2_planned cfg (child folder n)))
  = child (categorize_file (child folder n) cfg).2 n.
Proof.
  intros Hn Hc. simpl.
  assert (Hv : valid_part n) by by eapply child_name_valid.
  rewrite path_name_child, join_str_child by done.
  apply path_of_str_str. apply wf_child; [apply categorize_file_wf|done].
Qed.

(** X25 (an organized folder previews empty).  Take a well-formed file
    system whose names are path components, and a source folder as [Path]
    builds it.  In v1, when the category names are path components and no
    destination of the configuration is absolute, and in v2, when no
    destination of the configuration denotes the source folder itself: if
    [build_preview] of that folder returns a plan and [perform_moves] of the
    plan returns, then every entry of the plan was moved, and
    [build_preview] of the folder returns the empty plan afterwards, as
    [organize_now] shows it after a run. *)
Theorem organized_folder_previews_empty source cfg w :
  wf_fs (files w) → wf_names (files w) → wf_path source →
  (Forall (λ ci : string * catinfo, valid_part ci.1) (categories cfg) →
   Forall (λ d, is_absolute (path_of_str d) = false) (destinations cfg) →
   ∀ plan w0 performed w1,
     V1.build_preview [source] cfg w = (Ret plan, w0) →
     V1.perform_moves plan w0 = (Ret performed, w1) →
     length performed = length plan
     ∧ ∃ w2, V1.build_preview [source] cfg w1 = (Ret [], w2))
  ∧ (Forall (λ d, resolve w (path_of_str d) ≠ resolve w source) (destinations cfg) →
     ∀ plan w0 performed w1,
       V2.build_preview [source] cfg w = (Ret plan, w0) →
       V2.perform_moves plan w0 = (Ret performed, w1) →
       length performed = length plan
       ∧ V2.build_preview [source] cfg w1 = (Ret [], w1)).
Proof.
  intros HF Hn HS. split.
  - intros Hcat Hd plan w0 performed w1 Hprev Hmoves.
    pose proof (V1_build_preview_flat _ _ _ _ _ Hprev) as ->.
    assert (Hsame : same_but_log w w0).
    { unfold V1.build_preview in Hprev.
      destruct (V1_preview_sources cfg [source] [] w) as (w' & Hrun & Hs).
      rewrite Hrun in Hprev. by injection Hprev as _ <-. }
    assert (Hfile : is_file w source = false).
    { pose proof (v1_plan_ok := V1_plan_outcome w cfg [source] []).
      rewrite <- V1_build_preview_plan, Hprev in v1_plan_ok. simpl in v1_plan_ok.
      by apply Forall_cons in v1_plan_ok as [? _]. }
    rewrite V1_perform_moves_loop in Hmoves.
    destruct (for_each _ V1.move_entry [] w0) as [r1 u1] eqn:Hl1.
    destruct r1 as [performed1|ex]; [|done].
    assert (performed1 = performed ∧ cwd w1 = cwd u1 ∧ files w1 = files u1) as (-> & Hc1 & Hf1).
    { injection Hmoves as <- <-. by destruct performed1. }
    destruct (move_loops_agree (plan_by w (λ s, V1_planned s cfg) [source]) [] w0 w)
      as [Hr Hs2]; [by apply same_but_log_sym| |].
    { apply Forall_forall.
      intros e (s & n & c & ->%list_elem_of_singleton & _ & Hc & ->)%plan_by_elem.
      rewrite (V1_planned_elsewhere source cfg w n c) by done.
      simpl. rewrite path_of_str_str by (eapply child_wf; [done..|by eexists]).
      by rewrite !path_name_child. }
    rewrite Hl1 in Hr, Hs2. simpl in Hr, Hs2.
    destruct (for_each _ V2.move_entry [] w) as [r2 u2] eqn:Hl2. simpl in Hr, Hs2. subst r2.
    destruct (organize_empties (λ s, V1_planned s cfg) source w performed u2 HF Hn HS)
      as (Hlen & Hcwd & Hnf & Hempty); [done| |done|].
    { intros n c Hc. rewrite (V1_planned_elsewhere source cfg w n c) by done.
      split; [apply child_parts|]. rewrite path_parent_child, resolve_child.
      intros E. apply (f_equal length) in E. rewrite length_app in E. simpl in E. lia. }
    split; [done|].
    destruct (V1_preview_sources cfg [source] [] w1) as (w2 & Hrun & _).
    exists w2. unfold V1.build_preview. rewrite Hrun. f_equal. simpl.
    destruct Hs2 as (Hc2 & _ & _ & _ & Hf2 & _).
    assert (Hcw : cwd w1 = cwd w) by congruence.
    assert (Hst : stat w1 source = stat u2 source) by (apply stat_ext; congruence).
    assert (Hrf : regular_files w1 source = []).
    { rewrite <- Hempty. apply regular_files_ext; congruence. }
    specialize (Hnf Hfile). unfold is_file in Hnf. rewrite <- Hst in Hnf.
    rewrite Hrf. by destruct (stat w1 source) as [[c|]|].
  - intros Hd plan w0 performed w1 Hprev Hmoves.
    rewrite V2_build_preview_total in Hprev. injection Hprev as <- <-.
    rewrite V2_plan_flat in *.
    rewrite V2_perform_moves_loop in Hmoves.
    destruct (for_each _ V2.move_entry [] w) as [r1 u1] eqn:Hl1.
    destruct r1 as [performed1|ex]; [|done].
    assert (performed1 = performed ∧ cwd w1 = cwd u1 ∧ files w1 = files u1) as (-> & Hc1 & Hf1).
    { injection Hmoves as <- <-. by destruct performed1. }
    destruct (organize_empties (λ _, V2_planned cfg) source w performed u1 HF Hn HS)
      as (Hlen & Hcwd & Hnf & Hempty); [done| |done|].
    { intros n c Hc. rewrite (V2_planned_elsewhere source cfg w n c) by done.
      split; [apply child_parts|]. rewrite path_parent_child, categorize_file_dest.
      rewrite Forall_forall in Hd. apply Hd, matched_destination_in. }
    split; [done|].
    rewrite V2_build_preview_total. f_equal. f_equal. unfold V2_plan.
    assert (Hrf : regular_files w1 source = []).
    { rewrite <- Hempty. by apply regular_files_ext. }
    destruct (decide (is_dir w1 source = true)) as [Hdir|Hdir].
    + rewrite filter_cons_True by done. simpl. by rewrite Hrf.
    + by rewrite filter_cons_False.
Qed.

Lemma organized_folder_previews_empty_witness :
  length [Move "/d/report.pdf" "/d/Documents/report.pdf"]
  = length [Entry "/d/report.pdf" "Documents" "/d/Documents/report.pdf"]
  ∧ ∃ w2, V1.build_preview [folder_A] cfg_A
            (V1.perform_moves [Entry "/d/report.pdf" "Documents" "/d/Documents/report.pdf"]
                              world_A).2
          = (Ret [], w2).
Proof.
  refine (proj1 (organized_folder_previews_empty folder_A cfg_A world_A
                   (proj1 world_A_wf) world_A_names (path_of_str_wf "/d")) _ _
            [Entry "/d/report.pdf" "Documents" "/d/Documents/report.pdf"] world_A
            [Move "/d/report.pdf" "/d/Documents/report.pdf"] _ _ _).
  - refine (bool_decide_unpack _ _). vm_compute. exact I.
  - refine (bool_decide_unpack _ _). vm_compute. exact I.
  - vm_compute. reflexivity.
  - vm_compute. reflexivity.
Defined.

(** In v2 a rule without a destination plans the bare name, which is
    relative to the working directory: a file of the working directory is
    "moved" onto itself, gets a counter, and is previewed again. *)
Example organize_in_working_directory :
  let home_u := path_of_str "/home/u" in
  ∃ w1, V2.build_preview [home_u] cfg_A world_H
        = (Ret [Entry "/home/u/a.pdf" "Documents" "a.pdf"], world_H)
        ∧ V2.perform_moves [Entry "/home/u/a.pdf" "Documents" "a.pdf"] world_H
          = (Ret [Move "/home/u/a.pdf" "a_1.pdf"], w1)
        ∧ V2.build_preview [home_u] cfg_A w1
          = (Ret [Entry "/home/u/a_1.pdf" "Documents" "a_1.pdf"], w1).
Proof. eexists. split; [|split]; vm_compute; reflexivity. Qed.
